(** * tarfs: a tar archive served as a read-only path filesystem

    Shallow embedding of the metadata store (the B-tree index), of the
    single-pass archive ingestion [FromReaderAt], and of the filesystem
    operations [Open], [OpenDir], [GetAttr], [Read] and [checkPermissions],
    followed by the properties established about them. The earlier revision
    of fs.go that the source holds beside the current one is embedded in the
    module [Earlier].

    Go pointers are locations of an explicit heap; a runtime panic is an
    outcome of its own; fixed-width integers are [Z] with the wrap-around
    written out where the code converts. *)

From Stdlib Require Import ZArith List String Ascii Strings.Byte Lia Bool
  Sorting.Sorted.
From stdpp Require Import base list strings gmap.

Import ListNotations.
Local Open Scope string_scope.
Local Open Scope Z_scope.

(** ** Strings as Go has them: byte sequences compared bytewise *)

Module Strings.

Definition is_sep (c : ascii) : bool := Ascii.eqb c "/".

(** [strings.Count(s, "/")]. *)
Fixpoint Count (s : string) : nat :=
  match s with
  | EmptyString => 0%nat
  | String c s' => ((if is_sep c then 1 else 0) + Count s')%nat
  end.

(** [strings.HasPrefix] is [String.prefix]; [strings.TrimPrefix]. *)
Definition TrimPrefix (s pre : string) : string :=
  if String.prefix pre s
  then String.substring (String.length pre)
                        (String.length s - String.length pre) s
  else s.

Definition HasSuffix (s suf : string) : bool :=
  (String.length suf <=? String.length s)%nat
  && String.eqb (String.substring (String.length s - String.length suf)
                                  (String.length suf) s) suf.

Definition TrimSuffix (s suf : string) : string :=
  if HasSuffix s suf
  then String.substring 0 (String.length s - String.length suf) s
  else s.

(** [strings.Join]. *)
Fixpoint Join (elems : list string) (sep : string) : string :=
  match elems with
  | [] => ""
  | [e] => e
  | e :: rest => e ++ sep ++ Join rest sep
  end.

(** The elements of a path between separators, as [strings.Split(s, "/")]
    gives them: always at least one, possibly empty. *)
Fixpoint Split (s : string) : list string :=
  match s with
  | EmptyString => [""]
  | String c s' =>
      if is_sep c then "" :: Split s'
      else match Split s' with
           | x :: xs => String c x :: xs
           | [] => [String c ""]
           end
  end.

(** Go's [<] on strings. *)
Definition lt (a b : string) : bool := String.ltb a b.

End Strings.

(** ** path/filepath on a Unix host (separator [/], no volume names) *)

Module filepath.

Import Strings.

Definition rooted (path : string) : bool :=
  match path with
  | String c _ => is_sep c
  | EmptyString => false
  end.

(** One element of the path meets the elements kept so far (most recent
    first): empty and [.] elements vanish, [..] removes the element before
    it, except that a rooted path drops a [..] that would climb over the
    root and a relative path keeps leading [..] elements. *)
Definition clean_elem (is_rooted : bool) (kept : list string) (e : string)
  : list string :=
  if String.eqb e "" || String.eqb e "." then kept
  else if String.eqb e ".." then
    match kept with
    | top :: rest =>
        if String.eqb top ".." then (if is_rooted then kept else e :: kept)
        else rest
    | [] => if is_rooted then [] else [e]
    end
  else e :: kept.

(** [filepath.Clean]. *)
Definition Clean (path : string) : string :=
  if String.eqb path "" then "."
  else
    let r := rooted path in
    let body := Join (rev (fold_left (clean_elem r) (Split path) [])) "/" in
    if r then "/" ++ body
    else if String.eqb body "" then "." else body.

(** [filepath.Join]: the elements from the first non-empty one on, joined
    by the separator and cleaned. *)
Fixpoint Join (elem : list string) : string :=
  match elem with
  | [] => ""
  | e :: rest =>
      if String.eqb e "" then Join rest
      else Clean (Strings.Join elem "/")
  end.

(** The path up to and including its last separator, and what follows. *)
Fixpoint split_last (path : string) : string * string :=
  match path with
  | EmptyString => ("", "")
  | String c s' =>
      let (d, b) := split_last s' in
      if (0 <? Count s')%nat then (String c d, b)
      else if is_sep c then (String c "", b)
      else ("", String c b)
  end.

(** [filepath.Dir]. *)
Definition Dir (path : string) : string := Clean (fst (split_last path)).

(** Trailing separators removed. *)
Fixpoint strip_trailing (path : string) : string :=
  match path with
  | EmptyString => ""
  | String c s' =>
      match strip_trailing s' with
      | EmptyString => if is_sep c then "" else String c ""
      | t => String c t
      end
  end.

(** [filepath.Base]. *)
Definition Base (path : string) : string :=
  if String.eqb path "" then "."
  else
    let p := strip_trailing path in
    if String.eqb p "" then "/"
    else snd (split_last p).

End filepath.

(** ** Outcomes: a Go call returns, or panics *)

Inductive panic : Type :=
| nil_dereference
| type_assertion
| panic_msg (msg : string).

Inductive result (A : Type) : Type :=
| Ok (a : A)
| Panic (p : panic).

Arguments Ok {A} a.
Arguments Panic {A} p.

Definition bind {A B : Type} (m : result A) (k : A -> result B) : result B :=
  match m with
  | Ok a => k a
  | Panic p => Panic p
  end.

Notation "'let!' x ':=' m 'in' k" := (bind m (fun x => k))
  (at level 10, x name, m at level 100, k at level 200).

(** ** Metadata: [Owner], [StatT], [node], [dirNode] *)

Definition uint32 (z : Z) : Z := z mod 2 ^ 32.
Definition uint64 (z : Z) : Z := z mod 2 ^ 64.
Definition maxint64 : Z := 2 ^ 63 - 1.

Record Owner : Type := { UID : Z; GID : Z }.

(** A [time.Time] is held as the seconds [Unix()] reports for it; the zero
    [time.Time] is the first instant of year 1. *)
Definition time_zero : Z := -62135596800.

Record StatT : Type := {
  Mode : Z;
  StatT_Owner : Owner;
  Atime : Z;
  Mtime : Z;
  Ctime : Z;
  Ino : Z;
  Size : Z
}.

(** [os.FileMode] and the bits of it the code reads. *)
Module os.
Definition ModeDir : Z := Z.shiftl 1 31.
Definition ModeSymlink : Z := Z.shiftl 1 27.
Definition ModePerm : Z := 511.
Definition IsDir (m : Z) : bool := negb (Z.land m ModeDir =? 0).
Definition Perm (m : Z) : Z := Z.land m ModePerm.
End os.

(** A [FileInfo] interface value holds a pointer to a [node] or to a
    [dirNode]: a location of the heap. *)
Abbreviation FileInfo := nat.

(** [stat] is a pointer in the code: the placeholder of a directory not yet
    described by the archive has none. *)
Record node : Type := { name : string; stat : option StatT }.

(** What a pointer points to. The [node] a [dirNode] embeds is never written
    through after it is built, so it is held by value. *)
Inductive object : Type :=
| obj_node (n : node)
| obj_dirNode (n : node) (entries : list FileInfo).

Abbreviation Heap := (list object).

Definition alloc (o : object) (h : Heap) : FileInfo * Heap :=
  (length h, (h ++ [o])%list).

Section Methods.

Variable h : Heap.

Definition the_node (fi : FileInfo) : result node :=
  match h !! fi with
  | Some (obj_node n) => Ok n
  | Some (obj_dirNode n _) => Ok n
  | None => Panic nil_dereference
  end.

Definition the_stat (fi : FileInfo) : result StatT :=
  let! n := the_node fi in
  match stat n with
  | Some st => Ok st
  | None => Panic nil_dereference
  end.

Definition Name (fi : FileInfo) : result string :=
  let! n := the_node fi in Ok (name n).

Definition FileInfo_Size (fi : FileInfo) : result Z :=
  let! st := the_stat fi in Ok (Size st).

Definition ModTime (fi : FileInfo) : result Z :=
  let! st := the_stat fi in Ok (Mtime st).

Definition FileInfo_Mode (fi : FileInfo) : result Z :=
  let! st := the_stat fi in Ok (Mode st).

Definition Inode (fi : FileInfo) : result Z :=
  let! st := the_stat fi in Ok (Ino st).

Definition FileInfo_Owner (fi : FileInfo) : result Owner :=
  let! st := the_stat fi in Ok (StatT_Owner st).

End Methods.

(** ** The ordered path index *)

Record stringKey : Type := { key : string; info : FileInfo }.

(** [stringKey.Less] reads only the keys of the two items, so it is given
    here on the keys: first the number of separators, then the bytes. *)
Definition Less (k other : string) : bool :=
  let keyCount := Strings.Count k in
  let oCount := Strings.Count other in
  if (keyCount <? oCount)%nat then true
  else if (keyCount =? oCount)%nat then Strings.lt k other
  else false.

(** The B-tree of [github.com/google/btree], as the ordered set it
    implements: the items in ascending order of [Less], two items being the
    same when neither is less than the other. An item built only to search
    is given by its key. *)
Module btree.

Definition BTree : Type := list stringKey.

Definition New : BTree := [].

Definition same (a b : string) : bool := negb (Less a b) && negb (Less b a).

Fixpoint ReplaceOrInsert (item : stringKey) (t : BTree) : BTree :=
  match t with
  | [] => [item]
  | x :: t' =>
      if Less (key item) (key x) then item :: x :: t'
      else if Less (key x) (key item) then x :: ReplaceOrInsert item t'
      else item :: t'
  end.

Definition Get (k : string) (t : BTree) : option stringKey :=
  List.find (fun x => same k (key x)) t.

(** The items of [[greaterOrEqual, lessThan)], ascending; the iterator of
    the one caller never stops the walk. *)
Definition AscendRange (greaterOrEqual lessThan : string) (t : BTree)
  : list stringKey :=
  List.filter
    (fun x => negb (Less (key x) greaterOrEqual) && Less (key x) lessThan) t.

End btree.

Definition btreeStore : Type := btree.BTree.

Definition NewBTreeStore : btreeStore := btree.New.

(** [Add] of the B-tree store never fails. *)
Definition Add (s : btreeStore) (k : string) (fi : FileInfo) : btreeStore :=
  btree.ReplaceOrInsert {| key := k; info := fi |} s.

(** [None] is the nil [FileInfo]. *)
Definition Get (s : btreeStore) (k : string) : option FileInfo :=
  match btree.Get k s with
  | None => None
  | Some i => Some (info i)
  end.

(** [dirNode.Entries]: a copy of the children list, in the order held. *)
Definition dirNode_Entries (entries : list FileInfo) : list FileInfo :=
  fold_left (fun acc e => (acc ++ [e])%list) entries [].

(** The range scan of [btreeStore.Entries], used when the node is not a
    [DirIndex]. *)
Definition scan_entries (s : btreeStore) (sk : stringKey) (k : string)
  : list FileInfo :=
  let until := key sk ++ "//" in
  fold_left
    (fun entries esk =>
       if String.eqb (key esk) k then entries
       else if String.eqb (filepath.Dir (key esk)) k
            then (entries ++ [info esk])%list
            else entries)
    (btree.AscendRange (key sk) until s) [].

Definition Entries (s : btreeStore) (h : Heap) (k : string)
  : result (list FileInfo) :=
  match btree.Get k s with
  | None => Panic (panic_msg "non-existent key")
  | Some sk =>
      let! m := FileInfo_Mode h (info sk) in
      if negb (os.IsDir m) then
        let! nm := Name h (info sk) in
        Panic (panic_msg ("cannot list entries for non-dir: " ++ nm))
      else
        match h !! info sk with
        | Some (obj_dirNode _ entries) => Ok (dirNode_Entries entries)
        | _ => Ok (scan_entries s sk k)
        end
  end.

(** ** The archive as [archive/tar] presents it *)

Module tar.

(** A header, with what [h.FileInfo()] reports of it: [FileMode] is
    [h.FileInfo().Mode()], an [os.FileMode]. *)
Record Header : Type := {
  Name : string;
  FileMode : Z;
  Size : Z;
  ModTime : Z;
  AccessTime : Z;
  ChangeTime : Z;
  Uid : Z;
  Gid : Z
}.

(** How [Next] stops giving headers. *)
Inductive stop : Type :=
| EOF
| failure (msg : string).

(** What a reader over the archive yields: each header with the position
    of the underlying stream once the header is read, which is where the
    content of the entry begins; then the end. *)
Record Reader : Type := {
  entries : list (Header * Z);
  stops : stop
}.

End tar.

Definition fillStat (hdr : tar.Header) : StatT :=
  {| Mode := uint32 (tar.FileMode hdr);
     StatT_Owner := {| UID := uint32 (tar.Uid hdr);
                       GID := uint32 (tar.Gid hdr) |};
     Atime := tar.AccessTime hdr;
     Mtime := tar.ModTime hdr;
     Ctime := tar.ChangeTime hdr;
     Ino := 0;
     Size := tar.Size hdr |}.

Definition with_Ino (st : StatT) (pos : Z) : StatT :=
  {| Mode := Mode st; StatT_Owner := StatT_Owner st; Atime := Atime st;
     Mtime := Mtime st; Ctime := Ctime st; Ino := pos; Size := Size st |}.

Definition fuseNameToKey (nm : string) : string :=
  filepath.Join ["/"; nm].

Definition headerNameEntry (nm : string) : string :=
  let nm := Strings.TrimSuffix (Strings.TrimPrefix nm "./") "/" in
  let nm := if String.eqb nm "." then "" else nm in
  fuseNameToKey nm.

(** ** Ingestion *)

Definition error : Type := string.

(** What the loop of [FromReaderAt] holds: the index, the memory the nodes
    live in, and the parents referenced but not yet described. *)
Record ingest : Type := {
  idx : btreeStore;
  objs : Heap;
  missingDirs : gset string
}.

(** The node of the entry itself: a directory that the index already has
    is written into, anything else is a new node. *)
Definition entry_node (st : ingest) (hdr : tar.Header) (pos : Z)
  : result (FileInfo * Heap * gset string) :=
  let k := headerNameEntry (tar.Name hdr) in
  let nd := {| name := tar.Name hdr;
               stat := Some (with_Ino (fillStat hdr) pos) |} in
  if os.IsDir (tar.FileMode hdr) then
    match Get (idx st) k with
    | Some dirInfo =>
        match objs st !! dirInfo with
        | Some (obj_dirNode _ es) =>
            Ok (dirInfo, <[dirInfo := obj_dirNode nd es]> (objs st),
                missingDirs st ∖ {[k]})
        | Some (obj_node _) => Panic type_assertion
        | None => Panic nil_dereference
        end
    | None =>
        let (p, h') := alloc (obj_dirNode nd []) (objs st) in
        Ok (p, h', missingDirs st)
    end
  else
    let (p, h') := alloc (obj_node nd) (objs st) in
    Ok (p, h', missingDirs st).

(** The parent of the entry: the directory the index has at the parent
    path, or a placeholder made for it and noted as missing. *)
Definition parent_node (db : btreeStore) (h : Heap) (missing : gset string)
  (parentKey : string) : result (FileInfo * Heap * gset string) :=
  match Get db parentKey with
  | Some parentInfo =>
      match h !! parentInfo with
      | Some (obj_dirNode _ _) => Ok (parentInfo, h, missing)
      | Some (obj_node _) => Panic type_assertion
      | None => Panic nil_dereference
      end
  | None =>
      let (p, h') :=
        alloc (obj_dirNode {| name := filepath.Base parentKey; stat := None |} [])
              h in
      Ok (p, h', missing ∪ {[parentKey]})
  end.

(** [parent.entries = append(parent.entries, nodeInfo)]. *)
Definition append_entry (h : Heap) (parent nodeInfo : FileInfo) : Heap :=
  match h !! parent with
  | Some (obj_dirNode n es) =>
      <[parent := obj_dirNode n (es ++ [nodeInfo])%list]> h
  | _ => h
  end.

(** One turn of the loop, for the header [hdr] read with the stream left at
    [pos]. *)
Definition ingest_entry (st : ingest) (hdr : tar.Header) (pos : Z)
  : result ingest :=
  let! e := entry_node st hdr pos in
  let '(nodeInfo, h1, missing1) := e in
  let k := headerNameEntry (tar.Name hdr) in
  let db1 := Add (idx st) k nodeInfo in
  let parentKey := filepath.Dir k in
  let! p := parent_node db1 h1 missing1 parentKey in
  let '(parent, h2, missing2) := p in
  let h3 := append_entry h2 parent nodeInfo in
  Ok {| idx := Add db1 parentKey parent; objs := h3; missingDirs := missing2 |}.

Fixpoint ingest_loop (es : list (tar.Header * Z)) (st : ingest)
  : result ingest :=
  match es with
  | [] => Ok st
  | (hdr, pos) :: rest =>
      let! st' := ingest_entry st hdr pos in
      ingest_loop rest st'
  end.

(** ** The server *)

Record server : Type := {
  db : btreeStore;
  stream : list Byte.byte;
  mem : Heap
}.

Definition Newserver (s : btreeStore) (tarStream : list Byte.byte) (h : Heap)
  : server :=
  {| db := s; stream := tarStream; mem := h |}.

Definition rootStat (euid egid : Z) : StatT :=
  {| Mode := uint32 (Z.lor 493 os.ModeDir);
     StatT_Owner := {| UID := uint32 euid; GID := uint32 egid |};
     Atime := time_zero; Mtime := time_zero; Ctime := time_zero;
     Ino := 2;
     Size := 4096 |}.

(** The state the loop starts from: the root entry added to the store. *)
Definition ingest_start (s : btreeStore) (h : Heap) (euid egid : Z) : ingest :=
  let (rootNode, h1) :=
    alloc (obj_dirNode {| name := ""; stat := Some (rootStat euid egid) |} [])
          h in
  {| idx := Add s "/" rootNode; objs := h1; missingDirs := ∅ |}.

(** [FromReaderAt]: [tr] is the tar reader over [ra]; [euid] and [egid] are
    what [os.Geteuid] and [os.Getegid] answer. The result is the server, or
    the error with no server; the order in which the missing paths are
    listed is the order of a Go map range, which the language leaves open:
    [elements] stands for it. *)
Definition FromReaderAt (tr : tar.Reader) (ra : list Byte.byte) (s : btreeStore)
  (h : Heap) (euid egid : Z) : result (server + error) :=
  let! st := ingest_loop (tar.entries tr) (ingest_start s h euid egid) in
  match tar.stops tr with
  | tar.failure msg => Ok (inr ("error reading tar: " ++ msg))
  | tar.EOF =>
      if negb (size (missingDirs st) =? 0)%nat then
        Ok (inr ("missing directory entries: "
                 ++ Strings.Join (elements (missingDirs st)) ","))
      else Ok (inl (Newserver (idx st) ra (objs st)))
  end.

(** ** Reading: [io.ReaderAt], [io.SectionReader] *)

Definition int64 (z : Z) : Z := (z + 2 ^ 63) mod 2 ^ 64 - 2 ^ 63.

Module io.

Inductive error : Type :=
| EOF
| fault (msg : string).

(** [ReadAt] of the archive held in memory, as [bytes.Reader] has it: the
    buffer [p] is filled from [off] on; the buffer as it is afterwards is
    returned with the count and the error. *)
Definition ReadAt (src p : list Byte.byte) (off : Z)
  : Z * option error * list Byte.byte :=
  if off <? 0 then (0, Some (fault "bytes.Reader.ReadAt: negative offset"), p)
  else if Z.of_nat (length src) <=? off then (0, Some EOF, p)
  else
    let avail := drop (Z.to_nat off) src in
    let n := Nat.min (length p) (length avail) in
    (Z.of_nat n,
     if (n <? length p)%nat then Some EOF else None,
     (take n avail ++ drop n p)%list).

Record SectionReader : Type := {
  r : list Byte.byte;
  base : Z;
  limit : Z
}.

Definition NewSectionReader (src : list Byte.byte) (off n : Z)
  : SectionReader :=
  let remaining :=
    if off <=? int64 (maxint64 - n) then int64 (n + off) else maxint64 in
  {| r := src; base := off; limit := remaining |}.

Definition Size (s : SectionReader) : Z := int64 (limit s - base s).

Definition SectionReader_ReadAt (s : SectionReader) (p : list Byte.byte)
  (off : Z) : Z * option error * list Byte.byte :=
  if (off <? 0) || (Size s <=? off) then (0, Some EOF, p)
  else
    let off := int64 (off + base s) in
    let max := int64 (limit s - off) in
    if max <? Z.of_nat (length p) then
      let '(n, err, q) := ReadAt (r s) (take (Z.to_nat max) p) off in
      (n,
       match err with None => Some EOF | Some e => Some e end,
       (q ++ drop (Z.to_nat max) p)%list)
    else ReadAt (r s) p off.

End io.

(** ** The filesystem operations *)

Module fuse.

Inductive Status : Type := OK | ENOENT | EIO | EPERM.

Record Context : Type := { Uid : Z; Gid : Z; Pid : Z }.

Record Attr : Type := {
  Attr_Mtime : Z;
  Attr_Mode : Z;
  Attr_Size : Z;
  Attr_Uid : Z;
  Attr_Gid : Z
}.

Record DirEntry : Type := { DirEntry_Name : string; DirEntry_Mode : Z }.

Definition S_IFDIR : Z := 16384.
Definition S_IFLNK : Z := 40960.
Definition S_IFREG : Z := 32768.

(** [ReadResultData p] holds the slice it is given; [eofReadResult] is the
    result of this package whose size is zero. *)
Inductive ReadResult : Type :=
| ReadResultData (p : list Byte.byte)
| eofReadResult.

Definition ReadResult_Size (rr : ReadResult) : nat :=
  match rr with
  | ReadResultData p => length p
  | eofReadResult => 0%nat
  end.

Definition ReadResult_Bytes (rr : ReadResult) : list Byte.byte :=
  match rr with
  | ReadResultData p => p
  | eofReadResult => []
  end.

End fuse.

Record file : Type := {
  file_name : string;
  ReaderAt : io.SectionReader
}.

Definition checkPermissions (h : Heap) (fi : FileInfo) (context : fuse.Context)
  : result bool :=
  let! owner := FileInfo_Owner h fi in
  let! m := FileInfo_Mode h fi in
  let perms := os.Perm m in
  if negb (Z.land perms (Z.shiftl 1 2) =? 0) then Ok true
  else if GID owner =? fuse.Gid context then
    Ok (negb (Z.land perms (Z.shiftl 1 5) =? 0))
  else if UID owner =? fuse.Uid context then
    Ok (negb (Z.land perms (Z.shiftl 1 8) =? 0))
  else Ok false.

Definition Open (s : server) (nm : string) (flags : Z) (context : fuse.Context)
  : result (option file * fuse.Status) :=
  match Get (db s) (fuseNameToKey nm) with
  | None => Ok (None, fuse.ENOENT)
  | Some f =>
      let! ino := Inode (mem s) f in
      let! sz := FileInfo_Size (mem s) f in
      let! n := Name (mem s) f in
      Ok (Some {| file_name := n;
                  ReaderAt := io.NewSectionReader (stream s) ino sz |},
          fuse.OK)
  end.

Fixpoint dir_entries (h : Heap) (dirEntries : list FileInfo)
  : result (list fuse.DirEntry) :=
  match dirEntries with
  | [] => Ok []
  | e :: rest =>
      let! n := Name h e in
      let! m := FileInfo_Mode h e in
      let! tl := dir_entries h rest in
      Ok ({| fuse.DirEntry_Name := filepath.Base n;
             fuse.DirEntry_Mode := uint32 m |} :: tl)
  end.

Definition OpenDir (s : server) (nm : string) (context : fuse.Context)
  : result (option (list fuse.DirEntry) * fuse.Status) :=
  match Get (db s) (fuseNameToKey nm) with
  | None => Ok (None, fuse.ENOENT)
  | Some dir =>
      let! m := FileInfo_Mode (mem s) dir in
      if negb (os.IsDir m) then Ok (None, fuse.EIO)
      else
        let! allowed := checkPermissions (mem s) dir context in
        if negb allowed then Ok (None, fuse.EPERM)
        else
          let! dirEntries := Entries (db s) (mem s) (fuseNameToKey nm) in
          let! es := dir_entries (mem s) dirEntries in
          Ok (Some es, fuse.OK)
  end.

Definition GetAttr (s : server) (nm : string) (context : fuse.Context)
  : result (option fuse.Attr * fuse.Status) :=
  match Get (db s) (fuseNameToKey nm) with
  | None => Ok (None, fuse.ENOENT)
  | Some fi =>
      let! allowed := checkPermissions (mem s) fi context in
      if negb allowed then Ok (None, fuse.EPERM)
      else
        let! mt := ModTime (mem s) fi in
        let! m := FileInfo_Mode (mem s) fi in
        let! sz := FileInfo_Size (mem s) fi in
        let mode0 := uint32 (os.Perm m) in
        let mode :=
          if os.IsDir m then Z.lor mode0 fuse.S_IFDIR
          else if Z.land m os.ModeSymlink =? os.ModeSymlink
               then Z.lor mode0 fuse.S_IFLNK
               else Z.lor mode0 fuse.S_IFREG in
        let! owner := FileInfo_Owner (mem s) fi in
        Ok (Some {| fuse.Attr_Mtime := uint64 mt;
                    fuse.Attr_Mode := mode;
                    fuse.Attr_Size := uint64 sz;
                    fuse.Attr_Uid := UID owner;
                    fuse.Attr_Gid := GID owner |},
            fuse.OK)
  end.

(** [file.Read]: the result and the status; the result is nil on a fault. *)
Definition Read (f : file) (p : list Byte.byte) (off : Z)
  : option fuse.ReadResult * fuse.Status :=
  let '(n, err, p') := io.SectionReader_ReadAt (ReaderAt f) p off in
  match err with
  | None => (Some (fuse.ReadResultData p'), fuse.OK)
  | Some io.EOF =>
      if n <=? 0 then (Some fuse.eofReadResult, fuse.OK)
      else (Some (fuse.ReadResultData p'), fuse.OK)
  | Some (io.fault _) => (None, fuse.EIO)
  end.

(** ** The other accessors of a node *)

(** [node.AccessTime]. *)
Definition AccessTime (h : Heap) (fi : FileInfo) : result Z :=
  let! st := the_stat h fi in Ok (Atime st).

(** [node.ChangeTime]: it answers the modification time of the Stat
    Record. *)
Definition ChangeTime (h : Heap) (fi : FileInfo) : result Z :=
  let! st := the_stat h fi in Ok (Mtime st).

(** ** The earlier revision of fs.go

    The source holds an earlier revision of the file beside the current
    one: its [FromFile] reads the archive itself and files every header as a
    plain node named by its key, without a root and without directory nodes;
    its [OpenDir] names an entry by the name of its node as it is; and its
    [GetAttr] answers for the empty name before it looks anything up. [Open],
    [checkPermissions], [headerNameEntry] and [fuseNameToKey] are the same in
    both. *)

Module Earlier.

(** What the reader over the file yields: each header with what
    [f.Seek(0, io.SeekCurrent)] answers once it is read, a position or an
    error; then the end. *)
Record Reader : Type := {
  entries : list (tar.Header * (Z + string));
  stops : tar.stop
}.

(** The loop of [FromFile]. *)
Fixpoint ingest_flat (es : list (tar.Header * (Z + string)))
  (s : btreeStore) (h : Heap) : (btreeStore * Heap) + error :=
  match es with
  | [] => inl (s, h)
  | (hdr, inr msg) :: _ =>
      inr ("error getting file position in tar: " ++ msg)
  | (hdr, inl pos) :: rest =>
      let k := headerNameEntry (tar.Name hdr) in
      let (p, h') :=
        alloc (obj_node {| name := k;
                           stat := Some (with_Ino (fillStat hdr) pos) |}) h in
      ingest_flat rest (Add s k p) h'
  end.

Definition FromFile (tr : Reader) (f : list Byte.byte) (s : btreeStore)
  (h : Heap) : server + error :=
  match ingest_flat (entries tr) s h with
  | inr e => inr e
  | inl (db, h') =>
      match stops tr with
      | tar.failure msg => inr ("error reading tar: " ++ msg)
      | tar.EOF => inl (Newserver db f h')
      end
  end.

Fixpoint dir_entries (h : Heap) (dirEntries : list FileInfo)
  : result (list fuse.DirEntry) :=
  match dirEntries with
  | [] => Ok []
  | e :: rest =>
      let! n := Name h e in
      let! m := FileInfo_Mode h e in
      let! tl := dir_entries h rest in
      Ok ({| fuse.DirEntry_Name := n; fuse.DirEntry_Mode := uint32 m |} :: tl)
  end.

Definition OpenDir (s : server) (nm : string) (context : fuse.Context)
  : result (option (list fuse.DirEntry) * fuse.Status) :=
  match Get (db s) (fuseNameToKey nm) with
  | None => Ok (None, fuse.ENOENT)
  | Some dir =>
      let! m := FileInfo_Mode (mem s) dir in
      if negb (os.IsDir m) then Ok (None, fuse.EIO)
      else
        let! allowed := checkPermissions (mem s) dir context in
        if negb allowed then Ok (None, fuse.EPERM)
        else
          let! dirEntries := Entries (db s) (mem s) (fuseNameToKey nm) in
          let! es := dir_entries (mem s) dirEntries in
          Ok (Some es, fuse.OK)
  end.

(** [GetAttr]: the empty name is answered at once, as a directory of mode
    0755 owned by the caller; the rest is as in the current revision. *)
Definition GetAttr (s : server) (nm : string) (context : fuse.Context)
  : result (option fuse.Attr * fuse.Status) :=
  if String.eqb nm "" then
    Ok (Some {| fuse.Attr_Mtime := 0;
                fuse.Attr_Mode := Z.lor fuse.S_IFDIR 493;
                fuse.Attr_Size := 0;
                fuse.Attr_Uid := fuse.Uid context;
                fuse.Attr_Gid := fuse.Gid context |},
        fuse.OK)
  else GetAttr s nm context.

End Earlier.

(** * Notions the statements use *)

(** The store reached from the empty one by a sequence of [Add]s. *)
Definition added (adds : list (string * FileInfo)) : btreeStore :=
  fold_left (fun s kv => Add s (fst kv) (snd kv)) adds NewBTreeStore.

Definition key_Less (a b : stringKey) : Prop := Less (key a) (key b) = true.

(** An element of a canonical path: not empty, not [.] or [..], and without
    a separator. *)
Definition proper (e : string) : Prop :=
  e <> "" /\ e <> "." /\ e <> ".." /\ Strings.Count e = 0%nat.

(** The rooted path with the given elements; the root has none. *)
Definition path_of (cs : list string) : string := "/" ++ Strings.Join cs "/".

Definition canonical (k : string) : Prop :=
  exists cs, Forall proper cs /\ k = path_of cs.

(** The path of a node is that of its parent, a separator, and its own
    element; the root stands for the empty prefix. *)
Definition dir_prefix (cs : list string) : string :=
  match cs with
  | [] => ""
  | _ => path_of cs
  end.

(** The items the scan of [btreeStore.Entries] accepts. *)
Definition scan_accepts (k : string) (x : stringKey) : bool :=
  negb (String.eqb (key x) k) && String.eqb (filepath.Dir (key x)) k.

(** The decision of [checkPermissions], read off the three bits of the mode:
    bit 2 is the read bit of the class "other", bit 5 that of the group,
    bit 8 that of the owner. *)
Definition permitted (st : StatT) (context : fuse.Context) : bool :=
  if Z.testbit (Mode st) 2 then true
  else if GID (StatT_Owner st) =? fuse.Gid context then Z.testbit (Mode st) 5
  else if UID (StatT_Owner st) =? fuse.Uid context then Z.testbit (Mode st) 8
  else false.

Definition node_of (o : object) : node :=
  match o with
  | obj_node n => n
  | obj_dirNode n _ => n
  end.

Definition children (o : object) : list FileInfo :=
  match o with
  | obj_node _ => []
  | obj_dirNode _ es => es
  end.

(** The node has its Stat Record. *)
Definition described (o : object) : Prop := is_Some (stat (node_of o)).

(** The index is in order and its keys are canonical; every item of it
    leads to a node that is described or is still awaited; and every child
    a directory holds is a described node. *)
Definition well_formed (st : ingest) : Prop :=
  StronglySorted key_Less (idx st)
  /\ Forall (fun x => canonical (key x)) (idx st)
  /\ (forall x, In x (idx st) ->
        exists o, objs st !! info x = Some o
                  /\ (described o \/ key x ∈ missingDirs st))
  /\ (forall p o c, objs st !! p = Some o -> c ∈ children o ->
        exists oc, objs st !! c = Some oc /\ described oc).

(** From one heap to a later one: nothing is lost, a description is never
    taken away, children are only added. *)
Definition grows (h h' : Heap) : Prop :=
  forall fi o, h !! fi = Some o ->
    exists o', h' !! fi = Some o'
               /\ (described o -> described o')
               /\ (forall c, c ∈ children o -> c ∈ children o').

(** The children a location holds, when it is a directory node. *)
Definition held (h : Heap) (l : FileInfo) : option (list FileInfo) :=
  match h !! l with
  | Some (obj_dirNode _ es) => Some es
  | _ => None
  end.

(** The location holds a node with its Stat Record. *)
Definition desc (h : Heap) (l : FileInfo) : Prop :=
  exists o, h !! l = Some o /\ described o.

(** What the index has under the keys, among [done], whose parent path is
    [D], in the order of [done]. *)
Definition children_of (s : btreeStore) (done : list string) (D : string)
  : list (option FileInfo) :=
  map (Get s) (List.filter (fun k => String.eqb (filepath.Dir k) D) done).

(** The state of the loop once the entries with the keys [done] are read:
    the index points into the heap, the described nodes are the root and
    those of [done], each of these and each of their parents is in the index,
    no node is under two keys, and a directory node holds the nodes of the
    entries under it in the order they were read. *)
Record linked (st : ingest) (done : list string) : Prop := {
  linked_bound : forall k fi, Get (idx st) k = Some fi ->
                   (fi < length (objs st))%nat;
  linked_desc : forall k fi, Get (idx st) k = Some fi -> desc (objs st) fi ->
                  k = "/" \/ In k done;
  linked_dom : forall k, k = "/" \/ In k done ->
                 exists fi, Get (idx st) k = Some fi;
  linked_parent : forall k, In k done ->
                    exists fi, Get (idx st) (filepath.Dir k) = Some fi;
  linked_inj : forall k1 k2 fi, Get (idx st) k1 = Some fi ->
                 Get (idx st) k2 = Some fi -> k1 = k2;
  linked_held : forall k fi es, Get (idx st) k = Some fi ->
                  held (objs st) fi = Some es ->
                  map Some es = children_of (idx st) done k
}.

(** ** What the statements about whole archives use *)

(** The file type [GetAttr] reports for a mode. *)
Definition file_type (m : Z) : Z :=
  if os.IsDir m then fuse.S_IFDIR
  else if Z.testbit m 27 then fuse.S_IFLNK
  else fuse.S_IFREG.

(** The attributes [GetAttr] builds from the header of an entry. *)
Definition header_attr (hdr : tar.Header) : fuse.Attr :=
  {| fuse.Attr_Mtime := uint64 (tar.ModTime hdr);
     fuse.Attr_Mode := Z.lor (os.Perm (tar.FileMode hdr))
                             (file_type (tar.FileMode hdr));
     fuse.Attr_Size := uint64 (tar.Size hdr);
     fuse.Attr_Uid := uint32 (tar.Uid hdr);
     fuse.Attr_Gid := uint32 (tar.Gid hdr) |}.

(** The directory entry [OpenDir] builds from the header of a child. *)
Definition header_dirent (e : tar.Header * Z) : fuse.DirEntry :=
  {| fuse.DirEntry_Name := filepath.Base (tar.Name (fst e));
     fuse.DirEntry_Mode := uint32 (tar.FileMode (fst e)) |}.

(** ** Entries of the archive, as the loop reads them *)

(** The key under which the loop files an entry. *)
Definition entry_key (e : tar.Header * Z) : string :=
  headerNameEntry (tar.Name (fst e)).

(** Whether [h.FileInfo().IsDir()] holds of the entry's header. *)
Definition entry_IsDir (e : tar.Header * Z) : bool :=
  os.IsDir (tar.FileMode (fst e)).

(** The node the loop builds for an entry: the name of the header and the
    Stat Record filled from it, with the data offset as its inode. *)
Definition node_for (e : tar.Header * Z) : node :=
  {| name := tar.Name (fst e);
     stat := Some (with_Ino (fillStat (fst e)) (snd e)) |}.

(** The node of an entry as an object of the heap, with the children
    given. *)
Definition object_for (e : tar.Header * Z) (es : list FileInfo) : object :=
  if entry_IsDir e then obj_dirNode (node_for e) es else obj_node (node_for e).

Definition is_dirNode (o : object) : bool :=
  match o with
  | obj_dirNode _ _ => true
  | obj_node _ => false
  end.

(** The most recent of the entries read whose key is [k]. *)
Definition last_entry (done : list (tar.Header * Z)) (k : string)
  : option (tar.Header * Z) :=
  List.find (fun e => String.eqb (entry_key e) k) (rev done).

(** Some directory entry among those read has the key [k]. *)
Definition described_by (done : list (tar.Header * Z)) (k : string) : bool :=
  existsb (fun d => entry_IsDir d && String.eqb (entry_key d) k) done.

(** The entries read whose parent path is [k]. *)
Definition entries_under (done : list (tar.Header * Z)) (k : string)
  : list (tar.Header * Z) :=
  List.filter (fun e => String.eqb (filepath.Dir (entry_key e)) k) done.

(** The state of the loop against the entries [done] it has read, for any
    archive: the index points into the heap and no node is under two keys;
    the index holds the root, the key of every entry read and the parent of
    each, and nothing else; the node under a key is that of the most recent
    entry with that key, a directory node exactly when that entry is a
    directory; a key no entry has is under a directory node, the root's or a
    placeholder noted as missing; the missing paths are the parents of
    entries read that no directory entry read describes; and a directory
    node holds one child for every entry read beneath its path. *)
Record traced (st : ingest) (done : list (tar.Header * Z)) : Prop := {
  traced_bound : forall k fi, Get (idx st) k = Some fi ->
                   is_Some (objs st !! fi);
  traced_inj : forall k1 k2 fi, Get (idx st) k1 = Some fi ->
                 Get (idx st) k2 = Some fi -> k1 = k2;
  traced_root : is_Some (Get (idx st) "/");
  traced_has : forall e, In e done ->
                 is_Some (Get (idx st) (entry_key e))
                 /\ is_Some (Get (idx st) (filepath.Dir (entry_key e)));
  traced_dom : forall k, Get (idx st) k = None ->
                 forall e, In e done ->
                   entry_key e <> k /\ filepath.Dir (entry_key e) <> k;
  traced_last : forall k fi o e, Get (idx st) k = Some fi ->
                  objs st !! fi = Some o -> last_entry done k = Some e ->
                  node_of o = node_for e /\ is_dirNode o = entry_IsDir e;
  traced_unnamed : forall k fi o, Get (idx st) k = Some fi ->
                     objs st !! fi = Some o -> last_entry done k = None ->
                     is_dirNode o = true /\ (k = "/" \/ k ∈ missingDirs st);
  traced_missing : forall k, k ∈ missingDirs st <->
                     k <> "/"
                     /\ (exists e, In e done /\ filepath.Dir (entry_key e) = k)
                     /\ described_by done k = false;
  traced_count : forall k fi es, Get (idx st) k = Some fi ->
                   held (objs st) fi = Some es ->
                   length es = length (entries_under done k)
}.

(** A path that is the parent of an entry read, is not the root, and is the
    key of no directory entry read. *)
Definition undescribed (done : list (tar.Header * Z)) (k : string) : Prop :=
  k <> "/"
  /\ (exists e, In e done /\ filepath.Dir (entry_key e) = k)
  /\ described_by done k = false.

(** The most recent of the directory entries read whose key is [k]. *)
Definition last_dir (done : list (tar.Header * Z)) (k : string)
  : option (tar.Header * Z) :=
  List.find (fun d => entry_IsDir d && String.eqb (entry_key d) k) (rev done).

(** The entry whose header the child made for [e] shows once [done] is
    read. The loop writes the node of a directory entry into the directory
    node its key already has, so the child made for a directory entry shows
    the last directory entry read with its key; the node made for any other
    entry is never written again. *)
Definition shown (done : list (tar.Header * Z)) (e : tar.Header * Z)
  : tar.Header * Z :=
  if entry_IsDir e then
    match last_dir done (entry_key e) with
    | Some d => d
    | None => e
    end
  else e.

(** The location [c] is the child made for the entry [e]: it holds the node
    of the entry [e] shows, in a directory node exactly when [e] is a
    directory; and the directory node of a directory entry is still under
    its key, unless an entry that is no directory has taken the key since,
    after which the index has the directory node under no key at all. *)
Definition child_for (st : ingest) (done : list (tar.Header * Z))
  (c : FileInfo) (e : tar.Header * Z) : Prop :=
  exists o,
    objs st !! c = Some o
    /\ node_of o = node_for (shown done e)
    /\ is_dirNode o = entry_IsDir e
    /\ (entry_IsDir e = true ->
        Get (idx st) (entry_key e) = Some c
        \/ ((forall k', Get (idx st) k' <> Some c)
            /\ exists c' n, Get (idx st) (entry_key e) = Some c'
                            /\ objs st !! c' = Some (obj_node n))).

(** The children a directory node of the index holds are those made for the
    entries read beneath its path, one for each entry, in the order
    read. *)
Definition children_traced (st : ingest) (done : list (tar.Header * Z))
  : Prop :=
  forall k fi es, Get (idx st) k = Some fi -> held (objs st) fi = Some es ->
    Forall2 (child_for st done) es (entries_under done k).

(** What [OpenDir] answers for the directory [nm] of a served archive, as
    far as the child called [child] goes: the path is in the index, and the
    answer is an input/output error when the node there has not the mode of
    a directory, permission-denied when [checkPermissions] refuses the
    caller, and otherwise a listing in which [child] occurs. *)
Definition lists (s : server) (nm : string) (context : fuse.Context)
  (child : string) : Prop :=
  exists dir st,
    Get (db s) (fuseNameToKey nm) = Some dir
    /\ the_stat (mem s) dir = Ok st
    /\ if negb (os.IsDir (Mode st)) then
         OpenDir s nm context = Ok (None, fuse.EIO)
       else if negb (permitted st context) then
         OpenDir s nm context = Ok (None, fuse.EPERM)
       else
         exists des, OpenDir s nm context = Ok (Some des, fuse.OK)
                     /\ In child (map fuse.DirEntry_Name des).

(** The entries of a reader whose file answers every [Seek]. *)
Definition seekable (es : list (tar.Header * Z))
  : list (tar.Header * (Z + string)) :=
  map (fun e => (fst e, inl (snd e))) es.

(** The node the earlier revision builds for an entry. *)
Definition flat_node_for (e : tar.Header * Z) : node :=
  {| name := entry_key e;
     stat := Some (with_Ino (fillStat (fst e)) (snd e)) |}.

(** The state of the earlier loop against the entries read: the index is in
    order, its keys are canonical and are those of the entries, and each
    leads to the plain node of the last entry with that key. *)
Record flat (s : btreeStore) (h : Heap) (done : list (tar.Header * Z))
  : Prop := {
  flat_sorted : StronglySorted key_Less s;
  flat_canonical : Forall (fun x => canonical (key x)) s;
  flat_node : forall x, In x s ->
                exists e, last_entry done (key x) = Some e
                          /\ h !! info x = Some (obj_node (flat_node_for e));
  flat_has : forall e, In e done -> is_Some (Get s (entry_key e))
}.

(** * Archives, stores and servers to evaluate on *)

Definition plain_stat (m : Z) (uid gid : Z) (ino sz : Z) : StatT :=
  {| Mode := m; StatT_Owner := {| UID := uid; GID := gid |};
     Atime := 0; Mtime := 0; Ctime := 0; Ino := ino; Size := sz |}.

Definition example_stream : list Byte.byte :=
  (repeat "000"%byte 512
   ++ ["h"%byte; "e"%byte; "l"%byte; "l"%byte; "o"%byte]
   ++ repeat "000"%byte 507)%list.

(** One regular file, [secret], five bytes long, owned by 1000/1000 and
    readable by its owner only. *)
Definition secret_header : tar.Header :=
  {| tar.Name := "secret"; tar.FileMode := 256; tar.Size := 5;
     tar.ModTime := 0; tar.AccessTime := 0; tar.ChangeTime := 0;
     tar.Uid := 1000; tar.Gid := 1000 |}.

Definition served (r : result (server + error)) : server :=
  match r with
  | Ok (inl s) => s
  | _ => Newserver NewBTreeStore [] []
  end.

Definition secret_server : server :=
  served (FromReaderAt {| tar.entries := [(secret_header, 512)];
                          tar.stops := tar.EOF |}
                       example_stream NewBTreeStore [] 0 0).

Definition caller (uid gid : Z) : fuse.Context :=
  {| fuse.Uid := uid; fuse.Gid := gid; fuse.Pid := 1 |}.

Definition secret_file : file :=
  {| file_name := "secret";
     ReaderAt := io.NewSectionReader example_stream 512 5 |}.

Definition hello_header : tar.Header :=
  {| tar.Name := "foo/quux/hello"; tar.FileMode := 420; tar.Size := 5;
     tar.ModTime := 0; tar.AccessTime := 0; tar.ChangeTime := 0;
     tar.Uid := 0; tar.Gid := 0 |}.

Definition directory_header (nm : string) : tar.Header :=
  {| tar.Name := nm; tar.FileMode := Z.lor 493 os.ModeDir; tar.Size := 0;
     tar.ModTime := 0; tar.AccessTime := 0; tar.ChangeTime := 0;
     tar.Uid := 0; tar.Gid := 0 |}.

Definition file_header (nm : string) : tar.Header :=
  {| tar.Name := nm; tar.FileMode := 420; tar.Size := 1;
     tar.ModTime := 0; tar.AccessTime := 0; tar.ChangeTime := 0;
     tar.Uid := 0; tar.Gid := 0 |}.

(** The state a loop ends in, for examples where it does end. *)
Definition reached (r : result ingest) : ingest :=
  match r with
  | Ok st => st
  | Panic _ => {| idx := NewBTreeStore; objs := []; missingDirs := ∅ |}
  end.

Definition after_hello : ingest :=
  reached (ingest_loop [(hello_header, 512)] (ingest_start NewBTreeStore [] 0 0)).

(** A directory whose children appear in the archive in descending order of
    name. *)
Definition descending_archive : tar.Reader :=
  {| tar.entries := [(directory_header "foo/", 512);
                     (file_header "foo/b", 1024);
                     (file_header "foo/a", 2048)];
     tar.stops := tar.EOF |}.

Definition descending_server : server :=
  served (FromReaderAt descending_archive [] NewBTreeStore [] 0 0).

(** The store of the package's own test of [Entries]. *)
Definition test_store : btreeStore :=
  added [("/", 0%nat); ("/foo", 1%nat); ("/bar", 2%nat); ("/bar/baz", 3%nat);
         ("/bar/quux", 4%nat); ("/bar/quux/quack", 5%nat)].

Definition later_archive : tar.Reader :=
  {| tar.entries := [(hello_header, 512);
                     (directory_header "foo/quux/", 2048);
                     (directory_header "foo/", 2560)];
     tar.stops := tar.EOF |}.

Definition later_server : server :=
  served (FromReaderAt later_archive example_stream NewBTreeStore [] 0 0).

(** An archive that repeats an entry and has an entry for the root. *)
Definition repeating_archive : tar.Reader :=
  {| tar.entries := [(directory_header "./", 512);
                     (file_header "a", 1024);
                     (file_header "a", 2048)];
     tar.stops := tar.EOF |}.

Definition repeating_server : server :=
  served (FromReaderAt repeating_archive [] NewBTreeStore [] 0 0).

(** The archive of the current revision's test, as the earlier revision
    reads it. *)
Definition flat_archive : Earlier.Reader :=
  {| Earlier.entries :=
       seekable [(directory_header "foo/", 512);
                 (file_header "foo/b", 1024);
                 (file_header "foo/a", 2048)];
     Earlier.stops := tar.EOF |}.

Definition flat_server : server :=
  match Earlier.FromFile flat_archive [] NewBTreeStore [] with
  | inl s => s
  | inr _ => Newserver NewBTreeStore [] []
  end.

(** * Properties *)

(** ** The order of the index *)

Section OrderFacts.

Lemma lt_irrefl (a : string) : Strings.lt a a = false.
Proof.
  unfold Strings.lt, String.ltb.
  pose proof (String.compare_antisym a a) as H.
  destruct (String.compare a a); simpl in *; congruence.
Qed.

Lemma lt_total (a b : string) :
  Strings.lt a b = false -> Strings.lt b a = false -> a = b.
Proof.
  unfold Strings.lt, String.ltb. intros Hab Hba.
  apply String.compare_eq_iff.
  rewrite (String.compare_antisym b a) in Hba.
  destruct (String.compare a b); simpl in *; congruence.
Qed.

Lemma Less_irrefl (a : string) : Less a a = false.
Proof.
  unfold Less. rewrite Nat.ltb_irrefl, Nat.eqb_refl. apply lt_irrefl.
Qed.

Lemma same_eq (a b : string) : btree.same a b = true <-> a = b.
Proof.
  unfold btree.same. split.
  - intros H. apply andb_true_iff in H as [H1 H2].
    apply negb_true_iff in H1, H2. unfold Less in H1, H2.
    destruct (Nat.ltb_spec (Strings.Count a) (Strings.Count b)); [discriminate|].
    destruct (Nat.ltb_spec (Strings.Count b) (Strings.Count a)); [discriminate|].
    assert (Hc : Strings.Count a = Strings.Count b) by lia.
    rewrite Hc, Nat.eqb_refl in H1, H2.
    apply lt_total; assumption.
  - intros ->. rewrite Less_irrefl. reflexivity.
Qed.

Lemma same_refl (a : string) : btree.same a a = true.
Proof. apply same_eq. reflexivity. Qed.

Lemma same_neq (a b : string) : a <> b -> btree.same a b = false.
Proof.
  intros H. destruct (btree.same a b) eqn:E; [|reflexivity].
  apply same_eq in E. contradiction.
Qed.

End OrderFacts.

(** ** Point lookups after insertions *)

Section StoreFacts.

Lemma btree_Get_ReplaceOrInsert (t : btree.BTree) (item : stringKey) (k : string) :
  btree.Get k (btree.ReplaceOrInsert item t)
  = if String.eqb (key item) k then Some item else btree.Get k t.
Proof.
  unfold btree.Get.
  destruct (String.eqb_spec (key item) k) as [E|Hne].
  - subst k. induction t as [|x t IH]; simpl.
    + rewrite same_refl. reflexivity.
    + destruct (Less (key item) (key x)) eqn:E1; simpl.
      * rewrite same_refl. reflexivity.
      * destruct (Less (key x) (key item)) eqn:E2; simpl.
        -- unfold btree.same at 1. rewrite E1, E2. simpl. exact IH.
        -- rewrite same_refl. reflexivity.
  - assert (Hi : btree.same k (key item) = false) by (apply same_neq; congruence).
    induction t as [|x t IH]; simpl.
    + rewrite Hi. reflexivity.
    + destruct (Less (key item) (key x)) eqn:E1; simpl.
      * rewrite Hi. reflexivity.
      * destruct (Less (key x) (key item)) eqn:E2; simpl.
        -- rewrite IH. reflexivity.
        -- assert (Hx : key item = key x)
             by (apply same_eq; unfold btree.same; rewrite E1, E2; reflexivity).
           rewrite Hi. rewrite <- Hx, Hi. reflexivity.
Qed.

Lemma Get_Add (s : btreeStore) (k k' : string) (fi : FileInfo) :
  Get (Add s k fi) k' = if String.eqb k k' then Some fi else Get s k'.
Proof.
  unfold Get, Add. rewrite btree_Get_ReplaceOrInsert. simpl.
  destruct (String.eqb k k'); reflexivity.
Qed.

Lemma Get_Add_eq (s : btreeStore) (k : string) (fi : FileInfo) :
  Get (Add s k fi) k = Some fi.
Proof. rewrite Get_Add, String.eqb_refl. reflexivity. Qed.

Lemma Get_Add_ne (s : btreeStore) (k k' : string) (fi : FileInfo) :
  k <> k' -> Get (Add s k fi) k' = Get s k'.
Proof.
  intros H. rewrite Get_Add.
  destruct (String.eqb_spec k k'); [contradiction|reflexivity].
Qed.

Lemma Get_fold_Add (adds : list (string * FileInfo)) (s : btreeStore) (k : string) :
  ~ In k (map fst adds) ->
  Get (fold_left (fun s kv => Add s (fst kv) (snd kv)) adds s) k = Get s k.
Proof.
  revert s. induction adds as [|[k0 v0] adds IH]; intros s Hk; simpl in *.
  - reflexivity.
  - rewrite IH by tauto. apply Get_Add_ne. tauto.
Qed.

Lemma Get_btree_None (s : btreeStore) (k : string) :
  Get s k = None <-> btree.Get k s = None.
Proof.
  unfold Get. destruct (btree.Get k s); split; congruence.
Qed.

End StoreFacts.

(** ** What [Get] and [Entries] answer for a path the index does not hold *)

(** C8. [Get] on a key that no [Add] ever named returns the nil result; it
    has no way to fail. [Entries] panics when the key is absent from the
    index, and when the node stored there has a mode that is not a
    directory's. *)
Theorem Get_absent_nil_Entries_panics
  (adds : list (string * FileInfo)) (h : Heap) (k : string)
  (s : btreeStore) (k' : string) (sk : stringKey) (st : StatT) :
  ~ In k (map fst adds) ->
  btree.Get k' s = Some sk ->
  the_stat h (info sk) = Ok st ->
  os.IsDir (Mode st) = false ->
  Get (added adds) k = None
  /\ Entries (added adds) h k = Panic (panic_msg "non-existent key")
  /\ exists nm,
       Name h (info sk) = Ok nm
       /\ Entries s h k'
          = Panic (panic_msg ("cannot list entries for non-dir: " ++ nm)).
Proof.
  intros Hk Hsk Hst Hdir.
  assert (Hnone : Get (added adds) k = None).
  { unfold added. rewrite Get_fold_Add by assumption. reflexivity. }
  split; [exact Hnone|]. split.
  - unfold Entries. apply Get_btree_None in Hnone. rewrite Hnone. reflexivity.
  - unfold Entries. rewrite Hsk.
    unfold FileInfo_Mode. rewrite Hst. simpl. rewrite Hdir. simpl.
    unfold the_stat in Hst. unfold Name.
    destruct (the_node h (info sk)) as [n|p]; simpl in *; [|discriminate].
    exists (name n). split; reflexivity.
Qed.

(** The theorem on the store holding [/] and [/foo]: [/bar] was never added,
    and [/foo] leads to a regular file. *)
Lemma Get_absent_nil_Entries_panics_witness :
  Get (added [("/", 0%nat); ("/foo", 1%nat)]) "/bar" = None
  /\ Entries (added [("/", 0%nat); ("/foo", 1%nat)])
             [obj_node {| name := "foo"; stat := Some (plain_stat 420 0 0 0 0) |}]
             "/bar"
     = Panic (panic_msg "non-existent key")
  /\ exists nm,
       Name [obj_node {| name := "foo"; stat := Some (plain_stat 420 0 0 0 0) |}]
            0%nat = Ok nm
       /\ Entries (added [("/foo", 0%nat)])
                  [obj_node {| name := "foo"; stat := Some (plain_stat 420 0 0 0 0) |}]
                  "/foo"
          = Panic (panic_msg ("cannot list entries for non-dir: " ++ nm)).
Proof.
  apply (Get_absent_nil_Entries_panics
           [("/", 0%nat); ("/foo", 1%nat)]
           [obj_node {| name := "foo"; stat := Some (plain_stat 420 0 0 0 0) |}]
           "/bar"
           (added [("/foo", 0%nat)]) "/foo"
           {| key := "/foo"; info := 0%nat |}
           (plain_stat 420 0 0 0 0)).
  - simpl. intros [H|[H|[]]]; discriminate.
  - reflexivity.
  - reflexivity.
  - reflexivity.
Defined.

(** ** Permission evaluation *)

Section PermissionBits.

Lemma land_bit (x i : Z) :
  0 <= i -> (Z.land x (Z.shiftl 1 i) =? 0) = negb (Z.testbit x i).
Proof.
  intros Hi. rewrite Z.shiftl_1_l.
  destruct (Z.testbit x i) eqn:Hb; simpl.
  - apply Z.eqb_neq. intros H0.
    assert (Ht : Z.testbit (Z.land x (2 ^ i)) i = true).
    { rewrite Z.land_spec, Hb, Z.pow2_bits_true by assumption. reflexivity. }
    rewrite H0, Z.bits_0 in Ht. discriminate.
  - apply Z.eqb_eq. apply Z.bits_inj'. intros n Hn.
    rewrite Z.land_spec, Z.bits_0, Z.pow2_bits_eqb by assumption.
    destruct (Z.eqb_spec i n) as [->|Hne].
    + rewrite Hb. reflexivity.
    + apply andb_false_r.
Qed.

Lemma Perm_bit (m i : Z) :
  0 <= i < 9 -> Z.testbit (os.Perm m) i = Z.testbit m i.
Proof.
  intros Hi. unfold os.Perm, os.ModePerm. rewrite Z.land_spec.
  assert (H : Z.testbit 511 i = true).
  { assert (Hc : i = 0 \/ i = 1 \/ i = 2 \/ i = 3 \/ i = 4 \/ i = 5
                 \/ i = 6 \/ i = 7 \/ i = 8) by lia.
    destruct Hc as [->|[->|[->|[->|[->|[->|[->|[->| ->]]]]]]]]; reflexivity. }
  rewrite H. apply andb_true_r.
Qed.

Lemma perm_test (m i : Z) :
  0 <= i < 9 ->
  negb (Z.land (os.Perm m) (Z.shiftl 1 i) =? 0) = Z.testbit m i.
Proof.
  intros Hi. rewrite land_bit by lia. rewrite negb_involutive.
  apply Perm_bit. assumption.
Qed.

End PermissionBits.

(** C4. For every caller and every node, the evaluation allows when the
    read bit of "other" is set; otherwise, when the caller's gid is the
    node's, it answers the group's read bit; otherwise, when the caller's uid
    is the node's, it answers the owner's read bit; otherwise it denies. A
    node without a Stat Record makes the call panic. *)
Theorem checkPermissions_other_group_owner
  (h : Heap) (fi : FileInfo) (context : fuse.Context) :
  checkPermissions h fi context
  = let! st := the_stat h fi in Ok (permitted st context).
Proof.
  unfold checkPermissions, FileInfo_Owner, FileInfo_Mode, permitted.
  destruct (the_stat h fi) as [st|p]; cbn [bind]; [|reflexivity].
  rewrite !perm_test by lia.
  destruct (Z.testbit (Mode st) 2); [reflexivity|].
  destruct (GID (StatT_Owner st) =? fuse.Gid context); [reflexivity|].
  destruct (UID (StatT_Owner st) =? fuse.Uid context); reflexivity.
Qed.

Lemma checkPermissions_stat (h : Heap) (fi : FileInfo) (st : StatT)
  (context : fuse.Context) :
  the_stat h fi = Ok st ->
  checkPermissions h fi context = Ok (permitted st context).
Proof.
  intros H. unfold checkPermissions, FileInfo_Owner, FileInfo_Mode, permitted.
  rewrite H. cbn [bind]. rewrite !perm_test by lia.
  destruct (Z.testbit (Mode st) 2); [reflexivity|].
  destruct (GID (StatT_Owner st) =? fuse.Gid context); [reflexivity|].
  destruct (UID (StatT_Owner st) =? fuse.Uid context); reflexivity.
Qed.

(** ** [Open] *)

Lemma Open_present (s : server) (nm : string) (flags : Z)
  (context : fuse.Context) (fi : FileInfo) (st : StatT) :
  Get (db s) (fuseNameToKey nm) = Some fi ->
  the_stat (mem s) fi = Ok st ->
  exists n,
    Name (mem s) fi = Ok n
    /\ Open s nm flags context
       = Ok (Some {| file_name := n;
                     ReaderAt := io.NewSectionReader (stream s) (Ino st) (Size st) |},
             fuse.OK).
Proof.
  intros Hget Hst. unfold Open. rewrite Hget.
  unfold Inode, FileInfo_Size, Name. rewrite Hst. simpl.
  unfold the_stat in Hst.
  destruct (the_node (mem s) fi) as [n|p]; simpl in *; [|discriminate].
  exists (name n). split; reflexivity.
Qed.

Lemma Open_status (s : server) (nm : string) (flags : Z)
  (context : fuse.Context) (r : option file * fuse.Status) :
  Open s nm flags context = Ok r ->
  (Get (db s) (fuseNameToKey nm) = None /\ r = (None, fuse.ENOENT))
  \/ (exists fi f, Get (db s) (fuseNameToKey nm) = Some fi
                   /\ r = (Some f, fuse.OK)).
Proof.
  unfold Open. destruct (Get (db s) (fuseNameToKey nm)) as [fi|].
  - intros H. right. exists fi.
    destruct (Inode (mem s) fi); simpl in H; [|discriminate].
    destruct (FileInfo_Size (mem s) fi); simpl in H; [|discriminate].
    destruct (Name (mem s) fi); simpl in H; [|discriminate].
    inversion H. eauto.
  - intros H. left. inversion H. auto.
Qed.

(** C9. [Open] evaluates no permission. A path the index holds is opened
    with success for every caller and every flags value, whatever the owner
    and the mode of its Stat Record; the answer does not depend on the caller
    or the flags; the status is not-found exactly when the index does not
    hold the path; and the status is never permission-denied. *)
Theorem Open_evaluates_no_permission
  (s : server) (nm : string) (flags : Z) (context : fuse.Context)
  (fi : FileInfo) (st : StatT) :
  Get (db s) (fuseNameToKey nm) = Some fi ->
  the_stat (mem s) fi = Ok st ->
  (exists f, Open s nm flags context = Ok (Some f, fuse.OK)
             /\ ReaderAt f = io.NewSectionReader (stream s) (Ino st) (Size st))
  /\ (forall flags' context',
        Open s nm flags' context' = Open s nm flags context)
  /\ (forall nm' flags' context',
        Get (db s) (fuseNameToKey nm') = None
        <-> exists f, Open s nm' flags' context' = Ok (f, fuse.ENOENT))
  /\ (forall nm' flags' context' r,
        Open s nm' flags' context' = Ok r -> snd r <> fuse.EPERM).
Proof.
  intros Hget Hst. split; [|split; [|split]].
  - destruct (Open_present s nm flags context fi st Hget Hst) as (n & _ & Ho).
    eexists. split; [exact Ho|reflexivity].
  - reflexivity.
  - intros nm' flags' context'. split.
    + intros H. exists None. unfold Open. rewrite H. reflexivity.
    + intros [f Ho]. apply Open_status in Ho as [[Hn _]|(x & y & _ & Hr)].
      * exact Hn.
      * discriminate.
  - intros nm' flags' context' r H Hr.
    apply Open_status in H as [[_ ->]|(x & y & _ & ->)];
      simpl in Hr; discriminate.
Qed.

(** The theorem on the served file [secret], readable by its owner only. *)
Lemma Open_evaluates_no_permission_witness :
  (exists f, Open secret_server "secret" 0 (caller 2000 2000)
             = Ok (Some f, fuse.OK)
             /\ ReaderAt f = io.NewSectionReader (stream secret_server) 512 5)
  /\ Open secret_server "secret" 2 (caller 0 0)
     = Open secret_server "secret" 0 (caller 2000 2000)
  /\ (Get (db secret_server) (fuseNameToKey "absent") = None
      <-> exists f, Open secret_server "absent" 0 (caller 1000 1000)
                    = Ok (f, fuse.ENOENT)).
Proof.
  destruct (Open_evaluates_no_permission
              secret_server "secret" 0 (caller 2000 2000) 1%nat
              (with_Ino (fillStat secret_header) 512)
              eq_refl eq_refl) as (H1 & H2 & H3 & _).
  split; [exact H1|]. split; [apply H2|apply H3].
Defined.

(** ** The owner-only scenario *)

(** C2, as stated, fails: the owner's own group is consulted before the
    owner, so the caller 1000/1000 is refused the attributes of the file it
    owns; and [Open] lets the caller 2000/2000 in. *)
Lemma owner_only_scenario_fails :
  GetAttr secret_server "secret" (caller 1000 1000) = Ok (None, fuse.EPERM)
  /\ exists f, Open secret_server "secret" 0 (caller 2000 2000)
               = Ok (Some f, fuse.OK).
Proof.
  split.
  - reflexivity.
  - eexists. reflexivity.
Qed.

Lemma GetAttr_denied (s : server) (nm : string) (context : fuse.Context)
  (fi : FileInfo) (st : StatT) :
  Get (db s) (fuseNameToKey nm) = Some fi ->
  the_stat (mem s) fi = Ok st ->
  permitted st context = false ->
  GetAttr s nm context = Ok (None, fuse.EPERM).
Proof.
  intros Hget Hst Hp. unfold GetAttr. rewrite Hget.
  rewrite (checkPermissions_stat _ _ _ _ Hst), Hp. reflexivity.
Qed.

Lemma GetAttr_allowed (s : server) (nm : string) (context : fuse.Context)
  (fi : FileInfo) (st : StatT) :
  Get (db s) (fuseNameToKey nm) = Some fi ->
  the_stat (mem s) fi = Ok st ->
  permitted st context = true ->
  exists attr,
    GetAttr s nm context = Ok (Some attr, fuse.OK)
    /\ fuse.Attr_Uid attr = UID (StatT_Owner st)
    /\ fuse.Attr_Gid attr = GID (StatT_Owner st)
    /\ fuse.Attr_Size attr = uint64 (Size st).
Proof.
  intros Hget Hst Hp. unfold GetAttr. rewrite Hget.
  rewrite (checkPermissions_stat _ _ _ _ Hst), Hp.
  unfold ModTime, FileInfo_Mode, FileInfo_Size, FileInfo_Owner.
  rewrite Hst. cbn [bind negb]. eexists. split; [reflexivity|].
  cbn. auto.
Qed.

(** C2, amended. For a file owned by 1000/1000 whose permission bits are
    0400: the attribute lookup refuses the caller 2000/2000; it refuses
    every caller whose gid is 1000, the owner included, because the group's
    bit is consulted before the owner's; it allows every caller with uid 1000
    and another gid; and [Open] succeeds for every caller. *)
Theorem owner_only_scenario
  (s : server) (nm : string) (flags : Z) (context : fuse.Context)
  (fi : FileInfo) (st : StatT) :
  Get (db s) (fuseNameToKey nm) = Some fi ->
  the_stat (mem s) fi = Ok st ->
  UID (StatT_Owner st) = 1000 ->
  GID (StatT_Owner st) = 1000 ->
  os.Perm (Mode st) = 256 ->
  (fuse.Uid context = 2000 -> fuse.Gid context = 2000 ->
   GetAttr s nm context = Ok (None, fuse.EPERM))
  /\ (fuse.Gid context = 1000 ->
      GetAttr s nm context = Ok (None, fuse.EPERM))
  /\ (fuse.Uid context = 1000 -> fuse.Gid context <> 1000 ->
      exists attr, GetAttr s nm context = Ok (Some attr, fuse.OK))
  /\ (exists f, Open s nm flags context = Ok (Some f, fuse.OK)).
Proof.
  intros Hget Hst Hu Hg Hperm.
  assert (Hbit : forall i, 0 <= i < 9 ->
                           Z.testbit (Mode st) i = Z.testbit 256 i).
  { intros i Hi. rewrite <- (Perm_bit (Mode st) i Hi), Hperm. reflexivity. }
  assert (H2 : Z.testbit (Mode st) 2 = false) by (rewrite Hbit by lia; reflexivity).
  assert (H5 : Z.testbit (Mode st) 5 = false) by (rewrite Hbit by lia; reflexivity).
  assert (H8 : Z.testbit (Mode st) 8 = true) by (rewrite Hbit by lia; reflexivity).
  split; [|split; [|split]].
  - intros Hcu Hcg. apply (GetAttr_denied s nm context fi st Hget Hst).
    unfold permitted. rewrite H2, Hu, Hg, Hcu, Hcg. reflexivity.
  - intros Hcg. apply (GetAttr_denied s nm context fi st Hget Hst).
    unfold permitted. rewrite H2, H5, Hg, Hcg. reflexivity.
  - intros Hcu Hcg.
    destruct (GetAttr_allowed s nm context fi st Hget Hst) as (a & Ha & _).
    + unfold permitted. rewrite H2, H8, Hu, Hg, Hcu.
      destruct (Z.eqb_spec 1000 (fuse.Gid context)); [congruence|reflexivity].
    + exists a. exact Ha.
  - destruct (Open_present s nm flags context fi st Hget Hst) as (n & _ & Ho).
    eexists. exact Ho.
Qed.

(** The scenario on the served file [secret]. *)
Lemma owner_only_scenario_witness :
  GetAttr secret_server "secret" (caller 2000 2000) = Ok (None, fuse.EPERM)
  /\ (exists attr, GetAttr secret_server "secret" (caller 1000 100)
                   = Ok (Some attr, fuse.OK))
  /\ (exists f, Open secret_server "secret" 0 (caller 2000 2000)
                = Ok (Some f, fuse.OK)).
Proof.
  split; [|split].
  - exact (proj1 (owner_only_scenario secret_server "secret" 0
                    (caller 2000 2000) 1%nat
                    (with_Ino (fillStat secret_header) 512)
                    eq_refl eq_refl eq_refl eq_refl eq_refl)
                 eq_refl eq_refl).
  - apply (proj1 (proj2 (proj2
             (owner_only_scenario secret_server "secret" 0
                (caller 1000 100) 1%nat
                (with_Ino (fillStat secret_header) 512)
                eq_refl eq_refl eq_refl eq_refl eq_refl))));
      [reflexivity|discriminate].
  - exact (proj2 (proj2 (proj2
             (owner_only_scenario secret_server "secret" 0
                (caller 2000 2000) 1%nat
                (with_Ino (fillStat secret_header) 512)
                eq_refl eq_refl eq_refl eq_refl eq_refl)))).
Defined.

(** ** Reading through a file handle *)

Section ReadFacts.

Lemma int64_small (z : Z) : - 2 ^ 63 <= z < 2 ^ 63 -> int64 z = z.
Proof.
  intros H. unfold int64. rewrite Z.mod_small; lia.
Qed.

Lemma ReadAt_length (src p : list Byte.byte) (off : Z) :
  length (snd (io.ReadAt src p off)) = length p.
Proof.
  unfold io.ReadAt.
  destruct (off <? 0); [reflexivity|].
  destruct (Z.of_nat (length src) <=? off); [reflexivity|].
  cbn [snd]. rewrite length_app, length_take, !length_drop. lia.
Qed.

Lemma SectionReader_ReadAt_length (s : io.SectionReader)
  (p : list Byte.byte) (off : Z) :
  length (snd (io.SectionReader_ReadAt s p off)) = length p.
Proof.
  unfold io.SectionReader_ReadAt.
  destruct ((off <? 0) || (io.Size s <=? off)); [reflexivity|].
  destruct (Z.ltb_spec (int64 (io.limit s - int64 (off + io.base s)))
                       (Z.of_nat (length p))) as [Hlt|Hge].
  - pose proof (ReadAt_length (io.r s)
                  (take (Z.to_nat (int64 (io.limit s - int64 (off + io.base s)))) p)
                  (int64 (off + io.base s))) as Hl.
    destruct (io.ReadAt _ _ _) as [[n e] q]. cbn [snd] in *.
    rewrite length_app, Hl, length_take, length_drop. lia.
  - apply ReadAt_length.
Qed.

(** A read that lies within the source fills the whole buffer. *)
Lemma ReadAt_within (src p : list Byte.byte) (off : Z) :
  0 <= off ->
  (0 < length p)%nat ->
  off + Z.of_nat (length p) <= Z.of_nat (length src) ->
  io.ReadAt src p off
  = (Z.of_nat (length p), None, take (length p) (drop (Z.to_nat off) src)).
Proof.
  intros H0 Hp Hle. unfold io.ReadAt.
  destruct (Z.ltb_spec off 0); [lia|].
  destruct (Z.leb_spec (Z.of_nat (length src)) off); [lia|].
  assert (Hmin : Nat.min (length p) (length (drop (Z.to_nat off) src))
                 = length p).
  { rewrite length_drop. lia. }
  rewrite Hmin, Nat.ltb_irrefl, drop_all, app_nil_r. reflexivity.
Qed.

End ReadFacts.

(** C6. A file whose content is the [N] bytes of the archive from its data
    offset on is opened on exactly that range; reading [N] bytes at offset 0
    gives those bytes, and a read at offset [N] gives the empty end-of-data
    result with success. *)
Theorem Open_Read_roundtrip
  (s : server) (nm : string) (flags : Z) (context : fuse.Context)
  (fi : FileInfo) (st : StatT) (p q : list Byte.byte) :
  Get (db s) (fuseNameToKey nm) = Some fi ->
  the_stat (mem s) fi = Ok st ->
  0 <= Ino st ->
  0 <= Size st ->
  Ino st + Size st <= Z.of_nat (length (stream s)) ->
  Z.of_nat (length (stream s)) <= maxint64 ->
  Z.of_nat (length p) = Size st ->
  exists f,
    Open s nm flags context = Ok (Some f, fuse.OK)
    /\ io.r (ReaderAt f) = stream s
    /\ io.base (ReaderAt f) = Ino st
    /\ io.limit (ReaderAt f) = Ino st + Size st
    /\ (exists rr,
          Read f p 0 = (Some rr, fuse.OK)
          /\ fuse.ReadResult_Bytes rr
             = take (Z.to_nat (Size st)) (drop (Z.to_nat (Ino st)) (stream s)))
    /\ Read f q (Size st) = (Some fuse.eofReadResult, fuse.OK).
Proof.
  intros Hget Hst Hino Hsz Hin Hmax Hp.
  destruct (Open_present s nm flags context fi st Hget Hst) as (n & _ & Ho).
  eexists. split; [exact Ho|].
  unfold maxint64 in Hmax.
  assert (Hlim : (if Ino st <=? int64 (maxint64 - Size st)
                  then int64 (Size st + Ino st) else maxint64)
                 = Ino st + Size st).
  { unfold maxint64. rewrite !int64_small by lia.
    destruct (Z.leb_spec (Ino st) (2 ^ 63 - 1 - Size st)); lia. }
  unfold Read, io.SectionReader_ReadAt, io.Size, io.NewSectionReader.
  cbn [ReaderAt io.r io.base io.limit]. rewrite Hlim.
  replace (Ino st + Size st - Ino st) with (Size st) by lia.
  rewrite (int64_small (Size st)) by lia.
  split; [reflexivity|]. split; [reflexivity|]. split; [reflexivity|]. split.
  - change (0 <? 0) with false. cbn [orb].
    destruct (Z.leb_spec (Size st) 0) as [Hz|Hpos].
    + assert (Size st = 0) as -> by lia. cbn.
      exists fuse.eofReadResult. split; reflexivity.
    + rewrite (int64_small (0 + Ino st)) by lia.
      replace (Ino st + Size st - (0 + Ino st)) with (Size st) by lia.
      rewrite (int64_small (Size st)) by lia.
      destruct (Z.ltb_spec (Size st) (Z.of_nat (length p))); [lia|].
      rewrite ReadAt_within by lia.
      eexists. split; [reflexivity|]. cbn [fuse.ReadResult_Bytes].
      replace (length p) with (Z.to_nat (Size st)) by lia.
      replace (0 + Ino st) with (Ino st) by lia. reflexivity.
  - destruct (Z.ltb_spec (Size st) 0); [lia|]. cbn [orb].
    rewrite Z.leb_refl. reflexivity.
Qed.

(** The round trip on the five bytes of [secret]. *)
Lemma Open_Read_roundtrip_witness :
  exists f,
    Open secret_server "secret" 0 (caller 1000 100) = Ok (Some f, fuse.OK)
    /\ io.r (ReaderAt f) = stream secret_server
    /\ io.base (ReaderAt f) = 512
    /\ io.limit (ReaderAt f) = 512 + 5
    /\ (exists rr,
          Read f (repeat "000"%byte 5) 0 = (Some rr, fuse.OK)
          /\ fuse.ReadResult_Bytes rr
             = ["h"%byte; "e"%byte; "l"%byte; "l"%byte; "o"%byte])
    /\ Read f (repeat "000"%byte 8) 5 = (Some fuse.eofReadResult, fuse.OK).
Proof.
  apply (Open_Read_roundtrip secret_server "secret" 0 (caller 1000 100)
           1%nat (with_Ino (fillStat secret_header) 512)
           (repeat "000"%byte 5) (repeat "000"%byte 8));
    first [reflexivity | vm_compute; congruence].
Defined.

(** C10. When the positioned read behind a handle delivers [n] bytes,
    [0 < n < len(buffer)], together with end-of-data, [Read] reports success
    and its result is the whole buffer of the caller: its size is the
    buffer's length, which exceeds the [n] bytes read. *)
Theorem Read_short_spans_buffer
  (f : file) (p p' : list Byte.byte) (off n : Z) :
  io.SectionReader_ReadAt (ReaderAt f) p off = (n, Some io.EOF, p') ->
  0 < n ->
  n < Z.of_nat (length p) ->
  Read f p off = (Some (fuse.ReadResultData p'), fuse.OK)
  /\ fuse.ReadResult_Size (fuse.ReadResultData p') = length p
  /\ n < Z.of_nat (fuse.ReadResult_Size (fuse.ReadResultData p')).
Proof.
  intros Hr Hn Hlt.
  pose proof (SectionReader_ReadAt_length (ReaderAt f) p off) as Hlen.
  rewrite Hr in Hlen. cbn [snd] in Hlen.
  unfold Read. rewrite Hr.
  destruct (Z.leb_spec n 0); [lia|].
  cbn [fuse.ReadResult_Size]. rewrite Hlen. auto.
Qed.

(** Eight bytes asked for at offset 2 of a file of five: three are read,
    the result spans the eight. *)
Lemma Read_short_spans_buffer_witness :
  Read secret_file (repeat "255"%byte 8) 2
  = (Some (fuse.ReadResultData
             ["l"%byte; "l"%byte; "o"%byte;
              "255"%byte; "255"%byte; "255"%byte; "255"%byte; "255"%byte]),
     fuse.OK)
  /\ fuse.ReadResult_Size
       (fuse.ReadResultData
          ["l"%byte; "l"%byte; "o"%byte;
           "255"%byte; "255"%byte; "255"%byte; "255"%byte; "255"%byte])
     = length (repeat "255"%byte 8)
  /\ 3 < Z.of_nat
           (fuse.ReadResult_Size
              (fuse.ReadResultData
                 ["l"%byte; "l"%byte; "o"%byte;
                  "255"%byte; "255"%byte; "255"%byte; "255"%byte; "255"%byte])).
Proof.
  apply (Read_short_spans_buffer secret_file (repeat "255"%byte 8)
           ["l"%byte; "l"%byte; "o"%byte;
            "255"%byte; "255"%byte; "255"%byte; "255"%byte; "255"%byte]
           2 3).
  - reflexivity.
  - lia.
  - simpl. lia.
Defined.

(** ** Parents that the archive never describes *)

Section JoinFacts.

Lemma append_cons (c : ascii) (a b : string) :
  String c a ++ b = String c (a ++ b).
Proof. reflexivity. Qed.

Lemma append_nil_r (a : string) : a ++ "" = a.
Proof.
  induction a as [|c a IH]; [reflexivity|].
  rewrite append_cons, IH. reflexivity.
Qed.

Lemma append_assoc (a b c : string) : (a ++ b) ++ c = a ++ (b ++ c).
Proof.
  induction a as [|x a IH]; [reflexivity|].
  rewrite !append_cons, IH. reflexivity.
Qed.

Lemma Join_cons (e e' : string) (rest : list string) (sep : string) :
  Strings.Join (e :: e' :: rest) sep = e ++ sep ++ Strings.Join (e' :: rest) sep.
Proof. reflexivity. Qed.

(** Every element joined is a part of the joined string. *)
Lemma Join_names (elems : list string) (sep p : string) :
  In p elems -> exists pre post, Strings.Join elems sep = pre ++ p ++ post.
Proof.
  induction elems as [|e rest IH]; intros Hin; [destruct Hin|].
  destruct rest as [|e' rest].
  - destruct Hin as [->|[]]. exists "", "".
    cbn [Strings.Join]. rewrite append_nil_r. reflexivity.
  - rewrite Join_cons. destruct Hin as [->|Hin].
    + exists "", (sep ++ Strings.Join (e' :: rest) sep). reflexivity.
    + destruct (IH Hin) as (pre & post & ->).
      exists (e ++ sep ++ pre), post. rewrite !append_assoc. reflexivity.
Qed.

End JoinFacts.

(** C5. When the archive is read to its end and some path has been used as
    a parent without an entry of its own, [FromReaderAt] returns an error and
    no server; the message is the fixed prefix followed by the outstanding
    paths joined by commas, so it names every one of them. *)
Theorem missing_directories_fail
  (tr : tar.Reader) (ra : list Byte.byte) (s : btreeStore) (h : Heap)
  (euid egid : Z) (st : ingest) :
  tar.stops tr = tar.EOF ->
  ingest_loop (tar.entries tr) (ingest_start s h euid egid) = Ok st ->
  missingDirs st <> ∅ ->
  exists msg listed,
    FromReaderAt tr ra s h euid egid = Ok (inr msg)
    /\ msg = "missing directory entries: " ++ Strings.Join listed ","
    /\ (forall p, In p listed <-> p ∈ missingDirs st)
    /\ (forall p, p ∈ missingDirs st -> exists pre post, msg = pre ++ p ++ post).
Proof.
  intros Hstop Hloop Hne.
  exists ("missing directory entries: "
          ++ Strings.Join (elements (missingDirs st)) ","),
         (elements (missingDirs st)).
  assert (Hel : forall p, In p (elements (missingDirs st)) <-> p ∈ missingDirs st).
  { intros p. rewrite <- list_elem_of_In. apply elem_of_elements. }
  split; [|split; [reflexivity|split; [exact Hel|]]].
  - unfold FromReaderAt. rewrite Hloop, Hstop. cbn [bind].
    assert (Hsz : size (missingDirs st) <> 0%nat).
    { apply size_non_empty_iff. intros He. apply Hne. apply leibniz_equiv, He. }
    destruct (Nat.eqb_spec (size (missingDirs st)) 0); [contradiction|].
    reflexivity.
  - intros p Hp. apply Hel in Hp.
    destruct (Join_names _ "," p Hp) as (pre & post & ->).
    exists ("missing directory entries: " ++ pre), post.
    rewrite !append_assoc. reflexivity.
Qed.

(** The archive whose only entry is [foo/quux/hello]. *)
Lemma missing_directories_fail_witness :
  exists msg,
    FromReaderAt {| tar.entries := [(hello_header, 512)]; tar.stops := tar.EOF |}
                 example_stream NewBTreeStore [] 0 0
    = Ok (inr msg)
    /\ exists pre post, msg = pre ++ "/foo/quux" ++ post.
Proof.
  destruct (missing_directories_fail
              {| tar.entries := [(hello_header, 512)]; tar.stops := tar.EOF |}
              example_stream NewBTreeStore [] 0 0 after_hello)
    as (msg & listed & Hr & _ & _ & Hn).
  - reflexivity.
  - vm_compute. reflexivity.
  - intros He.
    assert (Hs : size (missingDirs after_hello) = 0%nat)
      by (rewrite He; apply size_empty).
    vm_compute in Hs. discriminate Hs.
  - exists msg. split; [exact Hr|]. apply Hn.
    apply elem_of_elements. vm_compute. left.
Defined.

(** ** A directory entry for a path the index already holds *)

Section MissingFacts.

Lemma not_missing_after_delete (m : gset string) (k : string) : k ∉ m ∖ {[k]}.
Proof.
  intros H. apply elem_of_difference in H as [_ H].
  apply H. apply elem_of_singleton. reflexivity.
Qed.

Lemma not_missing_after_parent (m : gset string) (k pk : string) :
  pk <> k -> k ∉ (m ∖ {[k]}) ∪ {[pk]}.
Proof.
  intros Hne H. apply elem_of_union in H as [H|H].
  - exact (not_missing_after_delete m k H).
  - apply elem_of_singleton in H. congruence.
Qed.

End MissingFacts.

(** C7. When the entry is a directory and the index already holds a
    directory node at its path (a placeholder made for a parent, or the
    root), the entry is merged into that node: the index keeps the same node
    at the path, its name and Stat Record become those built from the entry,
    the children it had stay, in order, and the path is no longer pending.
    The node gains one child only when it is its own parent, which is the
    case of the root path: an entry for the root keeps every child the root
    had and appends the root itself. *)
Theorem directory_entry_merges
  (st : ingest) (hdr : tar.Header) (pos : Z)
  (p : FileInfo) (nd0 : node) (es : list FileInfo) :
  let k := headerNameEntry (tar.Name hdr) in
  let nd := {| name := tar.Name hdr;
               stat := Some (with_Ino (fillStat hdr) pos) |} in
  os.IsDir (tar.FileMode hdr) = true ->
  Get (idx st) k = Some p ->
  objs st !! p = Some (obj_dirNode nd0 es) ->
  (forall q, Get (idx st) (filepath.Dir k) = Some q ->
             exists n c, objs st !! q = Some (obj_dirNode n c)) ->
  exists st',
    ingest_entry st hdr pos = Ok st'
    /\ Get (idx st') k = Some p
    /\ objs st' !! p
       = Some (obj_dirNode nd
                 (if decide (Get (idx st) (filepath.Dir k) = Some p)
                  then (es ++ [p])%list else es))
    /\ (k ∉ missingDirs st')
    /\ (k = "/" -> objs st' !! p = Some (obj_dirNode nd (es ++ [p])%list)).
Proof.
  intros k nd Hdir Hget Hobj Hpar.
  assert (Hlt : (p < length (objs st))%nat) by (eapply lookup_lt_Some; eauto).
  assert (Hroot : k = "/" -> Get (idx st) (filepath.Dir k) = Some p).
  { intros E. rewrite E in *. exact Hget. }
  unfold ingest_entry, entry_node. fold k. fold nd.
  rewrite Hdir, Hget, Hobj. cbn [bind].
  set (h1 := <[p := obj_dirNode nd es]> (objs st)).
  assert (Hh1 : h1 !! p = Some (obj_dirNode nd es))
    by (apply list_lookup_insert_eq; exact Hlt).
  unfold parent_node. rewrite Get_Add.
  destruct (String.eqb_spec k (filepath.Dir k)) as [Eself|Hne].
  - (* the node is its own parent *)
    rewrite Hh1. cbn [bind]. unfold append_entry. rewrite Hh1.
    eexists. split; [reflexivity|]. cbn [idx objs missingDirs].
    rewrite <- Eself. rewrite Get_Add_eq.
    rewrite decide_True by exact Hget.
    assert (Hp : <[p := obj_dirNode nd (es ++ [p])%list]> h1 !! p
                 = Some (obj_dirNode nd (es ++ [p])%list)).
    { apply list_lookup_insert_eq. unfold h1. rewrite length_insert. exact Hlt. }
    repeat split; auto. apply not_missing_after_delete.
  - destruct (Get (idx st) (filepath.Dir k)) as [q|] eqn:Hq.
    + (* the parent is in the index *)
      destruct (Hpar q eq_refl) as (n & c & Hqo).
      destruct (decide (q = p)) as [->|Hqp].
      * rewrite Hh1. cbn [bind]. unfold append_entry. rewrite Hh1.
        eexists. split; [reflexivity|]. cbn [idx objs missingDirs].
        rewrite Get_Add_ne, Get_Add_eq by congruence.
        rewrite decide_True by reflexivity.
        assert (Hp : <[p := obj_dirNode nd (es ++ [p])%list]> h1 !! p
                     = Some (obj_dirNode nd (es ++ [p])%list)).
        { apply list_lookup_insert_eq. unfold h1. rewrite length_insert.
          exact Hlt. }
        repeat split; auto. apply not_missing_after_delete.
      * assert (Hh1q : h1 !! q = Some (obj_dirNode n c)).
        { unfold h1. rewrite list_lookup_insert_ne by congruence. exact Hqo. }
        rewrite Hh1q. cbn [bind]. unfold append_entry. rewrite Hh1q.
        eexists. split; [reflexivity|]. cbn [idx objs missingDirs].
        rewrite Get_Add_ne, Get_Add_eq by congruence.
        rewrite decide_False by congruence.
        rewrite list_lookup_insert_ne by congruence.
        repeat split; auto; [apply not_missing_after_delete|].
        intros E. specialize (Hroot E). congruence.
    + (* the parent is made as a placeholder *)
      unfold alloc. cbn [bind]. unfold append_entry.
      assert (Hlen : length h1 = length (objs st))
        by (unfold h1; apply length_insert).
      rewrite lookup_app_r by lia. rewrite Nat.sub_diag. cbn [lookup list_lookup].
      eexists. split; [reflexivity|]. cbn [idx objs missingDirs].
      rewrite Get_Add_ne, Get_Add_eq by congruence.
      rewrite decide_False by congruence.
      rewrite list_lookup_insert_ne by lia.
      rewrite lookup_app_l by lia.
      repeat split; auto; [apply not_missing_after_parent; congruence|].
      intros E. specialize (Hroot E). congruence.
Qed.

(** The header of [foo/quux] arriving after [foo/quux/hello]. *)
Lemma directory_entry_merges_witness :
  exists st',
    ingest_entry after_hello (directory_header "foo/quux/") 2048 = Ok st'
    /\ Get (idx st') "/foo/quux" = Some 2%nat
    /\ objs st' !! 2%nat
       = Some (obj_dirNode
                 {| name := "foo/quux/";
                    stat := Some (with_Ino (fillStat (directory_header "foo/quux/"))
                                           2048) |}
                 [1%nat])
    /\ "/foo/quux" ∉ missingDirs st'.
Proof.
  destruct (directory_entry_merges after_hello (directory_header "foo/quux/")
              2048 2%nat {| name := "quux"; stat := None |} [1%nat])
    as (st' & Hstep & Hget & Hobj & Hmiss & _).
  - reflexivity.
  - reflexivity.
  - reflexivity.
  - intros q Hq. vm_compute in Hq. discriminate Hq.
  - exists st'. split; [exact Hstep|]. split; [exact Hget|].
    split; [exact Hobj|exact Hmiss].
Defined.

(** ** Directory listings *)

Section ModeFacts.

Lemma IsDir_testbit (m : Z) : os.IsDir m = Z.testbit m 31.
Proof.
  unfold os.IsDir, os.ModeDir. rewrite land_bit by lia. apply negb_involutive.
Qed.

Lemma uint32_bit (m i : Z) :
  0 <= i < 32 -> Z.testbit (uint32 m) i = Z.testbit m i.
Proof.
  intros Hi. unfold uint32. apply Z.mod_pow2_bits_low. lia.
Qed.

Lemma IsDir_uint32 (m : Z) : os.IsDir (uint32 m) = os.IsDir m.
Proof. rewrite !IsDir_testbit. apply uint32_bit. lia. Qed.

Lemma header_permitted (hdr : tar.Header) (pos : Z) (context : fuse.Context) :
  Z.testbit (tar.FileMode hdr) 2 = true ->
  permitted (with_Ino (fillStat hdr) pos) context = true.
Proof.
  intros H. unfold permitted. cbn [with_Ino fillStat Mode].
  rewrite uint32_bit by lia. rewrite H. reflexivity.
Qed.

Lemma root_permitted (euid egid : Z) (context : fuse.Context) :
  permitted (rootStat euid egid) context = true.
Proof. reflexivity. Qed.

End ModeFacts.

Lemma dirNode_Entries_held (es : list FileInfo) : dirNode_Entries es = es.
Proof.
  unfold dirNode_Entries.
  enough (H : forall acc, fold_left (fun a e => (a ++ [e])%list) es acc
                          = (acc ++ es)%list) by apply H.
  induction es as [|e es IH]; intros acc; simpl.
  - rewrite app_nil_r. reflexivity.
  - rewrite IH, <- app_assoc. reflexivity.
Qed.

(** [OpenDir] on a directory node whose mode lets the caller in: the
    children the node holds, in the order it holds them. *)
Lemma OpenDir_dirNode (s : server) (nm : string) (context : fuse.Context)
  (dir : FileInfo) (nd : node) (st : StatT) (es : list FileInfo) :
  Get (db s) (fuseNameToKey nm) = Some dir ->
  mem s !! dir = Some (obj_dirNode nd es) ->
  stat nd = Some st ->
  os.IsDir (Mode st) = true ->
  permitted st context = true ->
  OpenDir s nm context
  = let! des := dir_entries (mem s) es in Ok (Some des, fuse.OK).
Proof.
  intros Hget Hobj Hst Hdir Hperm.
  assert (Hs : the_stat (mem s) dir = Ok st).
  { unfold the_stat, the_node. rewrite Hobj. cbn [bind]. rewrite Hst. reflexivity. }
  unfold OpenDir. rewrite Hget. unfold FileInfo_Mode at 1. rewrite Hs.
  cbn [bind]. rewrite Hdir. cbn [negb].
  rewrite (checkPermissions_stat _ _ _ _ Hs), Hperm. cbn [bind negb].
  unfold Entries. unfold Get in Hget.
  destruct (btree.Get (fuseNameToKey nm) (db s)) as [sk|]; [|discriminate].
  injection Hget as Hinfo. rewrite Hinfo.
  unfold FileInfo_Mode. rewrite Hs. cbn [bind]. rewrite Hdir. cbn [negb].
  rewrite Hobj, dirNode_Entries_held. reflexivity.
Qed.

(** Evaluation of the closed parts of a goal: keys, and lookups in an index
    whose keys are known. *)
Ltac run_closed :=
  repeat match goal with
  | |- context [headerNameEntry ?n] =>
      let v := eval vm_compute in (headerNameEntry n) in
      progress change (headerNameEntry n) with v
  | |- context [fuseNameToKey ?n] =>
      let v := eval vm_compute in (fuseNameToKey n) in
      progress change (fuseNameToKey n) with v
  | |- context [filepath.Dir ?n] =>
      let v := eval vm_compute in (filepath.Dir n) in
      progress change (filepath.Dir n) with v
  | |- context [filepath.Base ?n] =>
      let v := eval vm_compute in (filepath.Base n) in
      progress change (filepath.Base n) with v
  | |- context [Get ?d ?k] =>
      let v := eval vm_compute in (Get d k) in
      progress change (Get d k) with v
  | |- context [size ?d] =>
      let v := eval vm_compute in (size d) in
      progress change (size d) with v
  end.

(** One turn of the ingestion loop on a header whose name is known by [Hn]
    and whose kind is known by [Hd]. *)
Ltac ingest_step Hn Hd :=
  unfold ingest_entry at 1, entry_node; rewrite Hn, Hd;
  unfold alloc; cbn [bind idx objs missingDirs app length];
  run_closed;
  cbn [lookup list_lookup insert list_insert bind app length];
  unfold parent_node, alloc; run_closed;
  cbn [lookup list_lookup insert list_insert bind app length];
  unfold append_entry;
  cbn [lookup list_lookup insert list_insert bind app length
       idx objs missingDirs].

(** C3, as stated, fails: with no header for [foo/quux] the archive is
    refused. *)
Lemma implicit_parents_refused :
  FromReaderAt {| tar.entries := [(hello_header, 512)]; tar.stops := tar.EOF |}
               example_stream NewBTreeStore [] 0 0
  = Ok (inr "missing directory entries: /foo/quux").
Proof. vm_compute. reflexivity. Qed.

(** ** The order of a listing *)

(** C1 on this archive. The archive is ingested; [Entries] finds the
    directory node of [/foo] and returns the children it holds, [foo/b]
    before [foo/a], the order of the archive and not that of the names;
    the range scan over the same index returns [foo/a] before [foo/b]. *)
Theorem Entries_keeps_archive_order :
  FromReaderAt descending_archive [] NewBTreeStore [] 0 0
  = Ok (inl descending_server)
  /\ Entries (db descending_server) (mem descending_server) "/foo"
     = Ok [2%nat; 3%nat]
  /\ Name (mem descending_server) 2%nat = Ok "foo/b"
  /\ Name (mem descending_server) 3%nat = Ok "foo/a"
  /\ scan_entries (db descending_server) {| key := "/foo"; info := 1%nat |} "/foo"
     = [3%nat; 2%nat].
Proof.
  repeat split; vm_compute; reflexivity.
Qed.

(** ** The index is kept in order *)

Section Sortedness.

Lemma lt_leb (a b : string) :
  Strings.lt a b = true <-> String.leb a b = true /\ a <> b.
Proof.
  unfold Strings.lt, String.ltb, String.leb. split.
  - intros H. destruct (String.compare a b) eqn:E; try discriminate.
    split; [reflexivity|]. intros ->.
    pose proof (lt_irrefl b) as Hi. unfold Strings.lt, String.ltb in Hi.
    rewrite E in Hi. discriminate.
  - intros [H Hne]. destruct (String.compare a b) eqn:E; try discriminate.
    + apply String.compare_eq_iff in E. contradiction.
    + reflexivity.
Qed.

Lemma lt_trans (a b c : string) :
  Strings.lt a b = true -> Strings.lt b c = true -> Strings.lt a c = true.
Proof.
  intros Hab Hbc. apply lt_leb in Hab as [Hab Hne1]. apply lt_leb in Hbc as [Hbc Hne2].
  apply lt_leb. split.
  - apply Is_true_true. apply Is_true_true in Hab, Hbc.
    exact (transitivity (R := String.le) Hab Hbc).
  - intros ->. apply Hne1. apply String.leb_antisym; assumption.
Qed.

Lemma Less_trans (a b c : string) :
  Less a b = true -> Less b c = true -> Less a c = true.
Proof.
  unfold Less. intros Hab Hbc.
  destruct (Nat.ltb_spec (Strings.Count a) (Strings.Count b)) as [H1|H1];
    destruct (Nat.ltb_spec (Strings.Count b) (Strings.Count c)) as [H2|H2].
  - destruct (Nat.ltb_spec (Strings.Count a) (Strings.Count c)); [reflexivity|lia].
  - destruct (Nat.eqb_spec (Strings.Count b) (Strings.Count c)); [|discriminate].
    destruct (Nat.ltb_spec (Strings.Count a) (Strings.Count c)); [reflexivity|lia].
  - destruct (Nat.eqb_spec (Strings.Count a) (Strings.Count b)); [|discriminate].
    destruct (Nat.ltb_spec (Strings.Count a) (Strings.Count c)); [reflexivity|lia].
  - destruct (Nat.eqb_spec (Strings.Count a) (Strings.Count b)) as [E1|]; [|discriminate].
    destruct (Nat.eqb_spec (Strings.Count b) (Strings.Count c)) as [E2|]; [|discriminate].
    destruct (Nat.ltb_spec (Strings.Count a) (Strings.Count c)); [lia|].
    rewrite E1, E2, Nat.eqb_refl. eapply lt_trans; eassumption.
Qed.

Lemma Less_neq (a b : string) : Less a b = true -> a <> b.
Proof. intros H ->. rewrite Less_irrefl in H. discriminate. Qed.

Lemma Less_not_same (a b : string) : Less a b = true -> btree.same b a = false.
Proof.
  intros H. apply same_neq. intros ->. rewrite Less_irrefl in H. discriminate.
Qed.

Lemma ReplaceOrInsert_In (item x : stringKey) (t : btree.BTree) :
  In x (btree.ReplaceOrInsert item t) -> x = item \/ In x t.
Proof.
  induction t as [|y t IH]; simpl.
  - intros [->|[]]. auto.
  - destruct (Less (key item) (key y)).
    + simpl. intros [->|H]; auto.
    + destruct (Less (key y) (key item)); simpl.
      * intros [->|H]; auto. destruct (IH H); auto.
      * intros [->|H]; auto.
Qed.

Lemma ReplaceOrInsert_sorted (item : stringKey) (t : btree.BTree) :
  StronglySorted key_Less t ->
  StronglySorted key_Less (btree.ReplaceOrInsert item t).
Proof.
  induction 1 as [|y t Hs IH Hall]; simpl.
  - constructor; constructor.
  - destruct (Less (key item) (key y)) eqn:E1.
    + constructor; [constructor; assumption|].
      constructor; [exact E1|].
      eapply Forall_impl; [exact Hall|]. intros z Hz.
      unfold key_Less in *. eapply Less_trans; eassumption.
    + destruct (Less (key y) (key item)) eqn:E2.
      * constructor; [exact IH|].
        apply List.Forall_forall. intros z Hz.
        apply ReplaceOrInsert_In in Hz as [->|Hz]; [exact E2|].
        rewrite List.Forall_forall in Hall. apply Hall. exact Hz.
      * assert (Hk : key item = key y)
          by (apply same_eq; unfold btree.same; rewrite E1, E2; reflexivity).
        constructor; [exact Hs|].
        eapply Forall_impl; [exact Hall|]. intros z Hz.
        unfold key_Less in *. rewrite Hk. exact Hz.
Qed.

(** In an ordered index an item is found under its own key, so a key
    occurs once. *)
Lemma sorted_Get (t : btree.BTree) (x : stringKey) :
  StronglySorted key_Less t -> In x t -> btree.Get (key x) t = Some x.
Proof.
  unfold btree.Get. induction 1 as [|y t Hs IH Hall]; simpl; [intros []|].
  intros [->|Hx].
  - rewrite same_refl. reflexivity.
  - rewrite List.Forall_forall in Hall. specialize (Hall x Hx).
    rewrite (Less_not_same _ _ Hall). apply IH. exact Hx.
Qed.

Lemma Get_In (t : btree.BTree) (k : string) (x : stringKey) :
  btree.Get k t = Some x -> In x t /\ key x = k.
Proof.
  unfold btree.Get. intros H. apply find_some in H as [Hin Hs].
  split; [exact Hin|]. symmetry. apply same_eq. exact Hs.
Qed.

Lemma sorted_key_inj (t : btree.BTree) (x y : stringKey) :
  StronglySorted key_Less t -> In x t -> In y t -> key x = key y -> x = y.
Proof.
  intros Hs Hx Hy Hk.
  pose proof (sorted_Get t x Hs Hx) as Gx.
  pose proof (sorted_Get t y Hs Hy) as Gy.
  rewrite Hk in Gx. congruence.
Qed.

(** An item of the index after an insertion is the item inserted, or an
    older item under another key. *)
Lemma ReplaceOrInsert_In_sorted (item x : stringKey) (t : btree.BTree) :
  StronglySorted key_Less t ->
  In x (btree.ReplaceOrInsert item t) ->
  x = item \/ (In x t /\ key x <> key item).
Proof.
  intros Hs Hx.
  destruct (String.eqb_spec (key x) (key item)) as [E|Hne].
  - left. pose proof (ReplaceOrInsert_sorted item t Hs) as Hs'.
    pose proof (sorted_Get _ x Hs' Hx) as G.
    rewrite btree_Get_ReplaceOrInsert in G.
    rewrite E, String.eqb_refl in G. congruence.
  - right. split; [|exact Hne].
    apply ReplaceOrInsert_In in Hx as [->|Hx]; [contradiction|exact Hx].
Qed.

Lemma added_sorted (adds : list (string * FileInfo)) :
  StronglySorted key_Less (added adds).
Proof.
  unfold added.
  enough (H : forall s, StronglySorted key_Less s ->
            StronglySorted key_Less
              (fold_left (fun s kv => Add s (fst kv) (snd kv)) adds s))
    by (apply H; constructor).
  induction adds as [|[k v] adds IH]; intros s Hs; simpl; [exact Hs|].
  apply IH. apply ReplaceOrInsert_sorted. exact Hs.
Qed.

End Sortedness.

(** ** Canonical paths *)

Section PathFacts.

Lemma Count_app (a b : string) :
  Strings.Count (a ++ b) = (Strings.Count a + Strings.Count b)%nat.
Proof.
  induction a as [|c a IH]; [reflexivity|].
  rewrite append_cons. cbn [Strings.Count]. rewrite IH. lia.
Qed.

Lemma Split_nonempty (s : string) : Strings.Split s <> [].
Proof.
  destruct s as [|c s]; cbn [Strings.Split]; [discriminate|].
  destruct (Strings.is_sep c); [discriminate|].
  destruct (Strings.Split s); discriminate.
Qed.

Lemma Split_sep_free (s : string) :
  Forall (fun e => Strings.Count e = 0%nat) (Strings.Split s).
Proof.
  induction s as [|c s IH]; cbn [Strings.Split].
  - constructor; [reflexivity|constructor].
  - destruct (Strings.is_sep c) eqn:Ec.
    + constructor; [reflexivity|exact IH].
    + destruct (Strings.Split s) as [|x xs].
      * constructor; [|constructor]. cbn [Strings.Count]. rewrite Ec. reflexivity.
      * inversion IH as [|? ? Hx Hxs]; subst. constructor; [|exact Hxs].
        cbn [Strings.Count]. rewrite Ec, Hx. reflexivity.
Qed.

Lemma Split_single (e : string) :
  Strings.Count e = 0%nat -> Strings.Split e = [e].
Proof.
  induction e as [|c e IH]; [reflexivity|].
  cbn [Strings.Count Strings.Split].
  destruct (Strings.is_sep c); [discriminate|].
  cbn [Nat.add]. intros H. rewrite (IH H). reflexivity.
Qed.

Lemma Split_app_sep (s t : string) :
  Strings.Split (s ++ "/" ++ t) = (Strings.Split s ++ Strings.Split t)%list.
Proof.
  induction s as [|c s IH].
  - reflexivity.
  - rewrite append_cons. cbn [Strings.Split]. rewrite IH.
    destruct (Strings.is_sep c); [reflexivity|].
    pose proof (Split_nonempty s) as Hn.
    destruct (Strings.Split s) as [|x xs]; [contradiction|reflexivity].
Qed.

Lemma Split_Join (cs : list string) :
  cs <> [] ->
  Forall (fun e => Strings.Count e = 0%nat) cs ->
  Strings.Split (Strings.Join cs "/") = cs.
Proof.
  induction cs as [|e cs IH]; [contradiction|]. intros _ Hall.
  inversion Hall as [|? ? He Hcs]; subst.
  destruct cs as [|e' cs].
  - apply Split_single. exact He.
  - rewrite Join_cons, Split_app_sep, (Split_single e He).
    rewrite IH by (discriminate || exact Hcs). reflexivity.
Qed.

Lemma Count_Join (cs : list string) :
  Forall (fun e => Strings.Count e = 0%nat) cs ->
  Strings.Count (Strings.Join cs "/") = (length cs - 1)%nat.
Proof.
  induction cs as [|e cs IH]; [reflexivity|]. intros Hall.
  inversion Hall as [|? ? He Hcs]; subst.
  destruct cs as [|e' cs].
  - cbn [Strings.Join]. rewrite He. reflexivity.
  - rewrite Join_cons, !Count_app, He, (IH Hcs).
    cbn [Strings.Count length]. change (Strings.is_sep "/") with true.
    cbv iota. lia.
Qed.

Lemma proper_sep_free (cs : list string) :
  Forall proper cs -> Forall (fun e => Strings.Count e = 0%nat) cs.
Proof.
  intros H. eapply Forall_impl; [exact H|]. intros e (_ & _ & _ & Hc). exact Hc.
Qed.

(** The number of separators of a canonical path is its depth, the root
    counting like its children. *)
Lemma Count_path_of (cs : list string) :
  Forall proper cs ->
  Strings.Count (path_of cs) = Nat.max 1 (length cs).
Proof.
  intros H. unfold path_of. rewrite Count_app, Count_Join by (apply proper_sep_free, H).
  cbn [Strings.Count]. change (Strings.is_sep "/") with true. cbv iota.
  destruct cs; cbn [length]; lia.
Qed.

Lemma clean_elem_proper (kept : list string) (e : string) :
  proper e -> filepath.clean_elem true kept e = e :: kept.
Proof.
  intros (H1 & H2 & H3 & _). unfold filepath.clean_elem.
  destruct (String.eqb_spec e ""); [contradiction|].
  destruct (String.eqb_spec e "."); [contradiction|].
  destruct (String.eqb_spec e ".."); [contradiction|]. reflexivity.
Qed.

Lemma fold_clean_proper (l kept : list string) :
  Forall proper l ->
  fold_left (filepath.clean_elem true) l kept = (rev l ++ kept)%list.
Proof.
  revert kept. induction l as [|e l IH]; intros kept Hall; [reflexivity|].
  inversion Hall as [|? ? He Hl]; subst.
  cbn [fold_left]. rewrite (clean_elem_proper kept e He), (IH _ Hl).
  cbn [rev]. rewrite <- app_assoc. reflexivity.
Qed.

(** What a rooted path keeps of its elements is a list of proper ones. *)
Lemma fold_clean_keeps_proper (l kept : list string) :
  Forall (fun e => Strings.Count e = 0%nat) l ->
  Forall proper kept ->
  Forall proper (fold_left (filepath.clean_elem true) l kept).
Proof.
  revert kept. induction l as [|e l IH]; intros kept Hl Hk; [exact Hk|].
  inversion Hl as [|? ? He Hl']; subst. cbn [fold_left]. apply IH; [exact Hl'|].
  unfold filepath.clean_elem.
  destruct (String.eqb_spec e ""); [exact Hk|].
  destruct (String.eqb_spec e "."); [exact Hk|]. cbn [orb].
  destruct (String.eqb_spec e "..").
  - destruct kept as [|top rest]; [constructor|].
    inversion Hk as [|? ? Ht Hr]; subst.
    destruct (String.eqb top ".."); [exact Hk|exact Hr].
  - constructor; [|exact Hk]. repeat split; assumption.
Qed.

Lemma Clean_rooted (s : string) :
  filepath.Clean (String "/" s)
  = path_of (rev (fold_left (filepath.clean_elem true) (Strings.Split s) [])).
Proof. reflexivity. Qed.

(** Every key of the index made from a name is canonical. *)
Lemma fuseNameToKey_canonical (nm : string) : canonical (fuseNameToKey nm).
Proof.
  unfold fuseNameToKey. cbn [filepath.Join].
  change (String.eqb "/" "") with false. cbv iota.
  change (Strings.Join ["/"; nm] "/") with (String "/" (String "/" nm)).
  rewrite Clean_rooted. eexists. split; [|reflexivity].
  apply Forall_rev. apply fold_clean_keeps_proper; [apply Split_sep_free|constructor].
Qed.

Lemma headerNameEntry_canonical (nm : string) : canonical (headerNameEntry nm).
Proof. unfold headerNameEntry. apply fuseNameToKey_canonical. Qed.

End PathFacts.

Section ParentFacts.

Lemma split_last_sep_free (c : string) :
  Strings.Count c = 0%nat -> filepath.split_last c = ("", c).
Proof.
  induction c as [|x c IH]; [reflexivity|].
  cbn [Strings.Count filepath.split_last].
  destruct (Strings.is_sep x); [discriminate|]. cbn [Nat.add]. intros H.
  rewrite (IH H), H. reflexivity.
Qed.

Lemma split_last_app (d c : string) :
  Strings.Count c = 0%nat ->
  filepath.split_last (d ++ "/" ++ c) = (d ++ "/", c).
Proof.
  intros Hc. induction d as [|x d IH].
  - change ("" ++ "/" ++ c) with (String "/" c).
    cbn [filepath.split_last]. rewrite (split_last_sep_free c Hc), Hc.
    reflexivity.
  - change (String x d ++ "/" ++ c) with (String x (d ++ "/" ++ c)).
    change (String x d ++ "/") with (String x (d ++ "/")).
    cbn [filepath.split_last]. rewrite IH.
    assert (Hpos : (0 <? Strings.Count (d ++ "/" ++ c))%nat = true).
    { apply Nat.ltb_lt. rewrite !Count_app.
      change (Strings.Count "/") with 1%nat. lia. }
    rewrite Hpos. reflexivity.
Qed.

Lemma Join_snoc (cs : list string) (c : string) :
  cs <> [] ->
  Strings.Join (cs ++ [c]) "/" = Strings.Join cs "/" ++ "/" ++ c.
Proof.
  induction cs as [|e cs IH]; [contradiction|]. intros _.
  destruct cs as [|e' cs].
  - reflexivity.
  - change ((e :: e' :: cs) ++ [c])%list with (e :: e' :: (cs ++ [c]))%list.
    rewrite !Join_cons.
    change (e' :: (cs ++ [c]))%list with ((e' :: cs) ++ [c])%list.
    rewrite IH by discriminate. rewrite !append_assoc. reflexivity.
Qed.

Lemma path_of_snoc (cs : list string) (c : string) :
  path_of (cs ++ [c]) = dir_prefix cs ++ "/" ++ c.
Proof.
  destruct cs as [|e cs]; [reflexivity|].
  unfold dir_prefix, path_of. rewrite Join_snoc by discriminate.
  rewrite !append_assoc. reflexivity.
Qed.

Lemma Clean_dir_prefix (cs : list string) :
  Forall proper cs -> filepath.Clean (dir_prefix cs ++ "/") = path_of cs.
Proof.
  intros Hcs. destruct cs as [|e cs]; [reflexivity|].
  unfold dir_prefix, path_of. rewrite append_assoc.
  change ("/" ++ Strings.Join (e :: cs) "/" ++ "/")
    with (String "/" (Strings.Join (e :: cs) "/" ++ "/" ++ "")).
  rewrite Clean_rooted, Split_app_sep.
  rewrite Split_Join by (discriminate || apply proper_sep_free, Hcs).
  rewrite fold_left_app, (fold_clean_proper _ _ Hcs), app_nil_r.
  cbn [Strings.Split fold_left]. unfold filepath.clean_elem at 1.
  cbn [String.eqb orb]. rewrite rev_involutive. reflexivity.
Qed.

(** [filepath.Dir] of a canonical path drops its last element. *)
Lemma Dir_path_of_snoc (cs : list string) (c : string) :
  Forall proper cs -> proper c ->
  filepath.Dir (path_of (cs ++ [c])) = path_of cs.
Proof.
  intros Hcs (_ & _ & _ & Hc). unfold filepath.Dir.
  rewrite path_of_snoc, (split_last_app _ _ Hc). cbn [fst].
  apply Clean_dir_prefix. exact Hcs.
Qed.

Lemma Dir_canonical (k : string) : canonical k -> canonical (filepath.Dir k).
Proof.
  intros (cs & Hcs & ->). destruct cs as [|c cs _] using rev_ind.
  - exists []. split; [constructor|reflexivity].
  - apply Forall_app in Hcs as [Hcs Hc]. inversion Hc; subst.
    rewrite Dir_path_of_snoc by assumption. exists cs. auto.
Qed.

(** A canonical path other than the root: its parent has one element less,
    and it sorts within the range the scan of its parent walks. *)
Lemma child_in_range (k' k : string) :
  canonical k' -> filepath.Dir k' = k -> k' <> k ->
  Less k' k = false /\ Less k' (k ++ "//") = true.
Proof.
  intros (cs & Hcs & ->) Hdir Hne.
  destruct cs as [|c cs _] using rev_ind.
  - exfalso. apply Hne. rewrite <- Hdir. reflexivity.
  - apply Forall_app in Hcs as [Hcs Hc]. inversion Hc as [|? ? Hp _]; subst.
    rewrite Dir_path_of_snoc in Hne |- * by assumption.
    assert (Hall : Forall proper (cs ++ [c])) by (apply Forall_app; auto).
    unfold Less. rewrite Count_app, !Count_path_of by assumption.
    rewrite length_app. cbn [length Strings.Count].
    change (Strings.is_sep "/") with true. cbv iota. split.
    + destruct (Nat.ltb_spec (Nat.max 1 (length cs + 1)) (Nat.max 1 (length cs)));
        [lia|].
      destruct (Nat.eqb_spec (Nat.max 1 (length cs + 1)) (Nat.max 1 (length cs)))
        as [E|]; [|reflexivity].
      assert (cs = []) as -> by (destruct cs; [reflexivity|cbn [length] in E; lia]).
      destruct Hp as (Hc0 & _). destruct c as [|x c]; [contradiction|].
      unfold Strings.lt, String.ltb, path_of.
      change ("/" ++ Strings.Join ([] ++ [String x c]) "/")
        with (String "/" (String x c)).
      change ("/" ++ Strings.Join [] "/") with (String "/" "").
      cbn [String.compare]. rewrite Ascii.compare_antisym.
      assert (Hr : Ascii.compare "/" "/" = Eq) by reflexivity.
      rewrite Hr. reflexivity.
    + destruct (Nat.ltb_spec (Nat.max 1 (length cs + 1))
                             (Nat.max 1 (length cs) + (1 + (1 + 0))));
        [reflexivity|lia].
Qed.

Lemma canonical_children_level (k1 k2 k : string) :
  canonical k1 -> canonical k2 ->
  filepath.Dir k1 = k -> filepath.Dir k2 = k -> k1 <> k -> k2 <> k ->
  Strings.Count k1 = Strings.Count k2.
Proof.
  intros (c1 & H1 & ->) (c2 & H2 & ->) D1 D2 N1 N2.
  destruct c1 as [|x1 c1 _] using rev_ind; [exfalso; apply N1; rewrite <- D1; reflexivity|].
  destruct c2 as [|x2 c2 _] using rev_ind; [exfalso; apply N2; rewrite <- D2; reflexivity|].
  pose proof H1 as H1'. pose proof H2 as H2'.
  apply Forall_app in H1 as [H1 Hx1]. apply List.Forall_inv in Hx1.
  apply Forall_app in H2 as [H2 Hx2]. apply List.Forall_inv in Hx2.
  rewrite Dir_path_of_snoc in D1 by assumption.
  rewrite Dir_path_of_snoc in D2 by assumption.
  assert (E : Strings.Count (path_of c1) = Strings.Count (path_of c2)) by congruence.
  rewrite !Count_path_of in * by assumption.
  rewrite !length_app. cbn [length].
  assert (Hroot : forall a b : list string,
            Forall proper a -> Forall proper b ->
            path_of a = path_of b -> a = [] -> b = []).
  { intros a b Ha Hb Hab ->. destruct b as [|y b]; [reflexivity|].
    exfalso. inversion Hb as [|? ? (Hy & _) _]; subst.
    destruct y; [contradiction|]. destruct b; discriminate Hab. }
  destruct c1 as [|y1 c1], c2 as [|y2 c2]; cbn [length] in *; try lia.
  - pose proof (Hroot [] (y2 :: c2) H1 H2 ltac:(congruence) eq_refl). discriminate.
  - pose proof (Hroot [] (y1 :: c1) H2 H1 ltac:(congruence) eq_refl). discriminate.
Qed.

End ParentFacts.

(** ** The range scan *)

Section ScanFacts.

Lemma scan_fold (k : string) (l : list stringKey) (acc : list FileInfo) :
  fold_left
    (fun entries esk =>
       if String.eqb (key esk) k then entries
       else if String.eqb (filepath.Dir (key esk)) k
            then (entries ++ [info esk])%list
            else entries)
    l acc
  = (acc ++ map info (List.filter (scan_accepts k) l))%list.
Proof.
  revert acc. induction l as [|x l IH]; intros acc; cbn [fold_left List.filter map].
  - rewrite app_nil_r. reflexivity.
  - rewrite IH. unfold scan_accepts at 2.
    destruct (String.eqb (key x) k); cbn [negb andb]; [reflexivity|].
    destruct (String.eqb (filepath.Dir (key x)) k); [|reflexivity].
    cbn [map]. rewrite <- app_assoc. reflexivity.
Qed.

Lemma scan_entries_filter (s : btreeStore) (sk : stringKey) (k : string) :
  scan_entries s sk k
  = map info (List.filter (scan_accepts k)
                (btree.AscendRange (key sk) (key sk ++ "//") s)).
Proof. unfold scan_entries. rewrite scan_fold. reflexivity. Qed.

Lemma StronglySorted_filter {A : Type} (R : A -> A -> Prop) (P : A -> bool)
  (l : list A) :
  StronglySorted R l -> StronglySorted R (List.filter P l).
Proof.
  induction 1 as [|x l Hs IH Hall]; cbn [List.filter]; [constructor|].
  destruct (P x); [|exact IH]. constructor; [exact IH|].
  apply List.Forall_forall. intros y Hy. apply List.filter_In in Hy as [Hy _].
  rewrite List.Forall_forall in Hall. auto.
Qed.

Lemma StronglySorted_within {A : Type} (R R' : A -> A -> Prop) (l : list A) :
  (forall a b, In a l -> In b l -> R a b -> R' a b) ->
  StronglySorted R l -> StronglySorted R' l.
Proof.
  intros Himp Hs. induction Hs as [|x l Hs IH Hall]; [constructor|].
  constructor.
  - apply IH. intros a b Ha Hb. apply Himp; right; assumption.
  - apply List.Forall_forall. intros y Hy.
    rewrite List.Forall_forall in Hall.
    apply Himp; [left; reflexivity|right; exact Hy|auto].
Qed.

Lemma Less_same_level (a b : string) :
  Strings.Count a = Strings.Count b -> Less a b = Strings.lt a b.
Proof.
  intros E. unfold Less. rewrite E, Nat.ltb_irrefl, Nat.eqb_refl. reflexivity.
Qed.

(** Over canonical keys the scan accepts the items under the key, the item
    of the key itself apart: its range misses none of them. *)
Lemma scan_accepted (s : btreeStore) (k : string) :
  Forall (fun x => canonical (key x)) s ->
  forall x,
    In x (List.filter (scan_accepts k) (btree.AscendRange k (k ++ "//") s))
    <-> In x s /\ key x <> k /\ filepath.Dir (key x) = k.
Proof.
  intros Hcan x. rewrite List.Forall_forall in Hcan.
  unfold btree.AscendRange, scan_accepts.
  rewrite !List.filter_In, !andb_true_iff, !negb_true_iff.
  rewrite String.eqb_neq, String.eqb_eq. split.
  - intros [[Hx _] [Hne Hd]]. auto.
  - intros (Hx & Hne & Hd).
    destruct (child_in_range (key x) k (Hcan x Hx) Hd Hne) as [H1 H2].
    auto.
Qed.

End ScanFacts.

(** X1. The fallback of [Entries]. Over an index in order whose keys are
    canonical paths, the scan from the key of a directory to that key followed
    by [//] returns the entries whose parent path is that key, the key itself
    apart: all of them, nothing else, in ascending order of path. *)
Theorem range_scan_lists_children
  (s : btreeStore) (k : string) (sk : stringKey) :
  StronglySorted key_Less s ->
  Forall (fun x => canonical (key x)) s ->
  btree.Get k s = Some sk ->
  exists items,
    scan_entries s sk k = map info items
    /\ (forall x, In x items
                  <-> In x s /\ key x <> k /\ filepath.Dir (key x) = k)
    /\ StronglySorted (fun a b => Strings.lt (key a) (key b) = true) items.
Proof.
  intros Hs Hcan Hget. apply Get_In in Hget as [_ Hk].
  exists (List.filter (scan_accepts k) (btree.AscendRange k (k ++ "//") s)).
  pose proof (scan_accepted s k Hcan) as Hmem.
  rewrite List.Forall_forall in Hcan.
  split; [|split].
  - rewrite scan_entries_filter, Hk. reflexivity.
  - exact Hmem.
  - apply (StronglySorted_within key_Less).
    + intros a b Ha Hb Hab. apply Hmem in Ha as (Ha & Na & Da).
      apply Hmem in Hb as (Hb & Nb & Db). unfold key_Less in Hab.
      rewrite Less_same_level in Hab; [exact Hab|].
      eapply canonical_children_level; eauto.
    + apply StronglySorted_filter. unfold btree.AscendRange.
      apply StronglySorted_filter. exact Hs.
Qed.

(** ** What ingestion maintains *)

Section Invariant.

Lemma grows_refl (h : Heap) : grows h h.
Proof. intros fi o H. exists o. auto. Qed.

Lemma grows_trans (h1 h2 h3 : Heap) : grows h1 h2 -> grows h2 h3 -> grows h1 h3.
Proof.
  intros H12 H23 fi o H.
  destruct (H12 fi o H) as (o2 & H2 & Hd2 & Hc2).
  destruct (H23 fi o2 H2) as (o3 & H3 & Hd3 & Hc3).
  exists o3. auto.
Qed.

Lemma grows_alloc (h : Heap) (o : object) : grows h (h ++ [o]).
Proof.
  intros fi o' H. exists o'. split; [|auto].
  rewrite lookup_app_l; [exact H|]. eapply lookup_lt_Some; eauto.
Qed.

Lemma grows_insert (h : Heap) (p : FileInfo) (o o' : object) :
  h !! p = Some o ->
  (described o -> described o') ->
  (forall c, c ∈ children o -> c ∈ children o') ->
  grows h (<[p := o']> h).
Proof.
  intros Hp Hd Hc fi x Hx. destruct (decide (p = fi)) as [->|Hne].
  - exists o'. rewrite list_lookup_insert_eq by (eapply lookup_lt_Some; eauto).
    assert (x = o) by congruence. subst x. auto.
  - exists x. rewrite list_lookup_insert_ne by exact Hne. auto.
Qed.

Lemma grows_append_entry (h : Heap) (parent nodeInfo : FileInfo) :
  grows h (append_entry h parent nodeInfo).
Proof.
  unfold append_entry. destruct (h !! parent) as [[n|n es]|] eqn:Hp;
    try apply grows_refl.
  eapply grows_insert; [exact Hp|auto|].
  cbn [children]. intros c Hc. apply elem_of_app. left. exact Hc.
Qed.

(** The children found after [append_entry] were there before, or are the
    node appended. *)
Lemma append_entry_children (h : Heap) (parent nodeInfo p : FileInfo)
  (o : object) (c : FileInfo) :
  append_entry h parent nodeInfo !! p = Some o ->
  c ∈ children o ->
  c = nodeInfo \/ exists o0, h !! p = Some o0 /\ c ∈ children o0.
Proof.
  unfold append_entry. destruct (h !! parent) as [[n|n es]|] eqn:Hp;
    try solve [intros H Hc; right; eauto].
  intros H Hc. destruct (decide (parent = p)) as [->|Hne].
  - rewrite list_lookup_insert_eq in H by (eapply lookup_lt_Some; eauto).
    injection H as <-. cbn [children] in Hc.
    apply elem_of_app in Hc as [Hc|Hc].
    + right. exists (obj_dirNode n es). auto.
    + left. apply list_elem_of_singleton in Hc. exact Hc.
  - rewrite list_lookup_insert_ne in H by exact Hne. right. eauto.
Qed.

(** What [entry_node] leaves: the heap has grown, the node of the entry is
    described, no object has new children, and only the key of the entry may
    have left the missing set. *)
Lemma entry_node_spec (st : ingest) (hdr : tar.Header) (pos : Z)
  (nodeInfo : FileInfo) (h1 : Heap) (m1 : gset string) :
  entry_node st hdr pos = Ok (nodeInfo, h1, m1) ->
  grows (objs st) h1
  /\ (exists o, h1 !! nodeInfo = Some o /\ described o)
  /\ (forall p o c, h1 !! p = Some o -> c ∈ children o ->
        exists o0, objs st !! p = Some o0 /\ c ∈ children o0)
  /\ (forall k, k ∈ missingDirs st -> k <> headerNameEntry (tar.Name hdr) ->
        k ∈ m1).
Proof.
  unfold entry_node.
  set (k := headerNameEntry (tar.Name hdr)).
  set (nd := {| name := tar.Name hdr;
                stat := Some (with_Ino (fillStat hdr) pos) |}).
  assert (Hnew : forall o, described o ->
            (forall c, ~ c ∈ children o) ->
            Ok (alloc o (objs st)).1 = Ok nodeInfo ->
            (alloc o (objs st)).2 = h1 ->
            grows (objs st) h1
            /\ (exists o, h1 !! nodeInfo = Some o /\ described o)
            /\ (forall p o c, h1 !! p = Some o -> c ∈ children o ->
                  exists o0, objs st !! p = Some o0 /\ c ∈ children o0)).
  { intros o Hd Hnc Hn Hh. unfold alloc in *. cbn [fst snd] in *.
    injection Hn as <-. subst h1. split; [apply grows_alloc|]. split.
    - exists o. split; [|exact Hd].
      rewrite lookup_app_r by lia. rewrite Nat.sub_diag. reflexivity.
    - intros p x c Hx Hc.
      destruct (decide (p < length (objs st))%nat) as [Hlt|Hge].
      + rewrite lookup_app_l in Hx by exact Hlt. exists x. auto.
      + exfalso. rewrite lookup_app_r in Hx by lia.
        destruct (p - length (objs st))%nat eqn:E; cbn in Hx.
        * injection Hx as <-. exact (Hnc c Hc).
        * discriminate Hx. }
  destruct (os.IsDir (tar.FileMode hdr)) eqn:Hdir.
  - destruct (Get (idx st) k) as [dirInfo|] eqn:Hget.
    + destruct (objs st !! dirInfo) as [[n|n es]|] eqn:Hobj; try discriminate.
      intros H. injection H as <- <- <-.
      assert (Hlt : (dirInfo < length (objs st))%nat)
        by (eapply lookup_lt_Some; eauto).
      split; [|split; [|split]].
      * eapply grows_insert; [exact Hobj| |auto].
        intros _. cbn. eexists; reflexivity.
      * exists (obj_dirNode nd es).
        rewrite list_lookup_insert_eq by exact Hlt. split; [reflexivity|].
        cbn. eexists; reflexivity.
      * intros p o c Hp Hc. destruct (decide (dirInfo = p)) as [->|Hne].
        -- rewrite list_lookup_insert_eq in Hp by exact Hlt.
           injection Hp as <-. exists (obj_dirNode n es). auto.
        -- rewrite list_lookup_insert_ne in Hp by exact Hne. eauto.
      * intros k' Hk' Hne. apply elem_of_difference. split; [exact Hk'|].
        rewrite elem_of_singleton. exact Hne.
    + destruct (alloc (obj_dirNode nd []) (objs st)) as [p h'] eqn:Ha.
      intros H. injection H as <- <- <-.
      destruct (Hnew (obj_dirNode nd [])) as (A & B & C).
      { cbn. eexists; reflexivity. }
      { cbn. intros c Hc. apply elem_of_nil in Hc. exact Hc. }
      { rewrite Ha. reflexivity. }
      { rewrite Ha. reflexivity. }
      split; [exact A|]. split; [exact B|]. split; [exact C|].
      auto.
  - destruct (alloc (obj_node nd) (objs st)) as [p h'] eqn:Ha.
    intros H. injection H as <- <- <-.
    destruct (Hnew (obj_node nd)) as (A & B & C).
    { cbn. eexists; reflexivity. }
    { cbn. intros c Hc. apply elem_of_nil in Hc. exact Hc. }
    { rewrite Ha. reflexivity. }
    { rewrite Ha. reflexivity. }
    split; [exact A|]. split; [exact B|]. split; [exact C|]. auto.
Qed.

Lemma parent_node_spec (s : btreeStore) (h : Heap) (m : gset string)
  (parentKey : string) (parent : FileInfo) (h2 : Heap) (m2 : gset string) :
  parent_node s h m parentKey = Ok (parent, h2, m2) ->
  grows h h2
  /\ (exists n es, h2 !! parent = Some (obj_dirNode n es))
  /\ (forall p o c, h2 !! p = Some o -> c ∈ children o ->
        exists o0, h !! p = Some o0 /\ c ∈ children o0)
  /\ (forall k, k ∈ m -> k ∈ m2)
  /\ ((Get s parentKey = Some parent /\ h2 = h) \/ parentKey ∈ m2).
Proof.
  unfold parent_node. destruct (Get s parentKey) as [q|] eqn:Hget.
  - destruct (h !! q) as [[n|n es]|] eqn:Hq; try discriminate.
    intros H. injection H as <- <- <-.
    split; [apply grows_refl|]. split; [eauto|]. split; [eauto|].
    split; [auto|]. left. auto.
  - unfold alloc. intros H. injection H as <- <- <-.
    split; [apply grows_alloc|]. split.
    { rewrite lookup_app_r by lia. rewrite Nat.sub_diag. cbn. eauto. }
    split.
    { intros p o c Hp Hc.
      destruct (decide (p < length h)%nat) as [Hlt|Hge].
      - rewrite lookup_app_l in Hp by exact Hlt. eauto.
      - exfalso. rewrite lookup_app_r in Hp by lia.
        destruct (p - length h)%nat; cbn in Hp; [|discriminate].
        injection Hp as <-. cbn in Hc. apply elem_of_nil in Hc. exact Hc. }
    split.
    { intros k Hk. apply elem_of_union. left. exact Hk. }
    right. apply elem_of_union. right. apply elem_of_singleton. reflexivity.
Qed.

Lemma grows_described (h h' : Heap) (fi : FileInfo) (o : object) :
  grows h h' -> h !! fi = Some o -> described o ->
  exists o', h' !! fi = Some o' /\ described o'.
Proof.
  intros Hg Hfi Hd. destruct (Hg fi o Hfi) as (o' & H' & Hd' & _). eauto.
Qed.

(** One turn of the loop keeps the state well formed. *)
Lemma ingest_entry_well_formed (st st' : ingest) (hdr : tar.Header) (pos : Z) :
  well_formed st -> ingest_entry st hdr pos = Ok st' -> well_formed st'.
Proof.
  intros (Hsort & Hcan & Hidx & Hch). unfold ingest_entry.
  destruct (entry_node st hdr pos) as [[[nodeInfo h1] m1]|] eqn:He;
    cbn [bind]; [|discriminate].
  set (k := headerNameEntry (tar.Name hdr)) in *.
  destruct (parent_node (Add (idx st) k nodeInfo) h1 m1 (filepath.Dir k))
    as [[[parent h2] m2]|] eqn:Hp; cbn [bind]; [|discriminate].
  intros H. injection H as <-.
  destruct (entry_node_spec _ _ _ _ _ _ He) as (G1 & (on & Hon & Hdn) & C1 & M1).
  destruct (parent_node_spec _ _ _ _ _ _ _ Hp)
    as (G2 & (pn & pes & Hpo) & C2 & M2 & Hpar).
  pose proof (grows_append_entry h2 parent nodeInfo) as G3.
  assert (G13 : grows h1 (append_entry h2 parent nodeInfo))
    by (eapply grows_trans; eassumption).
  assert (G03 : grows (objs st) (append_entry h2 parent nodeInfo))
    by (eapply grows_trans; eassumption).
  assert (Hs1 : StronglySorted key_Less (Add (idx st) k nodeInfo))
    by (apply ReplaceOrInsert_sorted; exact Hsort).
  assert (Hnode : exists o', append_entry h2 parent nodeInfo !! nodeInfo = Some o'
                             /\ described o')
    by exact (grows_described _ _ _ _ G13 Hon Hdn).
  assert (Hold : forall x, In x (idx st) -> key x <> k ->
            exists o, append_entry h2 parent nodeInfo !! info x = Some o
                      /\ (described o \/ key x ∈ m2)).
  { intros x Hx Hne. destruct (Hidx x Hx) as (o & Ho & Hd).
    destruct (G03 _ _ Ho) as (o' & Ho' & Hd' & _). exists o'.
    split; [exact Ho'|]. destruct Hd as [Hd|Hm]; [left; auto|].
    right. apply M2, M1; assumption. }
  split; [|split; [|split]]; cbn [idx objs missingDirs].
  - apply ReplaceOrInsert_sorted. exact Hs1.
  - apply List.Forall_forall. intros x Hx.
    rewrite List.Forall_forall in Hcan.
    apply ReplaceOrInsert_In in Hx as [->|Hx].
    { cbn [key]. apply Dir_canonical, headerNameEntry_canonical. }
    apply ReplaceOrInsert_In in Hx as [->|Hx].
    { cbn [key]. apply headerNameEntry_canonical. }
    auto.
  - intros x Hx.
    apply (ReplaceOrInsert_In_sorted _ _ _ Hs1) in Hx as [->|[Hx Hne]].
    + cbn [key info].
      destruct (G3 _ _ Hpo) as (o' & Ho' & _). exists o'.
      split; [exact Ho'|].
      destruct Hpar as [[Hget ->]|Hm]; [|right; exact Hm].
      rewrite Get_Add in Hget.
      destruct (String.eqb_spec k (filepath.Dir k)) as [E|Hne].
      * injection Hget as <-. destruct Hnode as (o2 & Ho2 & Hd2).
        left. congruence.
      * unfold Get in Hget.
        destruct (btree.Get (filepath.Dir k) (idx st)) as [x0|] eqn:Hx0;
          [|discriminate].
        injection Hget as Hinfo. apply Get_In in Hx0 as [Hin Hkey].
        destruct (Hold x0 Hin ltac:(congruence)) as (o2 & Ho2 & Hd2).
        rewrite Hinfo in Ho2. rewrite Hkey in Hd2.
        assert (o2 = o') by congruence. subst o2. exact Hd2.
    + apply (ReplaceOrInsert_In_sorted _ _ _ Hsort) in Hx as [->|[Hx Hne']].
      * cbn [info]. destruct Hnode as (o' & Ho' & Hd'). eauto.
      * apply Hold; assumption.
  - intros p o c Ho Hc.
    destruct (append_entry_children _ _ _ _ _ _ Ho Hc) as [->|(o0 & Ho0 & Hc0)].
    + exact Hnode.
    + destruct (C2 _ _ _ Ho0 Hc0) as (o1 & Ho1 & Hc1).
      destruct (C1 _ _ _ Ho1 Hc1) as (o2 & Ho2 & Hc2).
      destruct (Hch _ _ _ Ho2 Hc2) as (oc & Hoc & Hdc).
      exact (grows_described _ _ _ _ G03 Hoc Hdc).
Qed.

Lemma ingest_loop_well_formed (es : list (tar.Header * Z)) (st st' : ingest) :
  well_formed st -> ingest_loop es st = Ok st' -> well_formed st'.
Proof.
  revert st. induction es as [|[hdr pos] es IH]; intros st Hwf; cbn [ingest_loop].
  - intros H. injection H as <-. exact Hwf.
  - destruct (ingest_entry st hdr pos) as [st1|] eqn:E; cbn [bind]; [|discriminate].
    apply IH. eapply ingest_entry_well_formed; eassumption.
Qed.

Lemma ingest_start_well_formed (euid egid : Z) :
  well_formed (ingest_start NewBTreeStore [] euid egid).
Proof.
  unfold ingest_start, alloc, well_formed. cbn [idx objs missingDirs].
  split; [|split; [|split]].
  - repeat constructor.
  - constructor; [|constructor]. exists []. split; [constructor|reflexivity].
  - intros x [<-|[]]. cbn. eexists. split; [reflexivity|]. left.
    cbn. eexists; reflexivity.
  - intros p o c Ho Hc. destruct p as [|p]; cbn in Ho; [|discriminate].
    injection Ho as <-. cbn in Hc. apply elem_of_nil in Hc. contradiction.
Qed.

End Invariant.

(** ** A served index *)

Section Served.

Lemma described_the_stat (h : Heap) (fi : FileInfo) (o : object) :
  h !! fi = Some o -> described o -> exists st, the_stat h fi = Ok st.
Proof.
  intros Ho [st Hst]. exists st. unfold the_stat, the_node. rewrite Ho.
  destruct o as [n|n es]; cbn in *; rewrite Hst; reflexivity.
Qed.

Lemma dir_entries_return (h : Heap) (es : list FileInfo) :
  (forall c, In c es -> exists st, the_stat h c = Ok st) ->
  exists r, dir_entries h es = Ok r /\ length r = length es.
Proof.
  induction es as [|e es IH]; intros Hall; cbn [dir_entries].
  - exists []. auto.
  - destruct (Hall e (or_introl eq_refl)) as (st & Hst).
    destruct IH as (r & Hr & Hlen); [intros c Hc; apply Hall; right; exact Hc|].
    unfold Name, FileInfo_Mode. rewrite Hst. unfold the_stat in Hst.
    destruct (the_node h e) as [n|]; cbn in Hst; [|discriminate].
    cbn [bind]. rewrite Hr. cbn [bind]. eexists. split; [reflexivity|].
    cbn [length]. rewrite Hlen. reflexivity.
Qed.

Lemma scan_entries_In (s : btreeStore) (sk : stringKey) (k : string)
  (fi : FileInfo) :
  In fi (scan_entries s sk k) -> exists x, In x s /\ info x = fi.
Proof.
  rewrite scan_entries_filter. intros H.
  apply List.in_map_iff in H as (x & Hx & Hin).
  apply List.filter_In in Hin as [Hin _]. unfold btree.AscendRange in Hin.
  apply List.filter_In in Hin as [Hin _]. eauto.
Qed.

(** What holds of the server a successful ingestion returns. *)
Lemma FromReaderAt_well_formed (tr : tar.Reader) (ra : list Byte.byte)
  (euid egid : Z) (s : server) :
  FromReaderAt tr ra NewBTreeStore [] euid egid = Ok (inl s) ->
  exists st, well_formed st /\ missingDirs st = ∅
             /\ db s = idx st /\ mem s = objs st /\ stream s = ra.
Proof.
  unfold FromReaderAt.
  destruct (ingest_loop (tar.entries tr) (ingest_start NewBTreeStore [] euid egid))
    as [st|] eqn:Hloop; cbn [bind]; [|discriminate].
  destruct (tar.stops tr); [|discriminate].
  destruct (Nat.eqb_spec (size (missingDirs st)) 0) as [Hz|]; [|discriminate].
  cbn [negb]. intros H. injection H as <-.
  exists st. split.
  - eapply ingest_loop_well_formed; [apply ingest_start_well_formed|exact Hloop].
  - split; [|auto]. apply leibniz_equiv. apply size_empty_inv. exact Hz.
Qed.

End Served.

(** X2. The index a successful ingestion leaves is in order, its keys are
    canonical paths, every path of it leads to a node with its Stat Record,
    and so does every child held by a directory node: no placeholder is left
    behind. *)
Theorem served_index_is_described
  (tr : tar.Reader) (ra : list Byte.byte) (euid egid : Z) (s : server) :
  FromReaderAt tr ra NewBTreeStore [] euid egid = Ok (inl s) ->
  StronglySorted key_Less (db s)
  /\ Forall (fun x => canonical (key x)) (db s)
  /\ (forall k fi, Get (db s) k = Some fi ->
        exists st, the_stat (mem s) fi = Ok st)
  /\ (forall p n es c, mem s !! p = Some (obj_dirNode n es) -> In c es ->
        exists st, the_stat (mem s) c = Ok st).
Proof.
  intros H.
  destruct (FromReaderAt_well_formed _ _ _ _ _ H)
    as (st & (Hsort & Hcan & Hidx & Hch) & Hm & -> & -> & _).
  split; [exact Hsort|]. split; [exact Hcan|]. split.
  - intros k fi Hget. unfold Get in Hget.
    destruct (btree.Get k (idx st)) as [x|] eqn:Hx; [|discriminate].
    injection Hget as <-. apply Get_In in Hx as [Hin _].
    destruct (Hidx x Hin) as (o & Ho & [Hd|Hmiss]).
    + eapply described_the_stat; eassumption.
    + rewrite Hm in Hmiss. apply not_elem_of_empty in Hmiss. contradiction.
  - intros p n es c Hp Hc.
    destruct (Hch p (obj_dirNode n es) c Hp) as (oc & Hoc & Hdc).
    + cbn [children]. apply list_elem_of_In. exact Hc.
    + eapply described_the_stat; eassumption.
Qed.

(** X3. On the server a successful ingestion returns, [Open], [GetAttr] and
    [OpenDir] return for every path and every caller: none of them
    panics. *)
Theorem served_operations_return
  (tr : tar.Reader) (ra : list Byte.byte) (euid egid : Z) (s : server)
  (nm : string) (flags : Z) (context : fuse.Context) :
  FromReaderAt tr ra NewBTreeStore [] euid egid = Ok (inl s) ->
  (exists r, Open s nm flags context = Ok r)
  /\ (exists r, GetAttr s nm context = Ok r)
  /\ (exists r, OpenDir s nm context = Ok r).
Proof.
  intros H.
  destruct (FromReaderAt_well_formed _ _ _ _ _ H)
    as (st & (Hsort & Hcan & Hidx & Hch) & Hm & Hdb & Hmem & _).
  assert (Hitem : forall x, In x (db s) -> exists st0, the_stat (mem s) (info x) = Ok st0).
  { intros x Hx. rewrite Hdb in Hx. destruct (Hidx x Hx) as (o & Ho & [Hd|Hmiss]).
    - rewrite Hmem. eapply described_the_stat; eassumption.
    - rewrite Hm in Hmiss. apply not_elem_of_empty in Hmiss. contradiction. }
  assert (Hstat : forall k fi, Get (db s) k = Some fi ->
                    exists st0, the_stat (mem s) fi = Ok st0).
  { intros k fi Hget. unfold Get in Hget.
    destruct (btree.Get k (db s)) as [x|] eqn:Hx; [|discriminate].
    injection Hget as <-. apply Get_In in Hx as [Hin _]. auto. }
  assert (Hchild : forall p n es c, mem s !! p = Some (obj_dirNode n es) ->
                     In c es -> exists st0, the_stat (mem s) c = Ok st0).
  { intros p n es c Hp Hc. rewrite Hmem in Hp |- *.
    destruct (Hch p (obj_dirNode n es) c Hp) as (oc & Hoc & Hdc).
    - cbn [children]. apply list_elem_of_In. exact Hc.
    - eapply described_the_stat; eassumption. }
  split; [|split].
  - destruct (Get (db s) (fuseNameToKey nm)) as [fi|] eqn:Hget.
    + destruct (Hstat _ _ Hget) as (st0 & Hst).
      destruct (Open_present s nm flags context fi st0 Hget Hst) as (n & _ & Ho).
      eauto.
    + unfold Open. rewrite Hget. eauto.
  - destruct (Get (db s) (fuseNameToKey nm)) as [fi|] eqn:Hget.
    + destruct (Hstat _ _ Hget) as (st0 & Hst).
      destruct (permitted st0 context) eqn:Hp.
      * destruct (GetAttr_allowed s nm context fi st0 Hget Hst Hp) as (a & Ha & _).
        eauto.
      * rewrite (GetAttr_denied s nm context fi st0 Hget Hst Hp). eauto.
    + unfold GetAttr. rewrite Hget. eauto.
  - unfold OpenDir.
    destruct (Get (db s) (fuseNameToKey nm)) as [dir|] eqn:Hget; [|eauto].
    destruct (Hstat _ _ Hget) as (st0 & Hst).
    unfold FileInfo_Mode at 1. rewrite Hst. cbn [bind].
    destruct (os.IsDir (Mode st0)) eqn:Hdir; cbn [negb]; [|eauto].
    rewrite (checkPermissions_stat _ _ _ _ Hst). cbn [bind].
    destruct (permitted st0 context); cbn [negb]; [|eauto].
    unfold Entries. unfold Get in Hget.
    destruct (btree.Get (fuseNameToKey nm) (db s)) as [sk|] eqn:Hsk; [|discriminate].
    injection Hget as Hinfo. rewrite Hinfo.
    unfold FileInfo_Mode. rewrite Hst. cbn [bind]. rewrite Hdir. cbn [negb].
    assert (Hscan : exists r, dir_entries (mem s)
                                (scan_entries (db s) sk (fuseNameToKey nm)) = Ok r).
    { destruct (dir_entries_return (mem s)
                  (scan_entries (db s) sk (fuseNameToKey nm))) as (r & Hr & _);
        [|eauto].
      intros c Hc. apply scan_entries_In in Hc as (x & Hx & <-). auto. }
    destruct (mem s !! dir) as [[n|n es]|] eqn:Hobj; cbn [bind].
    + destruct Hscan as (r & ->). cbn [bind]. eauto.
    + rewrite dirNode_Entries_held.
      destruct (dir_entries_return (mem s) es) as (r & -> & _);
        [intros c Hc; eapply Hchild; eassumption|].
      cbn [bind]. eauto.
    + destruct Hscan as (r & ->). cbn [bind]. eauto.
Qed.

Lemma canonical_elements (cs : list string) :
  forallb (fun e => negb (String.eqb e "") && negb (String.eqb e ".")
                    && negb (String.eqb e "..")
                    && (Strings.Count e =? 0)%nat) cs = true ->
  canonical (path_of cs).
Proof.
  intros H. exists cs. split; [|reflexivity].
  apply List.Forall_forall. intros e He.
  rewrite forallb_forall in H. specialize (H e He).
  rewrite !andb_true_iff, !negb_true_iff, !String.eqb_neq in H.
  destruct H as [[[H1 H2] H3] H4]. apply Nat.eqb_eq in H4.
  repeat split; assumption.
Qed.

(** The scan for [/bar] over the store of the test of [Entries]. *)
Lemma range_scan_lists_children_witness :
  exists items,
    scan_entries test_store {| key := "/bar"; info := 2%nat |} "/bar"
    = map info items
    /\ (forall x, In x items
                  <-> In x test_store /\ key x <> "/bar"
                      /\ filepath.Dir (key x) = "/bar")
    /\ StronglySorted (fun a b => Strings.lt (key a) (key b) = true) items.
Proof.
  apply (range_scan_lists_children test_store "/bar"
           {| key := "/bar"; info := 2%nat |}).
  - apply added_sorted.
  - repeat constructor.
    + apply (canonical_elements []). reflexivity.
    + apply (canonical_elements ["bar"]). reflexivity.
    + apply (canonical_elements ["foo"]). reflexivity.
    + apply (canonical_elements ["bar"; "baz"]). reflexivity.
    + apply (canonical_elements ["bar"; "quux"]). reflexivity.
    + apply (canonical_elements ["bar"; "quux"; "quack"]). reflexivity.
  - reflexivity.
Defined.

(** The index of the archive whose directories are described late. *)
Lemma served_index_is_described_witness :
  StronglySorted key_Less (db later_server)
  /\ Forall (fun x => canonical (key x)) (db later_server)
  /\ (forall k fi, Get (db later_server) k = Some fi ->
        exists st, the_stat (mem later_server) fi = Ok st)
  /\ (forall p n es c, mem later_server !! p = Some (obj_dirNode n es) ->
        In c es -> exists st, the_stat (mem later_server) c = Ok st).
Proof.
  apply (served_index_is_described later_archive example_stream 0 0 later_server).
  vm_compute. reflexivity.
Defined.

(** The operations on the server of that archive. *)
Lemma served_operations_return_witness :
  (exists r, Open later_server "foo/quux/hello" 0 (caller 1000 1000) = Ok r)
  /\ (exists r, GetAttr later_server "foo" (caller 1000 1000) = Ok r)
  /\ (exists r, OpenDir later_server "foo" (caller 1000 1000) = Ok r).
Proof.
  split; [|split].
  - apply (served_operations_return later_archive example_stream 0 0
             later_server "foo/quux/hello" 0 (caller 1000 1000)).
    vm_compute. reflexivity.
  - apply (served_operations_return later_archive example_stream 0 0
             later_server "foo" 0 (caller 1000 1000)).
    vm_compute. reflexivity.
  - apply (served_operations_return later_archive example_stream 0 0
             later_server "foo" 0 (caller 1000 1000)).
    vm_compute. reflexivity.
Defined.

(** ** The order children are held in *)

(** X5. One turn of the ingestion loop puts the node of the entry at the
    end of the children of the node at its parent path: the children that
    node had stay before it, in order, and a parent made in this turn has no
    other child. A directory node therefore holds its children in the order
    of the archive. *)
Theorem entry_is_appended_last
  (st st' : ingest) (hdr : tar.Header) (pos : Z) :
  let k := headerNameEntry (tar.Name hdr) in
  ingest_entry st hdr pos = Ok st' ->
  exists nodeInfo parent n es,
    Get (idx st') (filepath.Dir k) = Some parent
    /\ (filepath.Dir k <> k -> Get (idx st') k = Some nodeInfo)
    /\ objs st' !! parent = Some (obj_dirNode n (es ++ [nodeInfo])%list)
    /\ (forall q n0 es0,
          Get (idx st) (filepath.Dir k) = Some q ->
          objs st !! q = Some (obj_dirNode n0 es0) ->
          q = parent /\ es0 = es)
    /\ (Get (idx st) (filepath.Dir k) = None -> filepath.Dir k <> k -> es = []).
Proof.
  intros k. unfold ingest_entry. fold k.
  destruct (entry_node st hdr pos) as [[[nodeInfo h1] m1]|] eqn:He;
    cbn [bind]; [|discriminate].
  destruct (parent_node (Add (idx st) k nodeInfo) h1 m1 (filepath.Dir k))
    as [[[parent h2] m2]|] eqn:Hp; cbn [bind]; [|discriminate].
  intros H. injection H as <-. cbn [idx objs missingDirs].
  unfold parent_node in Hp. rewrite Get_Add in Hp.
  (* the children of the nodes that were there are left alone by [entry_node] *)
  assert (Hkeep : forall q n0 es0,
            objs st !! q = Some (obj_dirNode n0 es0) ->
            exists n1, h1 !! q = Some (obj_dirNode n1 es0)).
  { intros q n0 es0 Hq. unfold entry_node in He. fold k in He.
    assert (Hlt : (q < length (objs st))%nat) by (eapply lookup_lt_Some; eauto).
    destruct (os.IsDir (tar.FileMode hdr)).
    - destruct (Get (idx st) k) as [dirInfo|].
      + destruct (objs st !! dirInfo) as [[x|x xs]|] eqn:Hd; try discriminate.
        injection He as <- <- <-. destruct (decide (dirInfo = q)) as [->|Hne].
        * rewrite list_lookup_insert_eq by exact Hlt.
          assert (xs = es0) by congruence. subst xs. eauto.
        * rewrite list_lookup_insert_ne by exact Hne. eauto.
      + unfold alloc in He. injection He as <- <- <-.
        rewrite lookup_app_l by exact Hlt. eauto.
    - unfold alloc in He. injection He as <- <- <-.
      rewrite lookup_app_l by exact Hlt. eauto. }
  exists nodeInfo, parent.
  destruct (String.eqb_spec k (filepath.Dir k)) as [Eself|Hne].
  - (* the entry is its own parent *)
    destruct (h1 !! nodeInfo) as [[x|n es]|] eqn:Hn; try discriminate.
    injection Hp as <- <- <-. exists n, es.
    unfold append_entry. rewrite Hn.
    assert (Hlt : (nodeInfo < length h1)%nat) by (eapply lookup_lt_Some; eauto).
    rewrite Get_Add_eq, list_lookup_insert_eq by exact Hlt.
    split; [reflexivity|]. split; [congruence|]. split; [reflexivity|].
    split; [|congruence].
    intros q n0 es0 Hq Hqo. rewrite <- Eself in Hq.
    (* the node at the path of the entry is the one the entry was merged into *)
    unfold entry_node in He. fold k in He. rewrite Hq, Hqo in He.
    destruct (os.IsDir (tar.FileMode hdr)).
    + injection He as <- <- <-.
      rewrite list_lookup_insert_eq in Hn by (eapply lookup_lt_Some; eauto).
      split; congruence.
    + unfold alloc in He. injection He as <- <- <-.
      rewrite lookup_app_r in Hn by lia. rewrite Nat.sub_diag in Hn.
      discriminate Hn.
  - destruct (Get (idx st) (filepath.Dir k)) as [q|] eqn:Hq.
    + destruct (h1 !! q) as [[x|n es]|] eqn:Hqo; try discriminate.
      injection Hp as <- <- <-. exists n, es.
      unfold append_entry. rewrite Hqo.
      assert (Hlt : (q < length h1)%nat) by (eapply lookup_lt_Some; eauto).
      rewrite Get_Add_eq, Get_Add_ne, Get_Add_eq, list_lookup_insert_eq
        by (congruence || exact Hlt).
      split; [reflexivity|]. split; [reflexivity|]. split; [reflexivity|].
      split; [|discriminate].
      intros q' n0 es0 Hq' Hq'o. injection Hq' as <-.
      destruct (Hkeep _ _ _ Hq'o) as (n1 & Hk1). split; congruence.
    + unfold alloc in Hp. injection Hp as <- <- <-. eexists _, [].
      unfold append_entry.
      rewrite lookup_app_r by lia. rewrite Nat.sub_diag. cbn [lookup list_lookup].
      rewrite Get_Add_eq, Get_Add_ne, Get_Add_eq by congruence.
      rewrite list_lookup_insert_eq by (rewrite length_app; cbn [length]; lia).
      split; [reflexivity|]. split; [reflexivity|]. split; [reflexivity|].
      split; [discriminate|reflexivity].
Qed.

(** The header of [foo/quux] becomes the only child of the placeholder made
    for [foo]. *)
Lemma entry_is_appended_last_witness :
  exists st' nodeInfo parent n,
    ingest_entry after_hello (directory_header "foo/quux/") 2048 = Ok st'
    /\ Get (idx st') "/foo" = Some parent
    /\ Get (idx st') "/foo/quux" = Some nodeInfo
    /\ objs st' !! parent = Some (obj_dirNode n [nodeInfo]).
Proof.
  pose (st' := reached (ingest_entry after_hello (directory_header "foo/quux/") 2048)).
  destruct (entry_is_appended_last after_hello st' (directory_header "foo/quux/") 2048)
    as (nodeInfo & parent & n & es & H1 & H2 & H3 & _ & H5).
  - vm_compute. reflexivity.
  - exists st', nodeInfo, parent, n.
    split; [vm_compute; reflexivity|]. split; [exact H1|].
    split; [apply H2; vm_compute; discriminate|].
    rewrite H3, H5; [reflexivity|vm_compute; reflexivity|vm_compute; discriminate].
Defined.

(** ** The archive without entries *)

(** X4. An archive with no entry is ingested; the server lists an empty
    root, and reports the root as a directory of mode 0755 and size 4096
    owned by the process's effective user and group. *)
Theorem empty_archive_serves_empty_root
  (ra : list Byte.byte) (euid egid : Z) (context : fuse.Context) :
  exists s,
    FromReaderAt {| tar.entries := []; tar.stops := tar.EOF |}
                 ra NewBTreeStore [] euid egid
    = Ok (inl s)
    /\ stream s = ra
    /\ OpenDir s "" context = Ok (Some [], fuse.OK)
    /\ GetAttr s "" context
       = Ok (Some {| fuse.Attr_Mtime := uint64 time_zero;
                     fuse.Attr_Mode := Z.lor 493 fuse.S_IFDIR;
                     fuse.Attr_Size := 4096;
                     fuse.Attr_Uid := uint32 euid;
                     fuse.Attr_Gid := uint32 egid |},
             fuse.OK).
Proof.
  pose (root := {| name := ""; stat := Some (rootStat euid egid) |}).
  exists (Newserver (Add NewBTreeStore "/" 0%nat) ra [obj_dirNode root []]).
  split; [reflexivity|]. split; [reflexivity|]. split.
  - rewrite (OpenDir_dirNode _ "" context 0%nat root (rootStat euid egid) []);
      [reflexivity|reflexivity|reflexivity|reflexivity|reflexivity
      |apply root_permitted].
  - unfold GetAttr. cbn [db mem Newserver]. run_closed. cbv beta iota.
    rewrite (checkPermissions_stat _ 0%nat (rootStat euid egid)) by reflexivity.
    rewrite root_permitted. reflexivity.
Qed.


(** ** The two ways of listing a directory *)

Section Agreement.

Lemma held_insert (h : Heap) (p l : FileInfo) (n : node) (es : list FileInfo) :
  (p < length h)%nat ->
  held (<[p := obj_dirNode n es]> h) l
  = if decide (p = l) then Some es else held h l.
Proof.
  intros Hlt. unfold held. destruct (decide (p = l)) as [->|Hne].
  - rewrite list_lookup_insert_eq by exact Hlt. reflexivity.
  - rewrite list_lookup_insert_ne by exact Hne. reflexivity.
Qed.

Lemma held_app_l (h h' : Heap) (l : FileInfo) :
  (l < length h)%nat -> held (h ++ h') l = held h l.
Proof. intros Hlt. unfold held. rewrite lookup_app_l by exact Hlt. reflexivity. Qed.

Lemma held_app_new (h : Heap) (o : object) :
  held (h ++ [o]) (length h) = held [o] 0%nat.
Proof.
  unfold held. rewrite lookup_app_r by lia. rewrite Nat.sub_diag. reflexivity.
Qed.

Lemma desc_app_l (h h' : Heap) (l : FileInfo) :
  (l < length h)%nat -> desc (h ++ h') l -> desc h l.
Proof.
  intros Hlt (o & Ho & Hd). rewrite lookup_app_l in Ho by exact Hlt.
  exists o. auto.
Qed.

Lemma desc_insert_ne (h : Heap) (p l : FileInfo) (o : object) :
  p <> l -> desc (<[p := o]> h) l -> desc h l.
Proof.
  intros Hne (x & Hx & Hd). rewrite list_lookup_insert_ne in Hx by exact Hne.
  exists x. auto.
Qed.

Lemma desc_insert_same (h : Heap) (p : FileInfo) (n : node)
  (es es' : list FileInfo) :
  h !! p = Some (obj_dirNode n es) ->
  desc (<[p := obj_dirNode n es']> h) p -> desc h p.
Proof.
  intros Hp (x & Hx & Hd).
  rewrite list_lookup_insert_eq in Hx by (eapply lookup_lt_Some; eauto).
  injection Hx as <-. exists (obj_dirNode n es). auto.
Qed.

(** What [entry_node] does to the heap. *)
Lemma entry_node_effect (st : ingest) (hdr : tar.Header) (pos : Z)
  (nodeInfo : FileInfo) (h1 : Heap) (m1 : gset string) :
  entry_node st hdr pos = Ok (nodeInfo, h1, m1) ->
  desc h1 nodeInfo
  /\ (forall l, (l < length (objs st))%nat -> held h1 l = held (objs st) l)
  /\ (forall l, (l < length (objs st))%nat -> l <> nodeInfo ->
        desc h1 l -> desc (objs st) l)
  /\ ((nodeInfo = length (objs st) /\ length h1 = S (length (objs st))
       /\ (held h1 nodeInfo = None
           \/ (held h1 nodeInfo = Some []
               /\ Get (idx st) (headerNameEntry (tar.Name hdr)) = None)))
      \/ (Get (idx st) (headerNameEntry (tar.Name hdr)) = Some nodeInfo
          /\ (nodeInfo < length (objs st))%nat
          /\ length h1 = length (objs st))).
Proof.
  unfold entry_node.
  set (k := headerNameEntry (tar.Name hdr)).
  set (nd := {| name := tar.Name hdr;
                stat := Some (with_Ino (fillStat hdr) pos) |}).
  assert (Hnew : forall o,
            described o ->
            (held [o] 0%nat = None
             \/ (held [o] 0%nat = Some [] /\ Get (idx st) k = None)) ->
            nodeInfo = length (objs st) -> h1 = (objs st ++ [o])%list ->
            desc h1 nodeInfo
            /\ (forall l, (l < length (objs st))%nat ->
                  held h1 l = held (objs st) l)
            /\ (forall l, (l < length (objs st))%nat -> l <> nodeInfo ->
                  desc h1 l -> desc (objs st) l)
            /\ ((nodeInfo = length (objs st) /\ length h1 = S (length (objs st))
                 /\ (held h1 nodeInfo = None
                     \/ (held h1 nodeInfo = Some [] /\ Get (idx st) k = None)))
                \/ (Get (idx st) k = Some nodeInfo
                    /\ (nodeInfo < length (objs st))%nat
                    /\ length h1 = length (objs st)))).
  { intros o Hd Hheld -> ->. split; [|split; [|split]].
    - exists o. split; [|exact Hd].
      rewrite lookup_app_r by lia. rewrite Nat.sub_diag. reflexivity.
    - intros l Hl. apply held_app_l. exact Hl.
    - intros l Hl _. apply desc_app_l. exact Hl.
    - left. split; [reflexivity|]. split.
      + rewrite length_app. cbn [length]. lia.
      + rewrite held_app_new. exact Hheld. }
  destruct (os.IsDir (tar.FileMode hdr)).
  - destruct (Get (idx st) k) as [dirInfo|] eqn:Hget.
    + destruct (objs st !! dirInfo) as [[x|x es]|] eqn:Hobj; try discriminate.
      intros H. injection H as <- <- <-.
      assert (Hlt : (dirInfo < length (objs st))%nat)
        by (eapply lookup_lt_Some; eauto).
      split; [|split; [|split]].
      * exists (obj_dirNode nd es).
        rewrite list_lookup_insert_eq by exact Hlt.
        split; [reflexivity|]. cbn. eexists; reflexivity.
      * intros l Hl. rewrite held_insert by exact Hlt.
        destruct (decide (dirInfo = l)) as [<-|]; [|reflexivity].
        unfold held. rewrite Hobj. reflexivity.
      * intros l Hl Hne. apply desc_insert_ne. congruence.
      * right. split; [reflexivity|]. split; [exact Hlt|]. apply length_insert.
    + unfold alloc. intros H. injection H as <- <- <-.
      apply (Hnew (obj_dirNode nd [])); try reflexivity.
      * cbn. eexists; reflexivity.
      * right. split; reflexivity.
  - unfold alloc. intros H. injection H as <- <- <-.
    apply (Hnew (obj_node nd)); try reflexivity.
    + cbn. eexists; reflexivity.
    + left. reflexivity.
Qed.

(** What finding or making the parent, and appending to it, does. *)
Lemma parent_effect (s : btreeStore) (h1 : Heap) (m1 : gset string)
  (pk : string) (nodeInfo parent : FileInfo) (h2 : Heap) (m2 : gset string) :
  parent_node s h1 m1 pk = Ok (parent, h2, m2) ->
  let h3 := append_entry h2 parent nodeInfo in
  (length h1 <= length h3)%nat
  /\ (parent < length h3)%nat
  /\ (forall l, (l < length h1)%nat -> l <> parent -> held h3 l = held h1 l)
  /\ (forall l, (l < length h1)%nat -> desc h3 l -> desc h1 l)
  /\ ((Get s pk = Some parent /\ (parent < length h1)%nat
       /\ exists c, held h1 parent = Some c
                    /\ held h3 parent = Some (c ++ [nodeInfo])%list)
      \/ (Get s pk = None /\ parent = length h1
          /\ held h3 parent = Some [nodeInfo] /\ ~ desc h3 parent)).
Proof.
  unfold parent_node. destruct (Get s pk) as [q|] eqn:Hget.
  - destruct (h1 !! q) as [[x|n c]|] eqn:Hq; try discriminate.
    intros H. injection H as <- <- <-. cbn zeta.
    assert (Hlt : (q < length h1)%nat) by (eapply lookup_lt_Some; eauto).
    unfold append_entry. rewrite Hq.
    split; [rewrite length_insert; lia|].
    split; [rewrite length_insert; exact Hlt|]. split; [|split].
    + intros l Hl Hne. rewrite held_insert by exact Hlt.
      destruct (decide (q = l)); [congruence|reflexivity].
    + intros l Hl Hd. destruct (decide (q = l)) as [<-|Hne].
      * eapply desc_insert_same; eassumption.
      * eapply desc_insert_ne; eassumption.
    + left. split; [reflexivity|]. split; [exact Hlt|]. exists c. split.
      * unfold held. rewrite Hq. reflexivity.
      * rewrite held_insert by exact Hlt. rewrite decide_True by reflexivity.
        reflexivity.
  - unfold alloc. intros H. injection H as <- <- <-. cbn zeta.
    set (ph := {| name := filepath.Base pk; stat := None |}).
    unfold append_entry.
    rewrite lookup_app_r by lia. rewrite Nat.sub_diag. cbn [lookup list_lookup].
    assert (Hlen : length (h1 ++ [obj_dirNode ph []])%list = S (length h1))
      by (rewrite length_app; cbn [length]; lia).
    assert (Hnew : <[length h1 := obj_dirNode ph ([] ++ [nodeInfo])%list]>
                     (h1 ++ [obj_dirNode ph []])%list !! length h1
                   = Some (obj_dirNode ph [nodeInfo])).
    { rewrite list_lookup_insert_eq by lia. reflexivity. }
    split; [rewrite length_insert; lia|].
    split; [rewrite length_insert; lia|]. split; [|split].
    + intros l Hl Hne. rewrite held_insert by lia.
      destruct (decide (length h1 = l)); [congruence|].
      apply held_app_l. exact Hl.
    + intros l Hl Hd. apply desc_insert_ne in Hd; [|lia].
      eapply desc_app_l; eassumption.
    + right. split; [reflexivity|]. split; [reflexivity|]. split.
      * unfold held. rewrite Hnew. reflexivity.
      * intros (o & Ho & Hd). rewrite Hnew in Ho. injection Ho as <-.
        destruct Hd as [x Hx]. cbn in Hx. discriminate Hx.
Qed.

End Agreement.

Section Linking.

Lemma Dir_neq (k : string) : canonical k -> k <> "/" -> filepath.Dir k <> k.
Proof.
  intros (cs & Hcs & ->) Hroot.
  destruct cs as [|c cs _] using rev_ind; [contradiction Hroot; reflexivity|].
  apply Forall_app in Hcs as [Hcs Hc]. apply List.Forall_inv in Hc.
  rewrite Dir_path_of_snoc by assumption. intros E.
  assert (Hall : Forall proper (cs ++ [c])).
  { apply Forall_app. split; [exact Hcs|]. constructor; [exact Hc|constructor]. }
  destruct cs as [|e cs].
  - destruct Hc as (Hc0 & _). apply Hc0.
    change (path_of []) with (String "/" "") in E.
    change (path_of ([] ++ [c])) with (String "/" c) in E. congruence.
  - apply (f_equal Strings.Count) in E.
    rewrite !Count_path_of in E by assumption.
    rewrite length_app in E. cbn [length] in E. lia.
Qed.

Lemma children_of_snoc (s : btreeStore) (done : list string) (k D : string) :
  children_of s (done ++ [k]) D
  = (children_of s done D
     ++ (if String.eqb (filepath.Dir k) D then [Get s k] else []))%list.
Proof.
  unfold children_of. rewrite List.filter_app, map_app. cbn [List.filter].
  destruct (String.eqb (filepath.Dir k) D); reflexivity.
Qed.

Lemma children_of_ext (s s' : btreeStore) (done : list string) (D : string) :
  (forall k, In k done -> Get s' k = Get s k) ->
  children_of s' done D = children_of s done D.
Proof.
  intros H. unfold children_of. apply List.map_ext_in. intros k Hk.
  apply List.filter_In in Hk as [Hk _]. auto.
Qed.

Lemma children_of_none (s : btreeStore) (done : list string) (D : string) :
  (forall k, In k done -> filepath.Dir k <> D) -> children_of s done D = [].
Proof.
  intros H. unfold children_of.
  assert (E : List.filter (fun k => String.eqb (filepath.Dir k) D) done = []).
  { induction done as [|k done IH]; [reflexivity|]. cbn [List.filter].
    destruct (String.eqb_spec (filepath.Dir k) D) as [E|_].
    - exfalso. exact (H k (or_introl eq_refl) E).
    - apply IH. intros k' Hk'. apply H. right. exact Hk'. }
  rewrite E. reflexivity.
Qed.

(** An entry with a new key, not the root's, keeps the state linked. *)
Lemma ingest_entry_linked (st st' : ingest) (hdr : tar.Header) (pos : Z)
  (done : list string) :
  let k := headerNameEntry (tar.Name hdr) in
  linked st done -> k <> "/" -> ~ In k done ->
  ingest_entry st hdr pos = Ok st' ->
  linked st' (done ++ [k]).
Proof.
  intros k [Hbound Hdesc Hdom Hparent Hinj Hheld] Hroot Hfresh.
  unfold ingest_entry. fold k.
  destruct (entry_node st hdr pos) as [[[nodeInfo h1] m1]|] eqn:He;
    cbn [bind]; [|discriminate].
  destruct (parent_node (Add (idx st) k nodeInfo) h1 m1 (filepath.Dir k))
    as [[[parent h2] m2]|] eqn:Hp; cbn [bind]; [|discriminate].
  intros H. injection H as <-.
  set (pk := filepath.Dir k) in *.
  assert (Hpk : pk <> k) by (apply Dir_neq; [apply headerNameEntry_canonical|exact Hroot]).
  destruct (entry_node_effect _ _ _ _ _ _ He) as (Hdn & Hheld1 & Hdesc1 & Hcase1).
  fold k in Hcase1.
  destruct (parent_effect _ _ _ _ nodeInfo _ _ _ Hp)
    as (Hlen13 & Hplt & Hheld3 & Hdesc3 & Hcase3).
  set (h3 := append_entry h2 parent nodeInfo) in *.
  rewrite Get_Add_ne in Hcase3 by congruence.
  assert (Hget' : forall k0,
            Get (Add (Add (idx st) k nodeInfo) pk parent) k0
            = if String.eqb pk k0 then Some parent
              else if String.eqb k k0 then Some nodeInfo
                   else Get (idx st) k0)
    by (intros k0; rewrite !Get_Add; reflexivity).
  assert (Hlen01 : (length (objs st) <= length h1)%nat)
    by (destruct Hcase1 as [(_ & -> & _)|(_ & _ & ->)]; lia).
  assert (Hnlt : (nodeInfo < length h1)%nat)
    by (destruct Hcase1 as [(-> & -> & _)|(_ & Hl & ->)]; lia).
  (* the node of the entry is under no other key *)
  assert (Hnode_old : forall k0 fi, Get (idx st) k0 = Some fi -> k0 <> k ->
                        fi <> nodeInfo).
  { intros k0 fi Hg Hne ->.
    destruct Hcase1 as [(-> & _)|(Hgk & _)].
    - apply Hbound in Hg. lia.
    - apply Hne. eapply Hinj; eassumption. }
  (* nor is the parent *)
  assert (Hparent_old : forall k0 fi, Get (idx st) k0 = Some fi -> k0 <> pk ->
                          fi <> parent).
  { intros k0 fi Hg Hne ->.
    destruct Hcase3 as [(Hgp & _)|(_ & -> & _)].
    - apply Hne. eapply Hinj; eassumption.
    - apply Hbound in Hg. lia. }
  assert (Hpn : parent <> nodeInfo).
  { destruct Hcase3 as [(Hgp & _)|(_ & -> & _)]; [|lia].
    apply (Hnode_old pk); assumption. }
  (* the keys read before are where they were *)
  assert (Hsame : forall k1, In k1 done ->
            Get (Add (Add (idx st) k nodeInfo) pk parent) k1 = Get (idx st) k1).
  { intros k1 Hk1. rewrite Hget'.
    destruct (String.eqb_spec pk k1) as [<-|_].
    - destruct (Hdom pk (or_intror Hk1)) as (fi & Hfi).
      destruct Hcase3 as [(Hgp & _)|(Hgp & _)]; congruence.
    - destruct (String.eqb_spec k k1) as [<-|_]; [contradiction|reflexivity]. }
  assert (Hold_held : forall k0 fi, Get (idx st) k0 = Some fi ->
            k0 <> pk -> held h3 fi = held (objs st) fi).
  { intros k0 fi Hg Hne. pose proof (Hbound _ _ Hg) as Hb.
    rewrite Hheld3 by (try lia; eapply Hparent_old; eassumption).
    apply Hheld1. exact Hb. }
  split; cbn [idx objs].
  - (* the index points into the heap *)
    intros k0 fi. rewrite Hget'.
    destruct (String.eqb pk k0); [intros H; injection H as <-; exact Hplt|].
    destruct (String.eqb k k0); [intros H; injection H as <-; lia|].
    intros Hg. apply Hbound in Hg. lia.
  - (* the described nodes *)
    intros k0 fi. rewrite Hget', in_app_iff.
    destruct (String.eqb_spec pk k0) as [<-|Hn1].
    { intros H Hd. injection H as <-.
      destruct Hcase3 as [(Hgp & Hpl & _)|(_ & _ & _ & Hnd)]; [|contradiction].
      apply Hdesc3 in Hd; [|exact Hpl].
      apply Hdesc1 in Hd; [|eapply Hbound; eassumption|exact Hpn].
      destruct (Hdesc _ _ Hgp Hd); auto. }
    destruct (String.eqb_spec k k0) as [<-|Hn2].
    { intros _ _. right. right. left. reflexivity. }
    intros Hg Hd. pose proof (Hbound _ _ Hg) as Hb.
    apply Hdesc3 in Hd; [|lia].
    apply Hdesc1 in Hd; [|exact Hb|eapply Hnode_old; eauto].
    destruct (Hdesc _ _ Hg Hd); auto.
  - (* the root and the keys read are in the index *)
    intros k0 Hk0. rewrite Hget'.
    destruct (String.eqb pk k0); [eauto|].
    destruct (String.eqb_spec k k0) as [<-|Hn2]; [eauto|].
    apply Hdom. destruct Hk0 as [->|Hk0]; [auto|].
    apply in_app_iff in Hk0 as [Hk0|[<-|[]]]; [auto|contradiction].
  - (* and so are their parents *)
    intros k0 Hk0. rewrite Hget'.
    destruct (String.eqb (filepath.Dir k) (filepath.Dir k0)) eqn:E1.
    { fold pk in E1. rewrite E1. eauto. }
    fold pk in E1. rewrite E1.
    destruct (String.eqb k (filepath.Dir k0)); [eauto|].
    apply in_app_iff in Hk0 as [Hk0|[<-|[]]]; [apply Hparent; exact Hk0|].
    fold pk in E1. rewrite String.eqb_refl in E1. discriminate.
  - (* no node is under two keys *)
    intros k1 k2 fi. rewrite !Hget'.
    destruct (String.eqb_spec pk k1) as [<-|N1];
      destruct (String.eqb_spec pk k2) as [<-|N2]; [reflexivity| | |].
    + intros H1. injection H1 as <-.
      destruct (String.eqb_spec k k2) as [<-|M2].
      * intros H2. injection H2 as H2. congruence.
      * intros H2. exfalso. eapply Hparent_old; eauto.
    + destruct (String.eqb_spec k k1) as [<-|M1].
      * intros H1 H2. injection H1 as <-. injection H2 as H2. congruence.
      * intros H1 H2. injection H2 as <-. exfalso. eapply Hparent_old; eauto.
    + destruct (String.eqb_spec k k1) as [<-|M1];
        destruct (String.eqb_spec k k2) as [<-|M2]; [reflexivity| | |].
      * intros H1 H2. injection H1 as <-. exfalso. eapply Hnode_old; eauto.
      * intros H1 H2. injection H2 as <-. exfalso. eapply Hnode_old; eauto.
      * apply Hinj.
  - (* a directory node holds the nodes of the entries under it, in order *)
    intros k0 fi es. rewrite Hget', children_of_snoc.
    rewrite (children_of_ext _ _ _ _ Hsame).
    rewrite Hget'. fold pk.
    destruct (String.eqb_spec pk k) as [|_]; [contradiction|].
    rewrite String.eqb_refl.
    destruct (String.eqb_spec pk k0) as [<-|N0].
    { intros H Hh. injection H as <-.
      destruct Hcase3 as [(Hgp & Hpl & c & Hc1 & Hc3)|(Hgp & _ & Hn3 & _)].
      - rewrite Hc3 in Hh. injection Hh as <-.
        rewrite Hheld1 in Hc1 by (eapply Hbound; eassumption).
        rewrite map_app, (Hheld _ _ _ Hgp Hc1). reflexivity.
      - rewrite Hn3 in Hh. injection Hh as <-.
        rewrite children_of_none; [reflexivity|].
        intros k1 Hk1 E. destruct (Hparent k1 Hk1) as (x & Hx).
        fold pk in E. congruence. }
    rewrite app_nil_r.
    destruct (String.eqb_spec k k0) as [<-|M0].
    { intros H Hh. injection H as <-.
      rewrite Hheld3 in Hh by (lia || congruence).
      destruct Hcase1 as [(_ & _ & [Hnone|[Hnil Hgk]])|(Hgk & Hnl & _)].
      - congruence.
      - rewrite Hnil in Hh. injection Hh as <-.
        rewrite children_of_none; [reflexivity|].
        intros k1 Hk1 E. destruct (Hparent k1 Hk1) as (x & Hx). congruence.
      - rewrite Hheld1 in Hh by exact Hnl. exact (Hheld _ _ _ Hgk Hh). }
    intros Hg Hh. rewrite (Hold_held _ _ Hg) in Hh by congruence.
    exact (Hheld _ _ _ Hg Hh).
Qed.

Lemma ingest_loop_linked (es : list (tar.Header * Z)) (st st' : ingest)
  (done : list string) :
  let ks := map (fun e => headerNameEntry (tar.Name (fst e))) es in
  linked st done -> NoDup (done ++ ks) -> ~ In "/" ks ->
  ingest_loop es st = Ok st' ->
  linked st' (done ++ ks).
Proof.
  revert st done. induction es as [|[hdr pos] es IH]; intros st done ks Hl Hnd Hr;
    cbn [ingest_loop].
  - intros H. injection H as <-. subst ks. cbn [map]. rewrite app_nil_r. exact Hl.
  - destruct (ingest_entry st hdr pos) as [st1|] eqn:E; cbn [bind]; [|discriminate].
    intros Hloop. subst ks. cbn [map fst] in *.
    set (k := headerNameEntry (tar.Name hdr)) in *.
    assert (Hk : ~ In k done).
    { intros Hin. apply NoDup_app in Hnd as (_ & Hdis & _).
      apply (Hdis k); [apply list_elem_of_In; exact Hin|left]. }
    assert (Hl1 : linked st1 (done ++ [k])).
    { eapply ingest_entry_linked; eauto. intros Ek. apply Hr. left. exact Ek. }
    replace (done ++ k :: map (fun e => headerNameEntry (tar.Name (fst e))) es)%list
      with ((done ++ [k]) ++ map (fun e => headerNameEntry (tar.Name (fst e))) es)%list
      by (rewrite <- app_assoc; reflexivity).
    eapply IH; [exact Hl1| | |exact Hloop].
    + rewrite <- app_assoc. exact Hnd.
    + intros Hin. apply Hr. right. exact Hin.
Qed.

Lemma ingest_start_linked (euid egid : Z) :
  linked (ingest_start NewBTreeStore [] euid egid) [].
Proof.
  unfold ingest_start, alloc. cbn [length app].
  assert (Hg : forall k fi, Get (Add NewBTreeStore "/" 0%nat) k = Some fi ->
                 k = "/" /\ fi = 0%nat).
  { intros k fi. rewrite Get_Add.
    destruct (String.eqb_spec "/" k) as [<-|]; [|discriminate].
    intros H. injection H as <-. auto. }
  split; cbn [idx objs].
  - intros k fi H. apply Hg in H as [_ ->]. cbn. lia.
  - intros k fi H _. apply Hg in H as [-> _]. auto.
  - intros k [->|[]]. exists 0%nat. reflexivity.
  - intros k [].
  - intros k1 k2 fi H1 H2. apply Hg in H1 as [-> _]. apply Hg in H2 as [-> _].
    reflexivity.
  - intros k fi es H Hh. apply Hg in H as [-> ->].
    cbn in Hh. injection Hh as <-. reflexivity.
Qed.

End Linking.

Section Listing.

Lemma NoDup_map_on {A B : Type} (f : A -> B) (l : list A) :
  (forall x y, In x l -> In y l -> f x = f y -> x = y) ->
  NoDup l -> NoDup (map f l).
Proof.
  intros Hinj Hnd. induction Hnd as [|x l Hx Hnd IH]; cbn [map]; constructor.
  - rewrite list_elem_of_In, List.in_map_iff. intros (y & Hy & Hin).
    apply Hx. apply list_elem_of_In.
    rewrite (Hinj x y (or_introl eq_refl) (or_intror Hin) (eq_sym Hy)). exact Hin.
  - apply IH. intros a b Ha Hb. apply Hinj; right; assumption.
Qed.

Lemma NoDup_map_back {A B : Type} (f : A -> B) (l : list A) :
  NoDup (map f l) -> NoDup l.
Proof.
  induction l as [|x l IH]; cbn [map]; intros H; constructor;
    inversion H as [|? ? Hx Hl]; subst.
  - rewrite list_elem_of_In. intros Hin. apply Hx. apply list_elem_of_In.
    apply List.in_map. exact Hin.
  - apply IH. exact Hl.
Qed.

Lemma sorted_NoDup (t : btree.BTree) :
  StronglySorted key_Less t -> NoDup t.
Proof.
  induction 1 as [|x t Hs IH Hall]; constructor; [|exact IH].
  rewrite list_elem_of_In. intros Hin. rewrite List.Forall_forall in Hall.
  specialize (Hall x Hin). unfold key_Less in Hall.
  rewrite Less_irrefl in Hall. discriminate.
Qed.

Lemma NoDup_filter_list {A : Type} (P : A -> bool) (l : list A) :
  NoDup l -> NoDup (List.filter P l).
Proof.
  induction 1 as [|x l Hx Hnd IH]; cbn [List.filter]; [constructor|].
  destruct (P x); [|exact IH]. constructor; [|exact IH].
  rewrite list_elem_of_In. intros Hin. apply List.filter_In in Hin as [Hin _].
  apply Hx. apply list_elem_of_In. exact Hin.
Qed.

Lemma FromReaderAt_loop (tr : tar.Reader) (ra : list Byte.byte)
  (s0 : btreeStore) (h0 : Heap) (euid egid : Z) (s : server) :
  FromReaderAt tr ra s0 h0 euid egid = Ok (inl s) ->
  exists st,
    ingest_loop (tar.entries tr) (ingest_start s0 h0 euid egid) = Ok st
    /\ missingDirs st = ∅
    /\ s = Newserver (idx st) ra (objs st).
Proof.
  unfold FromReaderAt.
  destruct (ingest_loop (tar.entries tr) (ingest_start s0 h0 euid egid))
    as [st|] eqn:Hloop; cbn [bind]; [|discriminate].
  destruct (tar.stops tr); [|discriminate].
  destruct (Nat.eqb_spec (size (missingDirs st)) 0) as [Hz|]; [|discriminate].
  cbn [negb]. intros H. injection H as <-.
  exists st. split; [reflexivity|]. split; [|reflexivity].
  apply leibniz_equiv. apply size_empty_inv. exact Hz.
Qed.

End Listing.

(** X6. When the entries of the archive have distinct keys, none of them
    the root's, and the archive is ingested: a directory node holds exactly
    the nodes of the entries whose parent path is its own, in the order of
    the archive; and the range scan for its path finds the same nodes, each
    once. The two listings of [Entries] have the same members and can differ
    in order only. *)
Theorem listings_agree_up_to_order
  (tr : tar.Reader) (ra : list Byte.byte) (euid egid : Z) (s : server)
  (D : string) (dir : FileInfo) (n : node) (es : list FileInfo) :
  let ks := map (fun e => headerNameEntry (tar.Name (fst e))) (tar.entries tr) in
  FromReaderAt tr ra NewBTreeStore [] euid egid = Ok (inl s) ->
  NoDup ks ->
  ~ In "/" ks ->
  Get (db s) D = Some dir ->
  mem s !! dir = Some (obj_dirNode n es) ->
  map Some es = children_of (db s) ks D
  /\ exists sk,
       btree.Get D (db s) = Some sk
       /\ Permutation es (scan_entries (db s) sk D).
Proof.
  intros ks Hfrom Hnd Hroot Hget Hobj.
  destruct (FromReaderAt_loop _ _ _ _ _ _ _ Hfrom) as (st & Hloop & Hmiss & ->).
  cbn [db mem Newserver] in *.
  assert (Hwf : well_formed st)
    by (eapply ingest_loop_well_formed; [apply ingest_start_well_formed|exact Hloop]).
  assert (Hl : linked st ks).
  { apply (ingest_loop_linked (tar.entries tr)
             (ingest_start NewBTreeStore [] euid egid) st []);
      [apply ingest_start_linked|exact Hnd|exact Hroot|exact Hloop]. }
  destruct Hwf as (Hsort & Hcan & Hidx & _).
  destruct Hl as [Hbound Hdesc Hdom Hparent Hinj Hheld].
  assert (Hheld_dir : held (objs st) dir = Some es)
    by (unfold held; rewrite Hobj; reflexivity).
  split; [exact (Hheld _ _ _ Hget Hheld_dir)|].
  pose proof Hget as Hsk. unfold Get in Hsk.
  destruct (btree.Get D (idx st)) as [sk|] eqn:Esk; [|discriminate].
  exists sk. split; [reflexivity|].
  apply Get_In in Esk as [_ Hk].
  rewrite scan_entries_filter, Hk.
  set (items := List.filter (scan_accepts D)
                  (btree.AscendRange D (D ++ "//") (idx st))).
  assert (Hitems : forall x, In x items
            <-> In x (idx st) /\ key x <> D /\ filepath.Dir (key x) = D)
    by (apply scan_accepted; exact Hcan).
  (* every item of the index is described, so its key is the root's or an
     entry's *)
  assert (Hkeys : forall x, In x (idx st) -> key x = "/" \/ In (key x) ks).
  { intros x Hx. apply (Hdesc (key x) (info x)).
    - unfold Get. rewrite (sorted_Get _ _ Hsort Hx). reflexivity.
    - destruct (Hidx x Hx) as (o & Ho & [Hd|Hm]); [exists o; auto|].
      rewrite Hmiss in Hm. apply not_elem_of_empty in Hm. contradiction. }
  assert (Hchildren : forall fi, In (Some fi) (children_of (idx st) ks D)
            <-> exists k, In k ks /\ filepath.Dir k = D
                          /\ Get (idx st) k = Some fi).
  { intros fi. unfold children_of. rewrite List.in_map_iff. split.
    - intros (k & Hg & Hin). apply List.filter_In in Hin as [Hin Hd].
      apply String.eqb_eq in Hd. eauto.
    - intros (k & Hin & Hd & Hg). exists k. split; [exact Hg|].
      apply List.filter_In. split; [exact Hin|]. apply String.eqb_eq. exact Hd. }
  apply NoDup_Permutation.
  - (* the node holds each child once *)
    apply (NoDup_map_back Some). rewrite (Hheld _ _ _ Hget Hheld_dir).
    unfold children_of. apply NoDup_map_on; [|apply NoDup_filter_list; exact Hnd].
    intros k1 k2 H1 H2 E.
    apply List.filter_In in H1 as [H1 _]. apply List.filter_In in H2 as [H2 _].
    destruct (Hdom k1 (or_intror H1)) as (f1 & Hf1).
    eapply Hinj; [exact Hf1|]. rewrite <- E. exact Hf1.
  - (* the scan finds each item once *)
    apply NoDup_map_on.
    + intros x y Hx Hy E. apply Hitems in Hx as (Hx & _). apply Hitems in Hy as (Hy & _).
      apply (sorted_key_inj _ _ _ Hsort Hx Hy).
      apply (Hinj _ _ (info x)).
      * unfold Get. rewrite (sorted_Get _ _ Hsort Hx). reflexivity.
      * unfold Get. rewrite (sorted_Get _ _ Hsort Hy), E. reflexivity.
    + apply NoDup_filter_list. unfold btree.AscendRange.
      apply NoDup_filter_list. apply sorted_NoDup. exact Hsort.
  - (* and they are the same nodes *)
    intros fi. rewrite !list_elem_of_In. split.
    + intros Hin. apply (List.in_map Some) in Hin.
      rewrite (Hheld _ _ _ Hget Hheld_dir) in Hin.
      apply Hchildren in Hin as (k & Hin & Hd & Hg).
      unfold Get in Hg.
      destruct (btree.Get k (idx st)) as [x|] eqn:Ex; [|discriminate].
      injection Hg as <-. apply Get_In in Ex as [Hx Hkx].
      apply List.in_map. apply Hitems. split; [exact Hx|].
      rewrite Hkx. split; [|exact Hd].
      intros ->. apply (Dir_neq D); [|congruence|exact Hd].
      rewrite List.Forall_forall in Hcan. rewrite <- Hkx. auto.
    + intros Hin. apply List.in_map_iff in Hin as (x & <- & Hx).
      apply Hitems in Hx as (Hx & Hne & Hd).
      assert (Hin : In (Some (info x)) (map Some es)).
      { rewrite (Hheld _ _ _ Hget Hheld_dir). apply Hchildren.
        exists (key x). split; [|split; [exact Hd|]].
        - destruct (Hkeys x Hx) as [E|Hin]; [|exact Hin].
          exfalso. apply Hne. rewrite <- Hd, E. reflexivity.
        - unfold Get. rewrite (sorted_Get _ _ Hsort Hx). reflexivity. }
      apply List.in_map_iff in Hin as (y & Ey & Hy). congruence.
Qed.

(** The directory [/foo] of the archive in descending order. *)
Lemma listings_agree_up_to_order_witness :
  map Some [2%nat; 3%nat]
  = children_of (db descending_server) ["/foo"; "/foo/b"; "/foo/a"] "/foo"
  /\ exists sk,
       btree.Get "/foo" (db descending_server) = Some sk
       /\ Permutation [2%nat; 3%nat]
                      (scan_entries (db descending_server) sk "/foo").
Proof.
  apply (listings_agree_up_to_order descending_archive [] 0 0 descending_server
           "/foo" 1%nat
           {| name := "foo/";
              stat := Some (with_Ino (fillStat (directory_header "foo/")) 512) |}
           [2%nat; 3%nat]).
  - vm_compute. reflexivity.
  - apply (bool_decide_unpack _). vm_compute. exact I.
  - intros H. vm_compute in H. intuition discriminate.
  - reflexivity.
  - reflexivity.
Defined.

(** ** The order of keys, as a whole *)

(** X7. [Less] is a strict total order of the keys: no key is less than
    itself, the relation is transitive, of two different keys exactly one is
    less than the other, and a key with fewer separators comes before every
    key with more, whatever their bytes. *)
Theorem Less_is_a_strict_total_order :
  (forall a, Less a a = false)
  /\ (forall a b c, Less a b = true -> Less b c = true -> Less a c = true)
  /\ (forall a b, a <> b -> Less a b = negb (Less b a))
  /\ (forall a b, (Strings.Count a < Strings.Count b)%nat -> Less a b = true).
Proof.
  split; [exact Less_irrefl|]. split; [exact Less_trans|]. split.
  - intros a b Hne.
    destruct (Less a b) eqn:Eab, (Less b a) eqn:Eba; try reflexivity.
    + pose proof (Less_trans a b a Eab Eba) as H.
      rewrite Less_irrefl in H. discriminate.
    + exfalso. apply Hne. apply same_eq. unfold btree.same.
      rewrite Eab, Eba. reflexivity.
  - intros a b H. unfold Less.
    destruct (Nat.ltb_spec (Strings.Count a) (Strings.Count b)); [reflexivity|lia].
Qed.

(** ** The store as a map *)

Section MapFacts.

Lemma added_snoc (adds : list (string * FileInfo)) (kv : string * FileInfo) :
  added (adds ++ [kv]) = Add (added adds) (fst kv) (snd kv).
Proof. unfold added. rewrite fold_left_app. reflexivity. Qed.

End MapFacts.

(** X8. A store filled by any sequence of [Add]s answers [Get] like a map in
    which the last [Add] of a key wins: the info of the most recent [Add] of
    that key, or nil when the key was never added. The index stays in
    ascending order of [Less] throughout. *)
Theorem store_is_last_write_wins (adds : list (string * FileInfo)) (k : string) :
  Get (added adds) k
  = option_map snd (List.find (fun kv => String.eqb (fst kv) k) (rev adds))
  /\ StronglySorted key_Less (added adds).
Proof.
  split; [|apply added_sorted].
  induction adds as [|kv adds IH] using rev_ind; [reflexivity|].
  rewrite added_snoc, rev_unit, Get_Add. cbn [List.find].
  destruct (String.eqb (fst kv) k); [reflexivity|exact IH].
Qed.

(** ** Names and keys *)

Section KeyFacts.

Lemma substring_all (s : string) :
  String.substring 0 (String.length s) s = s.
Proof. induction s as [|c s IH]; simpl; congruence. Qed.

Lemma TrimPrefix_dot_slash (nm : string) :
  nm = "./" ++ Strings.TrimPrefix nm "./" \/ Strings.TrimPrefix nm "./" = nm.
Proof.
  unfold Strings.TrimPrefix.
  destruct (String.prefix "./" nm) eqn:E; [left|right; reflexivity].
  destruct nm as [|a [|b s]]; cbn [String.prefix] in E; try discriminate.
  - destruct (ascii_dec "." a); discriminate.
  - destruct (ascii_dec "." a) as [<-|]; [|discriminate].
    destruct (ascii_dec "/" b) as [<-|]; [|discriminate].
    cbn [String.length Nat.sub String.substring].
    rewrite Nat.sub_0_r, substring_all. reflexivity.
Qed.

Lemma snoc_decomp (s : string) :
  s = "" \/ exists t c, s = t ++ String c "".
Proof.
  induction s as [|a s IH]; [left; reflexivity|right].
  destruct IH as [->|(t & c & ->)].
  - exists "", a. reflexivity.
  - exists (String a t), c. reflexivity.
Qed.

Lemma length_snoc (t : string) (c : ascii) :
  String.length (t ++ String c "") = S (String.length t).
Proof.
  induction t as [|a t IH]; [reflexivity|].
  rewrite append_cons. cbn [String.length]. rewrite IH. reflexivity.
Qed.

Lemma substring_snoc_init (t : string) (c : ascii) :
  String.substring 0 (String.length t) (t ++ String c "") = t.
Proof.
  induction t as [|a t IH]; [reflexivity|].
  rewrite append_cons. cbn [String.length String.substring]. rewrite IH.
  reflexivity.
Qed.

Lemma substring_snoc_last (t : string) (c : ascii) :
  String.substring (String.length t) 1 (t ++ String c "") = String c "".
Proof.
  induction t as [|a t IH]; [reflexivity|].
  rewrite append_cons. cbn [String.length String.substring]. exact IH.
Qed.

Lemma TrimSuffix_slash (nm : string) :
  nm = Strings.TrimSuffix nm "/" ++ "/" \/ Strings.TrimSuffix nm "/" = nm.
Proof.
  unfold Strings.TrimSuffix, Strings.HasSuffix.
  destruct (snoc_decomp nm) as [->|(t & c & ->)]; [right; reflexivity|].
  rewrite length_snoc. cbn [String.length Nat.sub Nat.leb andb].
  rewrite Nat.sub_0_r, substring_snoc_last, substring_snoc_init.
  destruct (String.eqb_spec (String c "") "/") as [E|]; [left|right; reflexivity].
  inversion E. reflexivity.
Qed.

(** The key of a name, by the elements of the name. *)
Lemma fuseNameToKey_Split (nm : string) :
  fuseNameToKey nm
  = path_of (rev (fold_left (filepath.clean_elem true) (Strings.Split nm) [])).
Proof.
  unfold fuseNameToKey. cbn [filepath.Join].
  change (String.eqb "/" "") with false. cbv iota.
  change (Strings.Join ["/"; nm] "/") with (String "/" (String "/" nm)).
  rewrite Clean_rooted. reflexivity.
Qed.

Lemma fuseNameToKey_dot_slash (nm : string) :
  fuseNameToKey ("./" ++ nm) = fuseNameToKey nm.
Proof. rewrite !fuseNameToKey_Split. reflexivity. Qed.

Lemma fuseNameToKey_slash (nm : string) :
  fuseNameToKey (nm ++ "/") = fuseNameToKey nm.
Proof.
  rewrite !fuseNameToKey_Split.
  change (nm ++ "/") with (nm ++ "/" ++ "").
  rewrite Split_app_sep, fold_left_app. reflexivity.
Qed.

Lemma fuseNameToKey_fixes (k : string) : canonical k -> fuseNameToKey k = k.
Proof.
  intros (cs & Hcs & ->). rewrite fuseNameToKey_Split. unfold path_of.
  change ("/" ++ Strings.Join cs "/") with (String "/" (Strings.Join cs "/")).
  cbn [Strings.Split]. change (Strings.is_sep "/") with true. cbv iota.
  cbn [fold_left].
  change (filepath.clean_elem true [] "") with (@nil string).
  destruct cs as [|c cs]; [reflexivity|].
  rewrite Split_Join by (discriminate || apply proper_sep_free, Hcs).
  rewrite fold_clean_proper by exact Hcs.
  rewrite app_nil_r, rev_involutive. reflexivity.
Qed.

(** The trimming [headerNameEntry] does before it takes the key changes
    nothing of the key. *)
Lemma headerNameEntry_fuseNameToKey (nm : string) :
  headerNameEntry nm = fuseNameToKey nm.
Proof.
  unfold headerNameEntry.
  assert (H1 : fuseNameToKey (Strings.TrimPrefix nm "./") = fuseNameToKey nm).
  { destruct (TrimPrefix_dot_slash nm) as [E| ->]; [|reflexivity].
    rewrite E at 2. rewrite fuseNameToKey_dot_slash. reflexivity. }
  set (t := Strings.TrimPrefix nm "./") in *.
  assert (H2 : fuseNameToKey (Strings.TrimSuffix t "/") = fuseNameToKey t).
  { destruct (TrimSuffix_slash t) as [E| ->]; [|reflexivity].
    rewrite E at 2. rewrite fuseNameToKey_slash. reflexivity. }
  rewrite <- H1, <- H2.
  destruct (String.eqb_spec (Strings.TrimSuffix t "/") ".") as [->|];
    reflexivity.
Qed.

End KeyFacts.

(** X9. Keys are normal forms of names, and a header name and a lookup name
    meet at one key. The key under which ingestion files an entry is the key
    under which [Open], [OpenDir] and [GetAttr] look the same name up: the
    trimming of a leading [./] and of a trailing separator, and the reading
    of [.] as the empty name, change nothing that [fuseNameToKey] does not
    already do. The key of any name is a canonical path: rooted, its elements
    non-empty, none of them [.] or [..], no separator at the end. A canonical
    path is its own key, so taking the key twice is taking it once; and a
    leading [./] or a trailing separator of the name does not change the
    key. *)
Theorem keys_are_normal_forms (nm : string) :
  headerNameEntry nm = fuseNameToKey nm
  /\ canonical (fuseNameToKey nm)
  /\ (forall k, canonical k -> fuseNameToKey k = k)
  /\ fuseNameToKey (fuseNameToKey nm) = fuseNameToKey nm
  /\ fuseNameToKey ("./" ++ nm) = fuseNameToKey nm
  /\ fuseNameToKey (nm ++ "/") = fuseNameToKey nm.
Proof.
  split; [apply headerNameEntry_fuseNameToKey|].
  split; [apply fuseNameToKey_canonical|].
  split; [exact fuseNameToKey_fixes|].
  split; [apply fuseNameToKey_fixes, fuseNameToKey_canonical|].
  split; [apply fuseNameToKey_dot_slash|apply fuseNameToKey_slash].
Qed.

(** ** One turn of the loop, by what it leaves *)

Section Shape.

Lemma entry_node_shape (st : ingest) (hdr : tar.Header) (pos : Z)
  (nodeInfo : FileInfo) (h1 : Heap) (m1 : gset string) :
  entry_node st hdr pos = Ok (nodeInfo, h1, m1) ->
  (forall l, l <> nodeInfo -> h1 !! l = objs st !! l)
  /\ ((objs st !! nodeInfo = None
       /\ h1 !! nodeInfo = Some (object_for (hdr, pos) [])
       /\ (entry_IsDir (hdr, pos) = true ->
           Get (idx st) (entry_key (hdr, pos)) = None)
       /\ m1 = missingDirs st)
      \/ (entry_IsDir (hdr, pos) = true
          /\ Get (idx st) (entry_key (hdr, pos)) = Some nodeInfo
          /\ (exists n es, objs st !! nodeInfo = Some (obj_dirNode n es)
                           /\ h1 !! nodeInfo
                              = Some (obj_dirNode (node_for (hdr, pos)) es))
          /\ m1 = missingDirs st ∖ {[entry_key (hdr, pos)]})).
Proof.
  unfold entry_node, object_for, entry_IsDir, entry_key, node_for. cbn [fst snd].
  set (k := headerNameEntry (tar.Name hdr)).
  set (nd := {| name := tar.Name hdr;
                stat := Some (with_Ino (fillStat hdr) pos) |}).
  assert (Hnew : forall o l, l <> length (objs st) ->
                   (objs st ++ [o])%list !! l = objs st !! l).
  { intros o l Hl. destruct (Nat.lt_ge_cases l (length (objs st))) as [Hlt|Hge].
    - apply lookup_app_l. exact Hlt.
    - rewrite (lookup_ge_None_2 (objs st) l) by exact Hge.
      apply lookup_ge_None_2. rewrite length_app. cbn [length]. lia. }
  assert (Hat : forall o, (objs st ++ [o])%list !! length (objs st) = Some o).
  { intros o. rewrite lookup_app_r by lia. rewrite Nat.sub_diag. reflexivity. }
  destruct (os.IsDir (tar.FileMode hdr)) eqn:Edir.
  - destruct (Get (idx st) k) as [dirInfo|] eqn:Hget.
    + destruct (objs st !! dirInfo) as [[x|x es]|] eqn:Hobj; try discriminate.
      intros H. injection H as <- <- <-.
      assert (Hlt : (dirInfo < length (objs st))%nat)
        by (eapply lookup_lt_Some; eauto).
      split.
      * intros l Hl. apply list_lookup_insert_ne. congruence.
      * right. split; [reflexivity|]. split; [reflexivity|].
        split; [|reflexivity]. exists x, es. split; [exact Hobj|].
        apply list_lookup_insert_eq. exact Hlt.
    + unfold alloc. intros H. injection H as <- <- <-. split.
      * intros l Hl. apply Hnew. exact Hl.
      * left. split; [apply lookup_ge_None_2; lia|].
        split; [apply Hat|]. split; [reflexivity|reflexivity].
  - unfold alloc. intros H. injection H as <- <- <-. split.
    + intros l Hl. apply Hnew. exact Hl.
    + left. split; [apply lookup_ge_None_2; lia|].
      split; [apply Hat|]. split; [discriminate|reflexivity].
Qed.

Lemma parent_shape (s : btreeStore) (h1 : Heap) (m1 : gset string)
  (pk : string) (nodeInfo parent : FileInfo) (h2 : Heap) (m2 : gset string) :
  parent_node s h1 m1 pk = Ok (parent, h2, m2) ->
  (forall l, l <> parent -> append_entry h2 parent nodeInfo !! l = h1 !! l)
  /\ ((Get s pk = Some parent
       /\ (exists n es,
             h1 !! parent = Some (obj_dirNode n es)
             /\ append_entry h2 parent nodeInfo !! parent
                = Some (obj_dirNode n (es ++ [nodeInfo])%list))
       /\ m2 = m1)
      \/ (Get s pk = None
          /\ h1 !! parent = None
          /\ append_entry h2 parent nodeInfo !! parent
             = Some (obj_dirNode {| name := filepath.Base pk; stat := None |}
                                 [nodeInfo])
          /\ m2 = m1 ∪ {[pk]})).
Proof.
  unfold parent_node. destruct (Get s pk) as [q|] eqn:Hget.
  - destruct (h1 !! q) as [[x|n c]|] eqn:Hq; try discriminate.
    intros H. injection H as <- <- <-.
    assert (Hlt : (q < length h1)%nat) by (eapply lookup_lt_Some; eauto).
    unfold append_entry. rewrite Hq. split.
    + intros l Hl. apply list_lookup_insert_ne. congruence.
    + left. split; [reflexivity|]. split; [|reflexivity].
      exists n, c. split; [reflexivity|].
      apply list_lookup_insert_eq. exact Hlt.
  - unfold alloc. intros H. injection H as <- <- <-.
    set (ph := {| name := filepath.Base pk; stat := None |}).
    unfold append_entry.
    rewrite lookup_app_r by lia. rewrite Nat.sub_diag. cbn [lookup list_lookup].
    split.
    + intros l Hl. rewrite list_lookup_insert_ne by congruence.
      destruct (Nat.lt_ge_cases l (length h1)) as [Hlt|Hge].
      * apply lookup_app_l. exact Hlt.
      * rewrite (lookup_ge_None_2 h1 l) by exact Hge.
        apply lookup_ge_None_2. rewrite length_app. cbn [length]. lia.
    + right. split; [reflexivity|]. split; [apply lookup_ge_None_2; lia|].
      split; [|reflexivity].
      rewrite list_lookup_insert_eq; [reflexivity|].
      rewrite length_app. cbn [length]. lia.
Qed.

(** A turn that returns has found or made both nodes. *)
Lemma ingest_entry_Ok (st st' : ingest) (hdr : tar.Header) (pos : Z) :
  ingest_entry st hdr pos = Ok st' ->
  exists nodeInfo h1 m1 parent h2 m2,
    entry_node st hdr pos = Ok (nodeInfo, h1, m1)
    /\ parent_node (Add (idx st) (entry_key (hdr, pos)) nodeInfo) h1 m1
                   (filepath.Dir (entry_key (hdr, pos)))
       = Ok (parent, h2, m2)
    /\ st' = {| idx := Add (Add (idx st) (entry_key (hdr, pos)) nodeInfo)
                           (filepath.Dir (entry_key (hdr, pos))) parent;
                objs := append_entry h2 parent nodeInfo;
                missingDirs := m2 |}.
Proof.
  unfold ingest_entry, entry_key. cbn [fst].
  destruct (entry_node st hdr pos) as [[[nodeInfo h1] m1]|]; cbn [bind];
    [|discriminate].
  destruct (parent_node _ h1 m1 _) as [[[parent h2] m2]|] eqn:Hp; cbn [bind];
    [|discriminate].
  intros H. injection H as <-.
  exists nodeInfo, h1, m1, parent, h2, m2.
  split; [reflexivity|]. split; [exact Hp|reflexivity].
Qed.

End Shape.

(** ** What the loop keeps, for any archive *)

Section Tracing.

Lemma last_entry_snoc (done : list (tar.Header * Z)) (e : tar.Header * Z)
  (k : string) :
  last_entry (done ++ [e]) k
  = if String.eqb (entry_key e) k then Some e else last_entry done k.
Proof. unfold last_entry. rewrite rev_unit. reflexivity. Qed.

Lemma last_entry_In (done : list (tar.Header * Z)) (k : string)
  (e : tar.Header * Z) :
  last_entry done k = Some e -> In e done /\ entry_key e = k.
Proof.
  unfold last_entry. intros H. apply List.find_some in H as [H1 H2].
  apply in_rev in H1. apply String.eqb_eq in H2. auto.
Qed.

Lemma last_entry_None (done : list (tar.Header * Z)) (k : string) :
  last_entry done k = None -> forall e, In e done -> entry_key e <> k.
Proof.
  unfold last_entry. intros H e He Hk.
  apply in_rev in He. pose proof (List.find_none _ _ H e He) as Hf.
  cbn beta in Hf. rewrite Hk, String.eqb_refl in Hf. discriminate.
Qed.

Lemma last_entry_is_Some (done : list (tar.Header * Z)) (e : tar.Header * Z) :
  In e done -> is_Some (last_entry done (entry_key e)).
Proof.
  intros He. destruct (last_entry done (entry_key e)) eqn:E; [eauto|].
  exfalso. exact (last_entry_None _ _ E e He eq_refl).
Qed.

Lemma described_by_snoc (done : list (tar.Header * Z)) (e : tar.Header * Z)
  (k : string) :
  described_by (done ++ [e]) k
  = described_by done k || (entry_IsDir e && String.eqb (entry_key e) k).
Proof.
  unfold described_by. rewrite existsb_app. cbn [existsb].
  rewrite orb_false_r. reflexivity.
Qed.

Lemma described_by_true (done : list (tar.Header * Z)) (k : string) :
  described_by done k = true
  <-> exists d, In d done /\ entry_IsDir d = true /\ entry_key d = k.
Proof.
  unfold described_by. rewrite existsb_exists. split.
  - intros (d & Hd & H). apply andb_true_iff in H as [H1 H2].
    apply String.eqb_eq in H2. eauto.
  - intros (d & Hd & H1 & H2). exists d. split; [exact Hd|].
    rewrite H1, H2, String.eqb_refl. reflexivity.
Qed.

Lemma described_by_false (done : list (tar.Header * Z)) (k : string) :
  described_by done k = false
  <-> forall d, In d done -> entry_IsDir d = true -> entry_key d <> k.
Proof.
  split.
  - intros H d Hd H1 H2.
    assert (Ht : described_by done k = true)
      by (apply described_by_true; eauto).
    congruence.
  - intros H. destruct (described_by done k) eqn:E; [|reflexivity].
    apply described_by_true in E as (d & Hd & H1 & H2).
    exfalso. exact (H d Hd H1 H2).
Qed.

Lemma entries_under_snoc (done : list (tar.Header * Z)) (e : tar.Header * Z)
  (k : string) :
  entries_under (done ++ [e]) k
  = (entries_under done k
     ++ (if String.eqb (filepath.Dir (entry_key e)) k then [e] else []))%list.
Proof.
  unfold entries_under. rewrite List.filter_app. cbn [List.filter].
  destruct (String.eqb (filepath.Dir (entry_key e)) k); reflexivity.
Qed.

Lemma entries_under_none (done : list (tar.Header * Z)) (k : string) :
  (forall e, In e done -> filepath.Dir (entry_key e) <> k) ->
  entries_under done k = [].
Proof.
  intros H. unfold entries_under.
  induction done as [|e done IH]; [reflexivity|]. cbn [List.filter].
  destruct (String.eqb_spec (filepath.Dir (entry_key e)) k) as [E|_].
  - exfalso. exact (H e (or_introl eq_refl) E).
  - apply IH. intros e' He'. apply H. right. exact He'.
Qed.

Lemma Dir_fixes_root (k : string) :
  canonical k -> filepath.Dir k = k -> k = "/".
Proof.
  intros Hc E. destruct (String.eqb_spec k "/") as [->|Hne]; [reflexivity|].
  exfalso. exact (Dir_neq k Hc Hne E).
Qed.

Lemma object_for_node (e : tar.Header * Z) (es : list FileInfo) :
  node_of (object_for e es) = node_for e
  /\ is_dirNode (object_for e es) = entry_IsDir e.
Proof. unfold object_for. destruct (entry_IsDir e); split; reflexivity. Qed.

End Tracing.

Section TracingStep.

(** One turn of the loop keeps the state traced. *)
Lemma ingest_entry_traced (st st' : ingest) (hdr : tar.Header) (pos : Z)
  (done : list (tar.Header * Z)) :
  traced st done -> ingest_entry st hdr pos = Ok st' ->
  traced st' (done ++ [(hdr, pos)]).
Proof.
  intros [Hbound Hinj Hroot Hhas Hdom Hlast Hunnamed Hmissing Hcount] Hstep.
  destruct (ingest_entry_Ok _ _ _ _ Hstep)
    as (nodeInfo & h1 & m1 & parent & h2 & m2 & He & Hp & ->).
  destruct (entry_node_shape _ _ _ _ _ _ He) as (Hh1 & Hcase1).
  destruct (parent_shape _ _ _ _ nodeInfo _ _ _ Hp) as (Hh3 & Hcase3).
  set (e := (hdr, pos)) in *.
  set (k := entry_key e) in *.
  set (pk := filepath.Dir k) in *.
  set (h3 := append_entry h2 parent nodeInfo) in *.
  rewrite Get_Add in Hcase3.
  assert (Hcanon : canonical k) by apply headerNameEntry_canonical.
  assert (Hpk_root : pk = k -> k = "/") by (apply Dir_fixes_root; exact Hcanon).
  (* the node of the entry *)
  assert (Hn : exists o_n, h1 !! nodeInfo = Some o_n
                           /\ node_of o_n = node_for e
                           /\ is_dirNode o_n = entry_IsDir e).
  { destruct Hcase1 as [(_ & Ho & _)|(Hd & _ & (n & es & _ & Ho) & _)].
    - exists (object_for e []). split; [exact Ho|]. apply object_for_node.
    - exists (obj_dirNode (node_for e) es). split; [exact Ho|].
      split; [reflexivity|]. rewrite Hd. reflexivity. }
  destruct Hn as (o_n & Hon & Hon_node & Hon_dir).
  (* the node of the entry is under no other key *)
  assert (HN : forall k0 fi, Get (idx st) k0 = Some fi -> k0 <> k ->
                 fi <> nodeInfo).
  { intros k0 fi Hg Hne ->.
    destruct Hcase1 as [(Hnone & _)|(_ & Hgk & _)].
    - destruct (Hbound _ _ Hg) as [x Hx]. congruence.
    - apply Hne. eapply Hinj; eassumption. }
  assert (Hpk_eq : pk = k -> parent = nodeInfo).
  { intros E. rewrite E, String.eqb_refl in Hcase3.
    destruct Hcase3 as [(H & _)|(H & _)]; congruence. }
  assert (Hpk_ne : pk <> k -> parent <> nodeInfo).
  { intros Hne E. subst parent.
    destruct (String.eqb_spec k pk) as [|_]; [congruence|].
    destruct Hcase3 as [(Hg & _)|(_ & Hnone & _)].
    - exact (HN pk nodeInfo Hg Hne eq_refl).
    - congruence. }
  (* nor is the parent under another key than its own *)
  assert (HP : forall k0 fi, Get (idx st) k0 = Some fi -> k0 <> pk ->
                 fi <> parent).
  { intros k0 fi Hg Hne ->.
    destruct (String.eqb_spec k pk) as [Ek|Nk].
    - symmetry in Ek. rewrite (Hpk_eq Ek) in Hg.
      apply (HN k0 nodeInfo Hg); congruence.
    - destruct Hcase3 as [(Hgp & _)|(_ & Hnone & _)].
      + apply Hne. eapply Hinj; eassumption.
      + destruct (Hbound _ _ Hg) as [x Hx].
        destruct (decide (parent = nodeInfo)) as [E|NE]; [congruence|].
        rewrite Hh1 in Hnone by exact NE. congruence. }
  assert (Hget' : forall k0,
            Get (Add (Add (idx st) k nodeInfo) pk parent) k0
            = if String.eqb pk k0 then Some parent
              else if String.eqb k k0 then Some nodeInfo
                   else Get (idx st) k0)
    by (intros k0; rewrite !Get_Add; reflexivity).
  assert (Hold : forall k0 fi, Get (idx st) k0 = Some fi -> k0 <> k ->
                   k0 <> pk -> h3 !! fi = objs st !! fi).
  { intros k0 fi Hg N1 N2.
    rewrite Hh3 by (eapply HP; eassumption).
    apply Hh1. eapply HN; eassumption. }
  (* the parent, as it is left *)
  assert (Hpar : exists np esp,
            h3 !! parent = Some (obj_dirNode np (esp ++ [nodeInfo])%list)
            /\ ((h1 !! parent = Some (obj_dirNode np esp) /\ m2 = m1
                 /\ (if String.eqb k pk then Some nodeInfo
                     else Get (idx st) pk) = Some parent)
                \/ (h1 !! parent = None /\ m2 = m1 ∪ {[pk]} /\ esp = []
                    /\ pk <> k /\ Get (idx st) pk = None))).
  { destruct Hcase3 as [(Hg & (n & es & H1 & H3) & Hm)|(Hg & H1 & H3 & Hm)].
    - exists n, es. split; [exact H3|]. left. auto.
    - exists {| name := filepath.Base pk; stat := None |}, [].
      split; [exact H3|]. right.
      destruct (String.eqb_spec k pk); [discriminate|]. auto. }
  destruct Hpar as (np & esp & Hp3 & Hpcase).
  assert (Hmono : forall k0, is_Some (Get (idx st) k0) ->
            is_Some (Get (Add (Add (idx st) k nodeInfo) pk parent) k0)).
  { intros k0 H. rewrite Hget'.
    destruct (String.eqb pk k0); [eauto|].
    destruct (String.eqb k k0); [eauto|exact H]. }
  assert (Hnode3 : pk <> k -> h3 !! nodeInfo = Some o_n).
  { intros Hne. rewrite Hh3 by (intros E; symmetry in E; revert E; apply Hpk_ne, Hne).
    exact Hon. }
  split; cbn [idx objs missingDirs].
  - (* the index points into the heap *)
    intros k0 fi. rewrite Hget'.
    destruct (String.eqb_spec pk k0) as [<-|N1].
    { intros H. injection H as <-. rewrite Hp3. eauto. }
    destruct (String.eqb_spec k k0) as [<-|N2].
    { intros H. injection H as <-. rewrite Hnode3 by exact N1. eauto. }
    intros Hg. rewrite (Hold _ _ Hg) by congruence. eapply Hbound; eassumption.
  - (* no node is under two keys *)
    intros k1 k2 fi. rewrite !Hget'.
    destruct (String.eqb_spec pk k1) as [<-|N1];
      destruct (String.eqb_spec pk k2) as [<-|N2]; [reflexivity| | |].
    + intros H1. injection H1 as <-.
      destruct (String.eqb_spec k k2) as [<-|M2].
      * intros H2. injection H2 as H2. symmetry in H2.
        exfalso. exact (Hpk_ne N2 H2).
      * intros H2. exfalso. eapply HP; eauto.
    + destruct (String.eqb_spec k k1) as [<-|M1].
      * intros H1 H2. injection H1 as <-. injection H2 as H2.
        exfalso. exact (Hpk_ne N1 H2).
      * intros H1 H2. injection H2 as <-. exfalso. eapply HP; eauto.
    + destruct (String.eqb_spec k k1) as [<-|M1];
        destruct (String.eqb_spec k k2) as [<-|M2]; [reflexivity| | |].
      * intros H1 H2. injection H1 as <-. exfalso. eapply HN; eauto.
      * intros H1 H2. injection H2 as <-. exfalso. eapply HN; eauto.
      * apply Hinj.
  - (* the root is in the index *)
    apply Hmono, Hroot.
  - (* so are the keys read and their parents *)
    intros e0 He0. apply in_app_iff in He0 as [He0|[<-|[]]].
    + destruct (Hhas e0 He0). split; apply Hmono; assumption.
    + fold k pk. rewrite !Hget', (String.eqb_refl pk), (String.eqb_refl k).
      split; [|eauto].
      destruct (String.eqb pk k); eauto.
  - (* and nothing else *)
    intros k0. rewrite Hget'.
    destruct (String.eqb_spec pk k0) as [|N1]; [discriminate|].
    destruct (String.eqb_spec k k0) as [|N2]; [discriminate|].
    intros Hg e0 He0. apply in_app_iff in He0 as [He0|[<-|[]]].
    + exact (Hdom _ Hg _ He0).
    + fold k pk. auto.
  - (* the node under a key is that of the last entry with it *)
    intros k0 fi o e0. rewrite Hget', last_entry_snoc. fold k.
    destruct (String.eqb_spec k k0) as [<-|N2].
    + intros Hg Ho Hl. injection Hl as <-.
      destruct (String.eqb_spec pk k) as [E|N1].
      * injection Hg as <-. pose proof (Hpk_eq E) as Epn.
        rewrite Hp3 in Ho. injection Ho as <-.
        destruct Hpcase as [(H1 & _)|(H1 & _)]; rewrite Epn in H1; [|congruence].
        rewrite Hon in H1. injection H1 as ->.
        cbn in Hon_node, Hon_dir. cbn. auto.
      * injection Hg as <-. rewrite Hnode3 in Ho by exact N1.
        injection Ho as <-. auto.
    + intros Hg Ho Hl.
      destruct (last_entry_In _ _ _ Hl) as (He0 & Hk0).
      destruct (Hhas _ He0) as ([fi0 Hfi0] & _). rewrite Hk0 in Hfi0.
      destruct (String.eqb_spec pk k0) as [<-|N1].
      * injection Hg as <-. rewrite Hp3 in Ho. injection Ho as <-.
        destruct (String.eqb_spec k pk) as [|_]; [congruence|].
        destruct Hpcase as [(H1 & _ & Hgp)|(_ & _ & _ & _ & Hgp)]; [|congruence].
        rewrite Hh1 in H1 by (apply Hpk_ne; congruence).
        exact (Hlast _ _ _ _ Hgp H1 Hl).
      * rewrite (Hold _ _ Hg) in Ho by congruence.
        exact (Hlast _ _ _ _ Hg Ho Hl).
  - (* a key no entry has is under the root or a placeholder *)
    intros k0 fi o. rewrite Hget', last_entry_snoc. fold k.
    destruct (String.eqb_spec k k0) as [|N2]; [discriminate|].
    intros Hg Ho Hl.
    assert (Hm1 : k0 ∈ missingDirs st -> k0 ∈ m2).
    { intros Hin.
      assert (Hin1 : k0 ∈ m1).
      { destruct Hcase1 as [(_ & _ & _ & ->)|(_ & _ & _ & ->)]; [exact Hin|].
        apply elem_of_difference. split; [exact Hin|].
        intros Hs. apply elem_of_singleton in Hs. congruence. }
      destruct Hpcase as [(_ & -> & _)|(_ & -> & _)]; [exact Hin1|].
      apply elem_of_union. left. exact Hin1. }
    destruct (String.eqb_spec pk k0) as [<-|N1].
    + injection Hg as <-. rewrite Hp3 in Ho. injection Ho as <-.
      split; [reflexivity|].
      destruct (String.eqb_spec k pk) as [|_]; [congruence|].
      destruct Hpcase as [(H1 & _ & Hgp)|(_ & -> & _)].
      * rewrite Hh1 in H1 by (apply Hpk_ne; congruence).
        destruct (Hunnamed _ _ _ Hgp H1 Hl) as (_ & [E|Hin]); auto.
      * right. apply elem_of_union. right. apply elem_of_singleton. reflexivity.
    + rewrite (Hold _ _ Hg) in Ho by congruence.
      destruct (Hunnamed _ _ _ Hg Ho Hl) as (Hd & [E|Hin]); auto.
  - (* the missing paths *)
    intros k0. rewrite described_by_snoc, orb_false_iff. fold k.
    assert (Hin1 : k0 ∈ m1 <-> k0 ∈ missingDirs st
                               /\ (entry_IsDir e && String.eqb k k0 = false
                                   \/ k0 <> k)).
    { destruct Hcase1 as [(_ & _ & Hfresh & ->)|(Hd & Hgk & _ & ->)].
      - split; [|tauto]. intros Hin. split; [exact Hin|].
        destruct (entry_IsDir e) eqn:Ed; [|left; reflexivity].
        destruct (String.eqb_spec k k0) as [<-|]; [|left; reflexivity].
        exfalso. apply Hmissing in Hin as (_ & (e0 & He0 & Hk0) & _).
        destruct (Hhas _ He0) as (_ & [x Hx]). rewrite Hk0 in Hx.
        rewrite (Hfresh eq_refl) in Hx. discriminate.
      - rewrite elem_of_difference, elem_of_singleton. split.
        + intros [Hin Hne]. split; [exact Hin|]. right. exact Hne.
        + intros [Hin [Hg|Hne]]; split; try assumption.
          rewrite Hd in Hg. cbn [andb] in Hg.
          intros ->. rewrite String.eqb_refl in Hg. discriminate. }
    assert (Hguard : k0 <> k -> entry_IsDir e && String.eqb k k0 = false).
    { intros Hne. destruct (String.eqb_spec k k0); [congruence|].
      apply andb_false_r. }
    destruct Hpcase as [(H1 & -> & Hgp)|(H1 & -> & _ & Nk & Hgp)].
    + rewrite Hin1, Hmissing. split.
      * intros ((R & (e0 & He0 & Hk0) & D) & G).
        split; [exact R|]. split.
        { exists e0. split; [apply in_app_iff; left; exact He0|exact Hk0]. }
        split; [exact D|]. destruct G as [G|G]; [exact G|apply Hguard, G].
      * intros (R & (e0 & He0 & Hk0) & D & G).
        apply in_app_iff in He0 as [He0|[<-|[]]].
        { split; [|left; exact G]. split; [exact R|]. split; [eauto|exact D]. }
        fold k pk in Hk0. subst k0.
        destruct (String.eqb_spec k pk) as [Ek|Nk].
        { exfalso. apply R. rewrite <- Ek. apply Hpk_root. congruence. }
        rewrite Hh1 in H1 by (apply Hpk_ne; congruence).
        destruct (last_entry done pk) as [e0|] eqn:El.
        { exfalso. destruct (Hlast _ _ _ _ Hgp H1 El) as (_ & Hd0).
          destruct (last_entry_In _ _ _ El) as (He0 & Hk0).
          assert (Ht : described_by done pk = true)
            by (apply described_by_true; exists e0; auto).
          congruence. }
        destruct (Hunnamed _ _ _ Hgp H1 El) as (_ & [E|Hin]); [contradiction|].
        split; [|left; exact G]. apply Hmissing. exact Hin.
    + rewrite elem_of_union, elem_of_singleton, Hin1, Hmissing. split.
      * intros [((R & (e0 & He0 & Hk0) & D) & G)| ->].
        { split; [exact R|]. split.
          { exists e0. split; [apply in_app_iff; left; exact He0|exact Hk0]. }
          split; [exact D|]. destruct G as [G|G]; [exact G|apply Hguard, G]. }
        split.
        { intros E. rewrite E in Hgp. destruct Hroot as [x Hx]. congruence. }
        split.
        { exists e. split; [apply in_app_iff; right; left; reflexivity|].
          reflexivity. }
        split; [|apply Hguard, Nk].
        apply described_by_false. intros d Hd _. apply (Hdom _ Hgp _ Hd).
      * intros (R & (e0 & He0 & Hk0) & D & G).
        apply in_app_iff in He0 as [He0|[<-|[]]].
        { left. split; [|left; exact G]. split; [exact R|].
          split; [eauto|exact D]. }
        right. symmetry. exact Hk0.
  - (* the children of a directory node *)
    intros k0 fi es. rewrite Hget', entries_under_snoc, length_app. fold k pk.
    destruct (String.eqb_spec pk k0) as [<-|N1].
    + intros Hg Hh. injection Hg as <-. unfold held in Hh.
      rewrite Hp3 in Hh. injection Hh as <-.
      rewrite length_app. cbn [length]. f_equal.
      destruct Hpcase as [(H1 & _ & Hgp)|(_ & _ & -> & _ & Hgp)].
      * destruct (String.eqb_spec k pk) as [Ek|Nk].
        { injection Hgp as <-.
          destruct Hcase1 as [(_ & Ho & Hfresh & _)|(_ & Hgk & (n & es0 & Ho & Ho1) & _)].
          - exfalso. rewrite Ho in H1. unfold object_for in H1.
            destruct (entry_IsDir e); [|discriminate].
            rewrite (Hpk_root (eq_sym Ek)) in Hfresh.
            destruct Hroot as [x Hx]. rewrite (Hfresh eq_refl) in Hx.
            discriminate.
          - rewrite Ho1 in H1. injection H1 as _ <-. rewrite <- Ek.
            apply (Hcount _ _ _ Hgk). unfold held. rewrite Ho. reflexivity. }
        rewrite Hh1 in H1 by (apply Hpk_ne; congruence).
        apply (Hcount _ _ _ Hgp). unfold held. rewrite H1. reflexivity.
      * rewrite entries_under_none; [reflexivity|].
        intros e0 He0. apply (Hdom _ Hgp _ He0).
    + cbn [length]. rewrite Nat.add_0_r.
      destruct (String.eqb_spec k k0) as [<-|N2].
      * intros Hg Hh. injection Hg as <-. unfold held in Hh.
        rewrite Hnode3 in Hh by exact N1.
        destruct Hcase1 as [(_ & Ho & Hfresh & _)|(_ & Hgk & (n & es0 & Ho & Ho1) & _)].
        { rewrite Ho in Hon. injection Hon as <-. unfold object_for in Hh, Hfresh.
          destruct (entry_IsDir e); [|discriminate]. injection Hh as <-.
          rewrite entries_under_none; [reflexivity|].
          intros e0 He0. apply (Hdom _ (Hfresh eq_refl) _ He0). }
        rewrite Ho1 in Hon. injection Hon as <-. injection Hh as <-.
        apply (Hcount _ _ _ Hgk). unfold held. rewrite Ho. reflexivity.
      * intros Hg Hh. unfold held in Hh.
        rewrite (Hold _ _ Hg) in Hh by congruence.
        exact (Hcount _ _ _ Hg Hh).
Qed.

End TracingStep.

Section TracingLoop.

Lemma ingest_loop_traced (es : list (tar.Header * Z)) (st st' : ingest)
  (done : list (tar.Header * Z)) :
  traced st done -> ingest_loop es st = Ok st' -> traced st' (done ++ es).
Proof.
  revert st done. induction es as [|[hdr pos] es IH]; intros st done Ht;
    cbn [ingest_loop].
  - intros H. injection H as <-. rewrite app_nil_r. exact Ht.
  - destruct (ingest_entry st hdr pos) as [st1|] eqn:E; cbn [bind];
      [|discriminate].
    intros Hloop.
    replace (done ++ (hdr, pos) :: es)%list
      with ((done ++ [(hdr, pos)]) ++ es)%list
      by (rewrite <- app_assoc; reflexivity).
    eapply IH; [|exact Hloop]. eapply ingest_entry_traced; eassumption.
Qed.

Lemma ingest_start_traced (euid egid : Z) :
  traced (ingest_start NewBTreeStore [] euid egid) [].
Proof.
  unfold ingest_start, alloc. cbn [length app].
  assert (Hg : forall k fi, Get (Add NewBTreeStore "/" 0%nat) k = Some fi ->
                 k = "/" /\ fi = 0%nat).
  { intros k fi. rewrite Get_Add.
    destruct (String.eqb_spec "/" k) as [<-|]; [|discriminate].
    intros H. injection H as <-. auto. }
  split; cbn [idx objs missingDirs].
  - intros k fi H. apply Hg in H as [_ ->]. cbn. eauto.
  - intros k1 k2 fi H1 H2. apply Hg in H1 as [-> _]. apply Hg in H2 as [-> _].
    reflexivity.
  - rewrite Get_Add_eq. eauto.
  - intros e [].
  - intros k _ e [].
  - intros k fi o e _ _ H. discriminate H.
  - intros k fi o H Ho _. apply Hg in H as [-> ->].
    cbn in Ho. injection Ho as <-. split; [reflexivity|left; reflexivity].
  - intros k. split.
    + intros H. apply elem_of_empty in H. contradiction.
    + intros (_ & (e & [] & _) & _).
  - intros k fi es H Hh. apply Hg in H as [-> ->].
    cbn in Hh. injection Hh as <-. reflexivity.
Qed.

(** The outcome of [FromReaderAt], by the state its loop ends in. *)
Lemma FromReaderAt_Ok (tr : tar.Reader) (ra : list Byte.byte)
  (s0 : btreeStore) (h0 : Heap) (euid egid : Z) (r : server + error) :
  FromReaderAt tr ra s0 h0 euid egid = Ok r ->
  exists st,
    ingest_loop (tar.entries tr) (ingest_start s0 h0 euid egid) = Ok st
    /\ r = match tar.stops tr with
           | tar.failure msg => inr ("error reading tar: " ++ msg)
           | tar.EOF =>
               if negb (size (missingDirs st) =? 0)%nat
               then inr ("missing directory entries: "
                         ++ Strings.Join (elements (missingDirs st)) ",")
               else inl (Newserver (idx st) ra (objs st))
           end.
Proof.
  unfold FromReaderAt.
  destruct (ingest_loop (tar.entries tr) (ingest_start s0 h0 euid egid))
    as [st|] eqn:Hloop; cbn [bind]; [|discriminate].
  intros H. exists st. split; [reflexivity|].
  destruct (tar.stops tr); [|injection H as <-; reflexivity].
  destruct (negb (size (missingDirs st) =? 0)%nat); injection H as <-;
    reflexivity.
Qed.

(** The server a successful ingestion returns is traced against the whole
    archive, and misses nothing. *)
Lemma FromReaderAt_traced (tr : tar.Reader) (ra : list Byte.byte)
  (euid egid : Z) (s : server) :
  FromReaderAt tr ra NewBTreeStore [] euid egid = Ok (inl s) ->
  traced {| idx := db s; objs := mem s; missingDirs := ∅ |} (tar.entries tr)
  /\ stream s = ra.
Proof.
  intros H. apply FromReaderAt_loop in H as (st & Hloop & Hm & ->).
  split; [|reflexivity].
  pose proof (ingest_loop_traced _ _ _ [] (ingest_start_traced euid egid) Hloop)
    as Ht.
  destruct st as [i o m]. cbn in Hm. subst m. exact Ht.
Qed.

Lemma last_entry_app (es1 es2 : list (tar.Header * Z)) (e : tar.Header * Z) :
  Forall (fun e' => entry_key e' <> entry_key e) es2 ->
  last_entry (es1 ++ e :: es2) (entry_key e) = Some e.
Proof.
  induction es2 as [|x es2 IH] using rev_ind; intros Hall.
  - rewrite last_entry_snoc, String.eqb_refl. reflexivity.
  - apply Forall_app in Hall as [Hes2 Hx]. apply List.Forall_inv in Hx.
    replace (es1 ++ e :: es2 ++ [x])%list with ((es1 ++ e :: es2) ++ [x])%list
      by (rewrite <- app_assoc; reflexivity).
    rewrite last_entry_snoc.
    destruct (String.eqb_spec (entry_key x) (entry_key e)); [contradiction|].
    apply IH. exact Hes2.
Qed.

Lemma the_node_of (h : Heap) (fi : FileInfo) (o : object) :
  h !! fi = Some o -> the_node h fi = Ok (node_of o).
Proof. intros H. unfold the_node. rewrite H. destruct o; reflexivity. Qed.

(** The node a served index has for the last entry of a key, under any name
    with that key. *)
Lemma served_entry (tr : tar.Reader) (ra : list Byte.byte) (euid egid : Z)
  (s : server) (es1 es2 : list (tar.Header * Z)) (e : tar.Header * Z)
  (nm : string) :
  FromReaderAt tr ra NewBTreeStore [] euid egid = Ok (inl s) ->
  tar.entries tr = (es1 ++ e :: es2)%list ->
  Forall (fun e' => entry_key e' <> entry_key e) es2 ->
  fuseNameToKey nm = entry_key e ->
  exists fi o,
    Get (db s) (fuseNameToKey nm) = Some fi
    /\ mem s !! fi = Some o
    /\ node_of o = node_for e
    /\ is_dirNode o = entry_IsDir e
    /\ the_stat (mem s) fi = Ok (with_Ino (fillStat (fst e)) (snd e)).
Proof.
  intros Hs Hes Hlastk Hnm.
  destruct (FromReaderAt_traced _ _ _ _ _ Hs) as (Ht & _).
  pose proof (last_entry_app es1 es2 e Hlastk) as Hl. rewrite <- Hes in Hl.
  destruct (last_entry_In _ _ _ Hl) as (Hin & _).
  destruct (traced_has _ _ Ht e Hin) as ([fi Hfi] & _). cbn [idx] in Hfi.
  destruct (traced_bound _ _ Ht _ _ Hfi) as [o Ho]. cbn [objs] in Ho.
  destruct (traced_last _ _ Ht _ _ _ _ Hfi Ho Hl) as (Hnode & Hdir).
  exists fi, o. rewrite Hnm.
  split; [exact Hfi|]. split; [exact Ho|]. split; [exact Hnode|].
  split; [exact Hdir|].
  unfold the_stat. rewrite (the_node_of _ _ _ Ho), Hnode. reflexivity.
Qed.

End TracingLoop.

(** ** What a served entry reports *)

(** X10. The node a served index has under any name whose key is that of an
    entry (the name of its header is one) reports what the header of the
    last entry with that key says: its name as the header spells it, its
    size, the data offset as its inode, the header's file mode and owner cut
    to 32 bits, its modification and access times. Its change time is the
    header's modification time: the change time of the header is kept in the
    Stat Record, and no accessor answers it. *)
Theorem served_node_reports_header
  (tr : tar.Reader) (ra : list Byte.byte) (euid egid : Z) (s : server)
  (es1 es2 : list (tar.Header * Z)) (hdr : tar.Header) (pos : Z)
  (nm : string) :
  FromReaderAt tr ra NewBTreeStore [] euid egid = Ok (inl s) ->
  tar.entries tr = (es1 ++ (hdr, pos) :: es2)%list ->
  Forall (fun e => entry_key e <> entry_key (hdr, pos)) es2 ->
  fuseNameToKey nm = entry_key (hdr, pos) ->
  fuseNameToKey (tar.Name hdr) = entry_key (hdr, pos)
  /\ exists fi,
       Get (db s) (fuseNameToKey nm) = Some fi
       /\ Name (mem s) fi = Ok (tar.Name hdr)
       /\ FileInfo_Size (mem s) fi = Ok (tar.Size hdr)
       /\ Inode (mem s) fi = Ok pos
       /\ FileInfo_Mode (mem s) fi = Ok (uint32 (tar.FileMode hdr))
       /\ FileInfo_Owner (mem s) fi
          = Ok {| UID := uint32 (tar.Uid hdr); GID := uint32 (tar.Gid hdr) |}
       /\ ModTime (mem s) fi = Ok (tar.ModTime hdr)
       /\ AccessTime (mem s) fi = Ok (tar.AccessTime hdr)
       /\ ChangeTime (mem s) fi = Ok (tar.ModTime hdr)
       /\ exists st, the_stat (mem s) fi = Ok st
                     /\ Ctime st = tar.ChangeTime hdr.
Proof.
  intros Hs Hes Hlastk Hnm.
  split; [symmetry; apply headerNameEntry_fuseNameToKey|].
  destruct (served_entry _ _ _ _ _ _ _ _ nm Hs Hes Hlastk Hnm)
    as (fi & o & Hfi & Ho & Hnode & _ & Hst).
  cbn [fst snd] in *. exists fi. split; [exact Hfi|].
  unfold Name, FileInfo_Size, Inode, FileInfo_Mode, FileInfo_Owner, ModTime,
    AccessTime, ChangeTime.
  rewrite Hst, (the_node_of _ _ _ Ho), Hnode. cbn [bind].
  repeat (split; [reflexivity|]).
  eexists. split; reflexivity.
Qed.

(** The theorem on the archive of [hello] and its two directories, for the
    directory [foo/quux/], which comes second, looked up as [foo/quux]. *)
Lemma served_node_reports_header_witness :
  exists fi,
    Get (db later_server) (fuseNameToKey "foo/quux") = Some fi
    /\ Name (mem later_server) fi = Ok "foo/quux/"
    /\ FileInfo_Size (mem later_server) fi = Ok 0
    /\ Inode (mem later_server) fi = Ok 2048
    /\ FileInfo_Mode (mem later_server) fi
       = Ok (uint32 (Z.lor 493 os.ModeDir))
    /\ FileInfo_Owner (mem later_server) fi
       = Ok {| UID := uint32 0; GID := uint32 0 |}
    /\ ModTime (mem later_server) fi = Ok 0
    /\ AccessTime (mem later_server) fi = Ok 0
    /\ ChangeTime (mem later_server) fi = Ok 0
    /\ exists st, the_stat (mem later_server) fi = Ok st /\ Ctime st = 0.
Proof.
  apply (served_node_reports_header later_archive example_stream 0 0
           later_server [(hello_header, 512)]
           [(directory_header "foo/", 2560)]
           (directory_header "foo/quux/") 2048 "foo/quux").
  - vm_compute. reflexivity.
  - reflexivity.
  - constructor; [|constructor]. vm_compute. discriminate.
  - reflexivity.
Defined.

Section AttrFacts.

Lemma Perm_range (m : Z) : 0 <= os.Perm m < 512.
Proof.
  unfold os.Perm, os.ModePerm. change 511 with (Z.ones 9).
  rewrite Z.land_ones by lia. apply Z.mod_pos_bound. lia.
Qed.

Lemma uint32_Perm (m : Z) : uint32 (os.Perm m) = os.Perm m.
Proof.
  unfold uint32. apply Z.mod_small. pose proof (Perm_range m). lia.
Qed.

Lemma Perm_uint32 (m : Z) : os.Perm (uint32 m) = os.Perm m.
Proof.
  unfold os.Perm, os.ModePerm. apply Z.bits_inj'. intros i Hi.
  rewrite !Z.land_spec.
  destruct (Z.ltb_spec i 32) as [Hlt|Hge].
  - rewrite uint32_bit by lia. reflexivity.
  - assert (H : Z.testbit 511 i = false).
    { change 511 with (Z.ones 9). apply Z.ones_spec_high. lia. }
    rewrite H, !andb_false_r. reflexivity.
Qed.

Lemma land_pow2 (x i : Z) :
  0 <= i ->
  Z.land x (Z.shiftl 1 i) = if Z.testbit x i then Z.shiftl 1 i else 0.
Proof.
  intros Hi. rewrite Z.shiftl_1_l. apply Z.bits_inj'. intros n Hn.
  rewrite Z.land_spec, Z.pow2_bits_eqb by exact Hi.
  destruct (Z.eqb_spec i n) as [->|Hne].
  - destruct (Z.testbit x n) eqn:E.
    + rewrite Z.pow2_bits_true by exact Hn. reflexivity.
    + rewrite Z.bits_0. reflexivity.
  - rewrite andb_false_r. destruct (Z.testbit x i).
    + rewrite Z.pow2_bits_false by assumption. reflexivity.
    + rewrite Z.bits_0. reflexivity.
Qed.

Lemma symlink_uint32 (m : Z) :
  (Z.land (uint32 m) os.ModeSymlink =? os.ModeSymlink) = Z.testbit m 27.
Proof.
  unfold os.ModeSymlink. rewrite land_pow2 by lia.
  rewrite uint32_bit by lia.
  destruct (Z.testbit m 27); reflexivity.
Qed.

(** [GetAttr] on a path the index holds, by the Stat Record of its node. *)
Lemma GetAttr_stat (s : server) (nm : string) (context : fuse.Context)
  (fi : FileInfo) (st : StatT) :
  Get (db s) (fuseNameToKey nm) = Some fi ->
  the_stat (mem s) fi = Ok st ->
  GetAttr s nm context
  = if permitted st context
    then Ok (Some {| fuse.Attr_Mtime := uint64 (Mtime st);
                     fuse.Attr_Mode :=
                       Z.lor (uint32 (os.Perm (Mode st)))
                             (if os.IsDir (Mode st) then fuse.S_IFDIR
                              else if Z.land (Mode st) os.ModeSymlink
                                      =? os.ModeSymlink
                                   then fuse.S_IFLNK else fuse.S_IFREG);
                     fuse.Attr_Size := uint64 (Size st);
                     fuse.Attr_Uid := UID (StatT_Owner st);
                     fuse.Attr_Gid := GID (StatT_Owner st) |},
             fuse.OK)
    else Ok (None, fuse.EPERM).
Proof.
  intros Hget Hst. unfold GetAttr. rewrite Hget.
  rewrite (checkPermissions_stat _ _ _ _ Hst).
  destruct (permitted st context); cbn [bind negb]; [|reflexivity].
  unfold ModTime, FileInfo_Mode, FileInfo_Size, FileInfo_Owner.
  rewrite Hst. cbn [bind].
  destruct (os.IsDir (Mode st)); [reflexivity|].
  destruct (Z.land (Mode st) os.ModeSymlink =? os.ModeSymlink); reflexivity.
Qed.

End AttrFacts.

(** X11. [GetAttr] for any name whose key is that of an entry of the served
    archive answers from the header of the last entry with that key. When
    the header's mode and owner let the caller in, the attributes are the
    header's modification time and size, its uid and gid cut to 32 bits, and
    a mode made of the nine permission bits and one file type: directory for
    a directory, symbolic link for a symbolic link, regular file for
    everything else; the set-id and sticky bits of the header are not
    reported. When they do not, the answer is permission-denied. *)
Theorem GetAttr_reports_header
  (tr : tar.Reader) (ra : list Byte.byte) (euid egid : Z) (s : server)
  (es1 es2 : list (tar.Header * Z)) (hdr : tar.Header) (pos : Z)
  (nm : string) (context : fuse.Context) :
  FromReaderAt tr ra NewBTreeStore [] euid egid = Ok (inl s) ->
  tar.entries tr = (es1 ++ (hdr, pos) :: es2)%list ->
  Forall (fun e => entry_key e <> entry_key (hdr, pos)) es2 ->
  fuseNameToKey nm = entry_key (hdr, pos) ->
  GetAttr s nm context
  = if permitted (fillStat hdr) context
    then Ok (Some (header_attr hdr), fuse.OK)
    else Ok (None, fuse.EPERM).
Proof.
  intros Hs Hes Hlastk Hnm.
  destruct (served_entry _ _ _ _ _ _ _ _ nm Hs Hes Hlastk Hnm)
    as (fi & o & Hfi & _ & _ & _ & Hst).
  cbn [fst snd] in *.
  rewrite (GetAttr_stat _ _ _ _ _ Hfi Hst).
  change (permitted (with_Ino (fillStat hdr) pos) context)
    with (permitted (fillStat hdr) context).
  destruct (permitted (fillStat hdr) context); [|reflexivity].
  unfold header_attr, file_type. cbn [with_Ino fillStat Mode Mtime Size
                                      StatT_Owner UID GID].
  rewrite Perm_uint32, uint32_Perm, IsDir_uint32, symlink_uint32.
  reflexivity.
Qed.

(** The theorem on the served file [secret], for a caller its mode lets in
    and for one it does not. *)
Lemma GetAttr_reports_header_witness :
  GetAttr secret_server "./secret" (caller 1000 100)
  = Ok (Some (header_attr secret_header), fuse.OK)
  /\ GetAttr secret_server "secret" (caller 2000 2000)
     = Ok (None, fuse.EPERM).
Proof.
  split.
  - apply (GetAttr_reports_header
             {| tar.entries := [(secret_header, 512)]; tar.stops := tar.EOF |}
             example_stream 0 0 secret_server [] [] secret_header 512
             "./secret" (caller 1000 100));
      [vm_compute; reflexivity|reflexivity|constructor|reflexivity].
  - apply (GetAttr_reports_header
             {| tar.entries := [(secret_header, 512)]; tar.stops := tar.EOF |}
             example_stream 0 0 secret_server [] [] secret_header 512
             "secret" (caller 2000 2000));
      [vm_compute; reflexivity|reflexivity|constructor|reflexivity].
Defined.

(** X12. [Open] on any name whose key is that of an entry of the served
    archive returns a handle named as the header spells the entry and
    reading exactly the range of the archive that starts at the entry's data
    offset and is as long as the header says. It does so for every caller and
    every flags value, and for a directory as for a file: neither the mode
    nor the kind of the entry is looked at. *)
Theorem Open_opens_entry_range
  (tr : tar.Reader) (ra : list Byte.byte) (euid egid : Z) (s : server)
  (es1 es2 : list (tar.Header * Z)) (hdr : tar.Header) (pos : Z)
  (nm : string) (flags : Z) (context : fuse.Context) :
  FromReaderAt tr ra NewBTreeStore [] euid egid = Ok (inl s) ->
  tar.entries tr = (es1 ++ (hdr, pos) :: es2)%list ->
  Forall (fun e => entry_key e <> entry_key (hdr, pos)) es2 ->
  fuseNameToKey nm = entry_key (hdr, pos) ->
  Open s nm flags context
  = Ok (Some {| file_name := tar.Name hdr;
                ReaderAt := io.NewSectionReader ra pos (tar.Size hdr) |},
        fuse.OK).
Proof.
  intros Hs Hes Hlastk Hnm.
  destruct (served_entry _ _ _ _ _ _ _ _ nm Hs Hes Hlastk Hnm)
    as (fi & o & Hfi & Ho & Hnode & _ & Hst).
  destruct (FromReaderAt_traced _ _ _ _ _ Hs) as (_ & Hra).
  cbn [fst snd] in *.
  unfold Open. rewrite Hfi. unfold Inode, FileInfo_Size, Name.
  rewrite Hst, (the_node_of _ _ _ Ho), Hnode, Hra. reflexivity.
Qed.

(** The theorem on the archive of [hello] and its two directories: the file
    and the directory [foo/], looked up as [foo], for two callers. *)
Lemma Open_opens_entry_range_witness :
  Open later_server "foo/quux/hello" 0 (caller 1000 1000)
  = Ok (Some {| file_name := "foo/quux/hello";
                ReaderAt := io.NewSectionReader example_stream 512 5 |},
        fuse.OK)
  /\ Open later_server "foo" 2 (caller 0 0)
     = Ok (Some {| file_name := "foo/";
                   ReaderAt := io.NewSectionReader example_stream 2560 0 |},
           fuse.OK).
Proof.
  split.
  - apply (Open_opens_entry_range later_archive example_stream 0 0
             later_server []
             [(directory_header "foo/quux/", 2048);
              (directory_header "foo/", 2560)]
             hello_header 512 "foo/quux/hello" 0 (caller 1000 1000)).
    + vm_compute. reflexivity.
    + reflexivity.
    + constructor; [|constructor; [|constructor]]; vm_compute; discriminate.
    + reflexivity.
  - apply (Open_opens_entry_range later_archive example_stream 0 0
             later_server
             [(hello_header, 512); (directory_header "foo/quux/", 2048)] []
             (directory_header "foo/") 2560 "foo" 2 (caller 0 0)).
    + vm_compute. reflexivity.
    + reflexivity.
    + constructor.
    + reflexivity.
Defined.

(** ** The window a handle reads *)

Section WindowFacts.

Lemma drop_take_drop {A : Type} (n m : nat) (l : list A) :
  (n <= m)%nat -> (drop n (take m l) ++ drop m l)%list = drop n l.
Proof.
  intros Hle. rewrite <- (take_drop m l) at 3.
  destruct (Nat.le_gt_cases m (length l)) as [Hm|Hm].
  - rewrite drop_app_le by (rewrite length_take; lia). reflexivity.
  - rewrite take_ge by lia. rewrite (drop_ge l m) by lia.
    rewrite !app_nil_r. reflexivity.
Qed.

(** A positioned read of the archive at a position that is not negative. *)
Lemma ReadAt_from (src p : list Byte.byte) (off : Z) :
  0 <= off ->
  io.ReadAt src p off
  = if Z.of_nat (length src) <=? off then (0, Some io.EOF, p)
    else
      let n := Nat.min (length p) (length src - Z.to_nat off) in
      (Z.of_nat n,
       if (n <? length p)%nat then Some io.EOF else None,
       (take n (drop (Z.to_nat off) src) ++ drop n p)%list).
Proof.
  intros H0. unfold io.ReadAt.
  destruct (Z.ltb_spec off 0); [lia|].
  destruct (Z.of_nat (length src) <=? off); [reflexivity|].
  rewrite length_drop. reflexivity.
Qed.

(** The section of an entry that fits the range of offsets. *)
Lemma NewSectionReader_range (src : list Byte.byte) (ino sz : Z) :
  0 <= ino -> 0 <= sz -> ino + sz <= maxint64 ->
  io.NewSectionReader src ino sz
  = {| io.r := src; io.base := ino; io.limit := ino + sz |}
  /\ io.Size (io.NewSectionReader src ino sz) = sz.
Proof.
  intros Hino Hsz Hmax. unfold maxint64 in Hmax.
  assert (E : io.NewSectionReader src ino sz
              = {| io.r := src; io.base := ino; io.limit := ino + sz |}).
  { unfold io.NewSectionReader, maxint64.
    rewrite (int64_small (2 ^ 63 - 1 - sz)) by lia.
    rewrite (int64_small (sz + ino)) by lia.
    destruct (Z.leb_spec ino (2 ^ 63 - 1 - sz)); [|lia].
    f_equal. lia. }
  split; [exact E|]. rewrite E. unfold io.Size. cbn [io.base io.limit].
  replace (ino + sz - ino) with sz by lia. apply int64_small. lia.
Qed.

(** What the section reader of an entry does with a buffer, for an offset
    within the entry. *)
Lemma SectionReader_ReadAt_window (src p : list Byte.byte) (ino sz off : Z) :
  0 <= ino -> 0 <= sz -> ino + sz <= maxint64 -> 0 <= off < sz ->
  io.SectionReader_ReadAt (io.NewSectionReader src ino sz) p off
  = if Z.of_nat (length src) <=? ino + off then (0, Some io.EOF, p)
    else
      let n := Z.to_nat (Z.min (Z.of_nat (length p))
                          (Z.min (sz - off)
                                 (Z.of_nat (length src) - (ino + off)))) in
      (Z.of_nat n,
       if (n <? length p)%nat then Some io.EOF else None,
       (take n (drop (Z.to_nat (ino + off)) src) ++ drop n p)%list).
Proof.
  intros Hino Hsz Hmax Hoff.
  destruct (NewSectionReader_range src ino sz Hino Hsz Hmax) as (E & ESize).
  unfold io.SectionReader_ReadAt. rewrite ESize, E.
  cbn [io.r io.base io.limit]. unfold maxint64 in Hmax.
  destruct (Z.ltb_spec off 0); [lia|].
  destruct (Z.leb_spec sz off); [lia|]. cbn [orb].
  rewrite (int64_small (off + ino)) by lia.
  replace (off + ino) with (ino + off) by lia.
  replace (ino + sz - (ino + off)) with (sz - off) by lia.
  rewrite (int64_small (sz - off)) by lia.
  destruct (Z.ltb_spec (sz - off) (Z.of_nat (length p))) as [Hshort|Hlong].
  - rewrite ReadAt_from by lia.
    destruct (Z.leb_spec (Z.of_nat (length src)) (ino + off)) as [Hend|Hin].
    + rewrite take_drop. reflexivity.
    + cbv zeta. rewrite length_take.
      assert (En : Nat.min (Nat.min (Z.to_nat (sz - off)) (length p))
                           (length src - Z.to_nat (ino + off))
                   = Z.to_nat (Z.min (Z.of_nat (length p))
                                 (Z.min (sz - off)
                                    (Z.of_nat (length src) - (ino + off)))))
        by lia.
      rewrite En.
      set (n := Z.to_nat (Z.min (Z.of_nat (length p))
                            (Z.min (sz - off)
                               (Z.of_nat (length src) - (ino + off))))).
      assert (Hn : (n <= Z.to_nat (sz - off))%nat) by lia.
      assert (Hlt1 : (n <? Nat.min (Z.to_nat (sz - off)) (length p))%nat
                     = (n <? Z.to_nat (sz - off))%nat).
      { destruct (Nat.ltb_spec n (Nat.min (Z.to_nat (sz - off)) (length p)));
          destruct (Nat.ltb_spec n (Z.to_nat (sz - off))); lia || reflexivity. }
      assert (Hlt2 : (n <? length p)%nat = true) by (apply Nat.ltb_lt; lia).
      rewrite Hlt2, <- app_assoc, (drop_take_drop n _ p Hn).
      destruct (n <? Nat.min (Z.to_nat (sz - off)) (length p))%nat;
        reflexivity.
  - rewrite ReadAt_from by lia.
    destruct (Z.leb_spec (Z.of_nat (length src)) (ino + off)) as [Hend|Hin];
      [reflexivity|].
    cbv zeta.
    assert (En : Nat.min (length p) (length src - Z.to_nat (ino + off))
                 = Z.to_nat (Z.min (Z.of_nat (length p))
                               (Z.min (sz - off)
                                  (Z.of_nat (length src) - (ino + off)))))
      by lia.
    rewrite En. reflexivity.
Qed.

End WindowFacts.

(** X13. A handle on the range of an entry never reads outside it, and
    never fails on an archive held in memory. For a handle on the [sz] bytes
    from [ino] on, a read of a buffer at offset [off] reports success; what
    it delivers are the archive's bytes from [ino + off] on, as many as fit
    the buffer, the rest of the entry and the rest of the archive, followed
    by the part of the buffer left as it was; and when nothing can be
    delivered (an offset that is negative or at or past the end of the
    entry, an archive that ends before the position, an empty buffer) the
    result is empty. *)
Theorem Read_stays_within_entry
  (f : file) (src p : list Byte.byte) (ino sz off : Z) :
  ReaderAt f = io.NewSectionReader src ino sz ->
  0 <= ino -> 0 <= sz -> ino + sz <= maxint64 ->
  let n := if off <? 0 then 0%nat
           else Z.to_nat (Z.min (Z.of_nat (length p))
                            (Z.min (sz - off)
                               (Z.of_nat (length src) - (ino + off)))) in
  exists rr,
    Read f p off = (Some rr, fuse.OK)
    /\ (Z.of_nat n <= Z.max 0 (sz - off))
    /\ fuse.ReadResult_Bytes rr
       = if (n =? 0)%nat then []
         else (take n (drop (Z.to_nat (ino + off)) src) ++ drop n p)%list.
Proof.
  intros Hf Hino Hsz Hmax n. unfold Read. rewrite Hf.
  destruct (Z.ltb_spec off 0) as [Hneg|Hpos].
  { subst n. exists fuse.eofReadResult.
    unfold io.SectionReader_ReadAt.
    destruct (Z.ltb_spec off 0); [|lia]. cbn [orb].
    split; [reflexivity|]. split; [lia|reflexivity]. }
  destruct (Z.leb_spec sz off) as [Hpast|Hin].
  { assert (En : n = 0%nat) by (subst n; lia). rewrite En.
    exists fuse.eofReadResult.
    destruct (NewSectionReader_range src ino sz Hino Hsz Hmax) as (_ & ESize).
    unfold io.SectionReader_ReadAt. rewrite ESize.
    destruct (Z.leb_spec sz off); [|lia]. rewrite orb_true_r.
    split; [reflexivity|]. split; [lia|reflexivity]. }
  rewrite SectionReader_ReadAt_window by lia.
  destruct (Z.leb_spec (Z.of_nat (length src)) (ino + off)) as [Hend|Havail].
  { assert (En : n = 0%nat) by (subst n; lia). rewrite En.
    exists fuse.eofReadResult. split; [reflexivity|].
    split; [lia|reflexivity]. }
  cbv zeta. fold n.
  assert (Hle : Z.of_nat n <= Z.max 0 (sz - off)) by (subst n; lia).
  destruct (Nat.ltb_spec n (length p)) as [Hshort|Hfull].
  - destruct (Z.leb_spec (Z.of_nat n) 0) as [Hz|Hnz].
    + exists fuse.eofReadResult. split; [reflexivity|]. split; [exact Hle|].
      destruct (Nat.eqb_spec n 0); [reflexivity|lia].
    + eexists. split; [reflexivity|]. split; [exact Hle|].
      destruct (Nat.eqb_spec n 0); [lia|reflexivity].
  - eexists. split; [reflexivity|]. split; [exact Hle|].
    destruct (Nat.eqb_spec n 0) as [Ez|]; [|reflexivity].
    cbn [fuse.ReadResult_Bytes]. rewrite Ez, take_0, drop_0. cbn [app].
    apply nil_length_inv. lia.
Qed.

(** The theorem on the handle of the five bytes of [secret]: a read that
    crosses the end of the entry, one at its end, and one before its
    beginning. *)
Lemma Read_stays_within_entry_witness :
  (exists rr,
     Read secret_file (repeat "255"%byte 8) 2 = (Some rr, fuse.OK)
     /\ fuse.ReadResult_Bytes rr
        = ["l"%byte; "l"%byte; "o"%byte;
           "255"%byte; "255"%byte; "255"%byte; "255"%byte; "255"%byte])
  /\ (exists rr,
        Read secret_file (repeat "255"%byte 8) 5 = (Some rr, fuse.OK)
        /\ fuse.ReadResult_Bytes rr = [])
  /\ (exists rr,
        Read secret_file (repeat "255"%byte 8) (-1) = (Some rr, fuse.OK)
        /\ fuse.ReadResult_Bytes rr = []).
Proof.
  split; [|split].
  - destruct (Read_stays_within_entry secret_file example_stream
                (repeat "255"%byte 8) 512 5 2 eq_refl)
      as (rr & Hr & _ & Hb); [lia|lia|vm_compute; congruence|].
    exists rr. split; [exact Hr|exact Hb].
  - destruct (Read_stays_within_entry secret_file example_stream
                (repeat "255"%byte 8) 512 5 5 eq_refl)
      as (rr & Hr & _ & Hb); [lia|lia|vm_compute; congruence|].
    exists rr. split; [exact Hr|exact Hb].
  - destruct (Read_stays_within_entry secret_file example_stream
                (repeat "255"%byte 8) 512 5 (-1) eq_refl)
      as (rr & Hr & _ & Hb); [lia|lia|vm_compute; congruence|].
    exists rr. split; [exact Hr|exact Hb].
Defined.

(** ** Listings, by the headers of the archive *)

Section ListingFacts.

Lemma NoDup_map_In {A B : Type} (f : A -> B) (l : list A) (x y : A) :
  NoDup (map f l) -> In x l -> In y l -> f x = f y -> x = y.
Proof.
  induction l as [|a l IH]; cbn [map]; intros Hnd Hx Hy E; [destruct Hx|].
  apply NoDup_cons in Hnd as [Ha Hnd].
  assert (Hout : forall z, In z l -> f a <> f z).
  { intros z Hz Ez. apply Ha. rewrite Ez. apply list_elem_of_In.
    apply List.in_map. exact Hz. }
  destruct Hx as [<-|Hx], Hy as [<-|Hy].
  - reflexivity.
  - exfalso. exact (Hout _ Hy E).
  - exfalso. exact (Hout _ Hx (eq_sym E)).
  - apply IH; assumption.
Qed.

Lemma last_entry_unique (done : list (tar.Header * Z)) (e : tar.Header * Z) :
  NoDup (map entry_key done) -> In e done ->
  last_entry done (entry_key e) = Some e.
Proof.
  intros Hnd He. destruct (last_entry_is_Some done e He) as [e' He'].
  rewrite He'. f_equal.
  destruct (last_entry_In _ _ _ He') as (Hin & Hk).
  exact (NoDup_map_In entry_key done e' e Hnd Hin He Hk).
Qed.

Lemma filter_map_comm {A B : Type} (f : A -> B) (P : B -> bool) (l : list A) :
  List.filter P (map f l) = map f (List.filter (fun x => P (f x)) l).
Proof.
  induction l as [|a l IH]; [reflexivity|]. cbn [map List.filter].
  destruct (P (f a)); cbn [map]; rewrite IH; reflexivity.
Qed.

Lemma uint32_uint32 (z : Z) : uint32 (uint32 z) = uint32 z.
Proof. unfold uint32. apply Z.mod_mod. lia. Qed.

(** The node under a directory's mode is a directory node. *)
Lemma traced_directory (st : ingest) (done : list (tar.Header * Z))
  (k : string) (fi : FileInfo) (sta : StatT) :
  traced st done ->
  Get (idx st) k = Some fi ->
  the_stat (objs st) fi = Ok sta ->
  os.IsDir (Mode sta) = true ->
  exists nd es, objs st !! fi = Some (obj_dirNode nd es) /\ stat nd = Some sta.
Proof.
  intros Ht Hg Hst Hdir.
  destruct (traced_bound _ _ Ht _ _ Hg) as [o Ho].
  unfold the_stat in Hst. rewrite (the_node_of _ _ _ Ho) in Hst.
  cbn [bind] in Hst.
  destruct (stat (node_of o)) as [sta'|] eqn:Es; [|discriminate].
  injection Hst as ->.
  destruct o as [n|n es]; [|exists n, es; auto].
  exfalso. destruct (last_entry done k) as [e0|] eqn:El.
  - destruct (traced_last _ _ Ht _ _ _ _ Hg Ho El) as (Hn & Hd).
    cbn [node_of is_dirNode] in *. rewrite Hn in Es. cbn in Es.
    injection Es as <-. cbn [Mode with_Ino fillStat] in Hdir.
    rewrite IsDir_uint32 in Hdir. unfold entry_IsDir in Hd. congruence.
  - destruct (traced_unnamed _ _ Ht _ _ _ Hg Ho El) as (Hd & _).
    discriminate Hd.
Qed.

(** The entries made for children that are each the last entry of their
    key. *)
Lemma dir_entries_headers (st : ingest) (done : list (tar.Header * Z))
  (l : list (tar.Header * Z)) (es : list FileInfo) :
  traced st done ->
  (forall e, In e l -> last_entry done (entry_key e) = Some e) ->
  map Some es = map (fun e => Get (idx st) (entry_key e)) l ->
  dir_entries (objs st) es = Ok (map header_dirent l).
Proof.
  intros Ht. revert es. induction l as [|e l IH]; intros es Hlast Hmap.
  - destruct es; [reflexivity|discriminate].
  - destruct es as [|c es]; [discriminate|]. cbn [map] in Hmap.
    injection Hmap as Hc Hes. symmetry in Hc.
    destruct (traced_bound _ _ Ht _ _ Hc) as [o Ho].
    destruct (traced_last _ _ Ht _ _ _ _ Hc Ho (Hlast e (or_introl eq_refl)))
      as (Hn & _).
    cbn [dir_entries]. unfold Name, FileInfo_Mode, the_stat.
    rewrite (the_node_of _ _ _ Ho), Hn. cbn [bind node_for name stat].
    rewrite (IH es); [|intros e' He'; apply Hlast; right; exact He'|exact Hes].
    cbn [bind map Mode with_Ino fillStat]. unfold header_dirent.
    rewrite uint32_uint32. reflexivity.
Qed.

End ListingFacts.

(** X14. When the entries of the archive have distinct keys, none of them
    the root's, [OpenDir] on a directory whose mode lets the caller in lists
    exactly the entries of the archive whose parent path is the directory's,
    in the order the archive has them: each with the last element of its
    header's name and with its header's file mode cut to 32 bits. *)
Theorem OpenDir_lists_archive_order
  (tr : tar.Reader) (ra : list Byte.byte) (euid egid : Z) (s : server)
  (nm : string) (context : fuse.Context) (dir : FileInfo) (st : StatT) :
  FromReaderAt tr ra NewBTreeStore [] euid egid = Ok (inl s) ->
  NoDup (map entry_key (tar.entries tr)) ->
  ~ In "/" (map entry_key (tar.entries tr)) ->
  Get (db s) (fuseNameToKey nm) = Some dir ->
  the_stat (mem s) dir = Ok st ->
  os.IsDir (Mode st) = true ->
  permitted st context = true ->
  OpenDir s nm context
  = Ok (Some (map header_dirent
                (entries_under (tar.entries tr) (fuseNameToKey nm))),
        fuse.OK).
Proof.
  intros Hs Hnd Hroot Hget Hst Hdir Hperm.
  destruct (FromReaderAt_traced _ _ _ _ _ Hs) as (Ht & _).
  destruct (traced_directory _ _ _ _ _ Ht Hget Hst Hdir)
    as (nd & es & Hobj & Hstat).
  cbn [objs] in Hobj.
  rewrite (OpenDir_dirNode s nm context dir nd st es Hget Hobj Hstat Hdir Hperm).
  pose proof Hs as Hs'.
  apply FromReaderAt_loop in Hs' as (st' & Hloop & _ & ->).
  cbn [db mem Newserver] in *.
  assert (Hl : linked st' (map entry_key (tar.entries tr))).
  { apply (ingest_loop_linked (tar.entries tr) _ st' []
             (ingest_start_linked euid egid)); [exact Hnd|exact Hroot|exact Hloop]. }
  assert (Hheld : held (objs st') dir = Some es)
    by (unfold held; rewrite Hobj; reflexivity).
  pose proof (linked_held _ _ Hl _ _ _ Hget Hheld) as Hmap.
  unfold children_of in Hmap. rewrite filter_map_comm, map_map in Hmap.
  assert (Hd : dir_entries (objs st') es
               = Ok (map header_dirent
                       (entries_under (tar.entries tr) (fuseNameToKey nm)))).
  { apply (dir_entries_headers _ _ _ _ Ht); [|exact Hmap].
    intros e He. apply List.filter_In in He as [He _].
    apply last_entry_unique; assumption. }
  rewrite Hd. reflexivity.
Qed.

(** The theorem on the directory whose children the archive has in
    descending order. *)
Lemma OpenDir_lists_archive_order_witness :
  OpenDir descending_server "foo" (caller 1000 1000)
  = Ok (Some [ {| fuse.DirEntry_Name := "b"; fuse.DirEntry_Mode := 420 |};
               {| fuse.DirEntry_Name := "a"; fuse.DirEntry_Mode := 420 |} ],
        fuse.OK).
Proof.
  apply (OpenDir_lists_archive_order descending_archive [] 0 0
           descending_server "foo" (caller 1000 1000) 1%nat
           (with_Ino (fillStat (directory_header "foo/")) 512)).
  - vm_compute. reflexivity.
  - apply (bool_decide_unpack _). vm_compute. exact I.
  - intros H. vm_compute in H. intuition discriminate.
  - reflexivity.
  - reflexivity.
  - reflexivity.
  - reflexivity.
Defined.

(** ** When the loop panics *)

Section PanicFacts.

Lemma ingest_loop_app (a b : list (tar.Header * Z)) (st : ingest) :
  ingest_loop (a ++ b) st = let! st1 := ingest_loop a st in ingest_loop b st1.
Proof.
  revert st. induction a as [|[hdr pos] a IH]; intros st; [reflexivity|].
  cbn [app ingest_loop].
  destruct (ingest_entry st hdr pos) as [st1|p]; cbn [bind]; [apply IH|reflexivity].
Qed.

(** The node under a key whose last entry is not a directory is a plain
    node. *)
Lemma traced_file (st : ingest) (done : list (tar.Header * Z)) (k : string)
  (f : tar.Header * Z) :
  traced st done -> last_entry done k = Some f -> entry_IsDir f = false ->
  exists fi n, Get (idx st) k = Some fi /\ objs st !! fi = Some (obj_node n).
Proof.
  intros Ht Hl Hf. destruct (last_entry_In _ _ _ Hl) as (Hin & Hk).
  destruct (traced_has _ _ Ht f Hin) as ([fi Hfi] & _). rewrite Hk in Hfi.
  destruct (traced_bound _ _ Ht _ _ Hfi) as [o Ho].
  destruct (traced_last _ _ Ht _ _ _ _ Hfi Ho Hl) as (_ & Hd).
  rewrite Hf in Hd. destruct o as [n|n es]; [|discriminate].
  exists fi, n. auto.
Qed.

(** And a plain node is under a key only when the last entry of the key is
    not a directory. *)
Lemma traced_plain (st : ingest) (done : list (tar.Header * Z)) (k : string)
  (fi : FileInfo) (n : node) :
  traced st done -> Get (idx st) k = Some fi ->
  objs st !! fi = Some (obj_node n) ->
  exists f, last_entry done k = Some f /\ entry_IsDir f = false.
Proof.
  intros Ht Hg Ho. destruct (last_entry done k) as [f|] eqn:El.
  - exists f. split; [reflexivity|].
    destruct (traced_last _ _ Ht _ _ _ _ Hg Ho El) as (_ & Hd).
    symmetry. exact Hd.
  - destruct (traced_unnamed _ _ Ht _ _ _ Hg Ho El) as (Hd & _).
    discriminate Hd.
Qed.

(** The parent path of an entry, looked up once the entry is filed, in a
    heap that differs from the old one at the entry's node only. *)
Lemma parent_lookup (st : ingest) (done : list (tar.Header * Z))
  (e : tar.Header * Z) (nodeInfo : FileInfo) (h1 : Heap) (m1 : gset string)
  (q : FileInfo) :
  traced st done ->
  entry_node st (fst e) (snd e) = Ok (nodeInfo, h1, m1) ->
  filepath.Dir (entry_key e) <> entry_key e ->
  Get (idx st) (filepath.Dir (entry_key e)) = Some q ->
  h1 !! q = objs st !! q.
Proof.
  intros Ht He Hne Hq.
  destruct (entry_node_shape _ _ _ _ _ _ He) as (Hh1 & Hcase1).
  apply Hh1. intros ->.
  replace (fst e, snd e) with e in Hcase1 by (destruct e; reflexivity).
  destruct Hcase1 as [(Hnone & _)|(_ & Hgk & _)].
  - destruct (traced_bound _ _ Ht _ _ Hq) as [x Hx]. congruence.
  - apply Hne. exact (traced_inj _ _ Ht _ _ _ Hq Hgk).
Qed.

(** A turn of the loop panics only on a failed type assertion, and only
    when the last entry of the key of a directory entry, or of the parent
    path of any entry, is not a directory. *)
Lemma ingest_entry_Panic (st : ingest) (done : list (tar.Header * Z))
  (hdr : tar.Header) (pos : Z) (p : panic) :
  traced st done -> ingest_entry st hdr pos = Panic p ->
  p = type_assertion
  /\ exists f, entry_IsDir f = false
               /\ ((entry_IsDir (hdr, pos) = true
                    /\ last_entry done (entry_key (hdr, pos)) = Some f)
                   \/ last_entry (done ++ [(hdr, pos)])
                                 (filepath.Dir (entry_key (hdr, pos)))
                      = Some f).
Proof.
  intros Ht. unfold ingest_entry.
  set (e := (hdr, pos)). change (headerNameEntry (tar.Name hdr)) with (entry_key e).
  set (k := entry_key e). set (pk := filepath.Dir k).
  destruct (entry_node st hdr pos) as [[[nodeInfo h1] m1]|p0] eqn:He;
    cbn [bind].
  - destruct (entry_node_shape _ _ _ _ _ _ He) as (Hh1 & Hcase1).
    fold e k in Hcase1.
    unfold parent_node. rewrite Get_Add.
    destruct (String.eqb_spec k pk) as [Ek|Nk].
    + (* the entry is its own parent *)
      destruct (h1 !! nodeInfo) as [[n|n es]|] eqn:Hn; cbn [bind];
        try discriminate.
      * intros H. injection H as <-. split; [reflexivity|].
        exists e. rewrite last_entry_snoc. fold k pk.
        destruct (String.eqb_spec k pk) as [_|]; [|contradiction].
        split; [|right; reflexivity].
        destruct Hcase1 as [(_ & Ho & _)|(_ & _ & (n0 & es0 & _ & Ho) & _)];
          [|congruence].
        assert (Hobj : object_for e [] = obj_node n) by congruence.
        unfold object_for in Hobj. destruct (entry_IsDir e); [discriminate|].
        reflexivity.
      * exfalso.
        destruct Hcase1 as [(_ & Ho & _)|(_ & _ & (n0 & es0 & _ & Ho) & _)];
          congruence.
    + destruct (Get (idx st) pk) as [q|] eqn:Hq.
      * assert (Hq1 : h1 !! q = objs st !! q).
        { apply (parent_lookup st done e nodeInfo h1 m1 q Ht He);
            [intros E; apply Nk; symmetry; exact E|exact Hq]. }
        rewrite Hq1. destruct (traced_bound _ _ Ht _ _ Hq) as [o Ho].
        rewrite Ho. destruct o as [n|n es]; cbn [bind]; [|discriminate].
        intros H. injection H as <-. split; [reflexivity|].
        destruct (traced_plain _ _ _ _ _ Ht Hq Ho) as (f & Hl & Hf).
        exists f. split; [exact Hf|]. right.
        rewrite last_entry_snoc. fold k pk.
        destruct (String.eqb_spec k pk); [contradiction|exact Hl].
      * unfold alloc. cbn [bind]. discriminate.
  - intros H. injection H as <-. unfold entry_node in He.
    change (headerNameEntry (tar.Name hdr)) with k in He.
    change (os.IsDir (tar.FileMode hdr)) with (entry_IsDir e) in He.
    destruct (entry_IsDir e) eqn:Ed;
      [|unfold alloc in He; cbv beta iota in He; discriminate].
    destruct (Get (idx st) k) as [dirInfo|] eqn:Hg;
      [|unfold alloc in He; cbv beta iota in He; discriminate].
    destruct (traced_bound _ _ Ht _ _ Hg) as [o Ho]. rewrite Ho in He.
    destruct o as [n|n es]; [|discriminate].
    injection He as <-. split; [reflexivity|].
    destruct (traced_plain _ _ _ _ _ Ht Hg Ho) as (f & Hl & Hf).
    exists f. split; [exact Hf|]. left. split; [reflexivity|exact Hl].
Qed.

(** And in these cases it does panic. *)
Lemma ingest_entry_panics (st : ingest) (done : list (tar.Header * Z))
  (hdr : tar.Header) (pos : Z) (f : tar.Header * Z) :
  traced st done ->
  entry_IsDir f = false ->
  (entry_IsDir (hdr, pos) = true
   /\ last_entry done (entry_key (hdr, pos)) = Some f)
  \/ last_entry (done ++ [(hdr, pos)]) (filepath.Dir (entry_key (hdr, pos)))
     = Some f ->
  ingest_entry st hdr pos = Panic type_assertion.
Proof.
  intros Ht Hf Hcond.
  destruct (ingest_entry st hdr pos) as [st'|p] eqn:Hstep.
  2:{ destruct (ingest_entry_Panic _ _ _ _ _ Ht Hstep) as (-> & _).
      reflexivity. }
  exfalso.
  destruct (ingest_entry_Ok _ _ _ _ Hstep)
    as (nodeInfo & h1 & m1 & parent & h2 & m2 & He & Hp & _).
  destruct (entry_node_shape _ _ _ _ _ _ He) as (Hh1 & Hcase1).
  set (e := (hdr, pos)) in *. set (k := entry_key e) in *.
  set (pk := filepath.Dir k) in *.
  destruct Hcond as [(Hd & Hl)|Hl].
  - destruct (traced_file _ _ _ _ Ht Hl Hf) as (fi & n & Hg & Ho).
    destruct Hcase1 as [(_ & _ & Hfresh & _)|(_ & Hgk & (n0 & es0 & Ho0 & _) & _)].
    + rewrite (Hfresh Hd) in Hg. discriminate.
    + congruence.
  - rewrite last_entry_snoc in Hl. fold k pk in Hl.
    unfold parent_node in Hp. rewrite Get_Add in Hp.
    destruct (String.eqb_spec k pk) as [Ek|Nk].
    + injection Hl as <-.
      destruct Hcase1 as [(_ & Ho & _)|(Hd & _)]; [|congruence].
      rewrite Ho in Hp. unfold object_for in Hp. rewrite Hf in Hp.
      discriminate.
    + destruct (traced_file _ _ _ _ Ht Hl Hf) as (q & n & Hq & Ho).
      rewrite Hq in Hp.
      rewrite (parent_lookup st done e nodeInfo h1 m1 q Ht He) in Hp;
        [|intros E; apply Nk; symmetry; exact E|exact Hq].
      rewrite Ho in Hp. discriminate.
Qed.

(** The loop, from a traced state, panics only in the way a turn does, at
    some entry of what it reads. *)
Lemma ingest_loop_Panic (es : list (tar.Header * Z)) (st : ingest)
  (done : list (tar.Header * Z)) (p : panic) :
  traced st done -> ingest_loop es st = Panic p ->
  p = type_assertion
  /\ exists es1 c es2 f,
       es = (es1 ++ c :: es2)%list
       /\ entry_IsDir f = false
       /\ ((entry_IsDir c = true
            /\ last_entry (done ++ es1) (entry_key c) = Some f)
           \/ last_entry ((done ++ es1) ++ [c]) (filepath.Dir (entry_key c))
              = Some f).
Proof.
  revert st done. induction es as [|[hdr pos] es IH]; intros st done Ht;
    cbn [ingest_loop]; [discriminate|].
  destruct (ingest_entry st hdr pos) as [st1|p1] eqn:Hstep; cbn [bind].
  - intros Hloop.
    pose proof (ingest_entry_traced _ _ _ _ _ Ht Hstep) as Ht1.
    destruct (IH _ _ Ht1 Hloop) as (-> & es1 & c & es2 & f & -> & Hf & Hc).
    split; [reflexivity|].
    exists ((hdr, pos) :: es1), c, es2, f. split; [reflexivity|].
    split; [exact Hf|].
    replace (done ++ (hdr, pos) :: es1)%list
      with ((done ++ [(hdr, pos)]) ++ es1)%list
      by (rewrite <- app_assoc; reflexivity).
    exact Hc.
  - intros H. injection H as <-.
    destruct (ingest_entry_Panic _ _ _ _ _ Ht Hstep) as (-> & f & Hf & Hc).
    split; [reflexivity|].
    exists [], (hdr, pos), es, f. split; [reflexivity|]. split; [exact Hf|].
    rewrite app_nil_r. exact Hc.
Qed.

Lemma ingest_loop_panics (es1 es2 : list (tar.Header * Z))
  (c f : tar.Header * Z) (st : ingest) (done : list (tar.Header * Z)) :
  traced st done ->
  entry_IsDir f = false ->
  (entry_IsDir c = true /\ last_entry (done ++ es1) (entry_key c) = Some f)
  \/ last_entry ((done ++ es1) ++ [c]) (filepath.Dir (entry_key c)) = Some f ->
  ingest_loop (es1 ++ c :: es2) st = Panic type_assertion.
Proof.
  intros Ht Hf Hc. rewrite ingest_loop_app.
  destruct (ingest_loop es1 st) as [st1|p] eqn:H1; cbn [bind].
  - pose proof (ingest_loop_traced _ _ _ _ Ht H1) as Ht1.
    destruct c as [hdr pos]. cbn [ingest_loop].
    rewrite (ingest_entry_panics _ _ _ _ f Ht1 Hf Hc). reflexivity.
  - destruct (ingest_loop_Panic _ _ _ _ Ht H1) as (-> & _). reflexivity.
Qed.

End PanicFacts.

(** X16. [FromReaderAt] panics exactly when the archive puts something at or
    beneath the path of an entry that is not a directory: when, at some
    entry, the last entry before it with its parent path as key (the entry
    itself, for the root path) is not a directory, or when the entry is a
    directory and the last entry before it with its own key is not one. The
    panic is then the failed type assertion on the node found; no nil
    pointer is ever dereferenced during ingestion. *)
Theorem FromReaderAt_panics_exactly
  (tr : tar.Reader) (ra : list Byte.byte) (euid egid : Z) :
  ((exists p, FromReaderAt tr ra NewBTreeStore [] euid egid = Panic p)
   <-> exists es1 c es2 f,
         tar.entries tr = (es1 ++ c :: es2)%list
         /\ entry_IsDir f = false
         /\ ((entry_IsDir c = true /\ last_entry es1 (entry_key c) = Some f)
             \/ last_entry (es1 ++ [c]) (filepath.Dir (entry_key c)) = Some f))
  /\ (forall p, FromReaderAt tr ra NewBTreeStore [] euid egid = Panic p ->
                p = type_assertion).
Proof.
  assert (Hloop : forall p,
            FromReaderAt tr ra NewBTreeStore [] euid egid = Panic p ->
            ingest_loop (tar.entries tr)
                        (ingest_start NewBTreeStore [] euid egid) = Panic p).
  { intros p. unfold FromReaderAt.
    destruct (ingest_loop _ _) as [st|p0]; cbn [bind]; [|congruence].
    destruct (tar.stops tr); [|discriminate].
    destruct (negb _); discriminate. }
  split; [split|].
  - intros [p Hp]. apply Hloop in Hp.
    destruct (ingest_loop_Panic _ _ [] _ (ingest_start_traced euid egid) Hp)
      as (_ & es1 & c & es2 & f & Hes & Hf & Hc).
    exists es1, c, es2, f. auto.
  - intros (es1 & c & es2 & f & Hes & Hf & Hc). exists type_assertion.
    unfold FromReaderAt. rewrite Hes.
    rewrite (ingest_loop_panics es1 es2 c f _ []
               (ingest_start_traced euid egid) Hf Hc).
    reflexivity.
  - intros p Hp. apply Hloop in Hp.
    destruct (ingest_loop_Panic _ _ [] _ (ingest_start_traced euid egid) Hp)
      as (-> & _).
    reflexivity.
Qed.

(** ** When ingestion succeeds *)

Section SuccessFacts.

Lemma size_elements_nil (m : gset string) :
  (size m =? 0)%nat = true <-> elements m = [].
Proof.
  rewrite Nat.eqb_eq. unfold size, set_size. cbn.
  destruct (elements m); cbn; split; congruence || discriminate.
Qed.

Lemma loop_missing (es : list (tar.Header * Z)) (st : ingest) (euid egid : Z)
  (k : string) :
  ingest_loop es (ingest_start NewBTreeStore [] euid egid) = Ok st ->
  k ∈ missingDirs st <-> undescribed es k.
Proof.
  intros Hloop.
  pose proof (ingest_loop_traced _ _ _ [] (ingest_start_traced euid egid) Hloop)
    as Ht.
  exact (traced_missing _ _ Ht k).
Qed.

End SuccessFacts.

(** X17. When the archive is read to its end without a panic, the paths
    [FromReaderAt] finds missing are exactly those that are the parent path
    of some entry, are not the root, and are the key of no directory entry
    anywhere in the archive, before or after. With none of them the server is
    returned; otherwise the error, whose message lists each of them once. *)
Theorem missing_directories_exactly
  (tr : tar.Reader) (ra : list Byte.byte) (euid egid : Z)
  (r : server + error) :
  FromReaderAt tr ra NewBTreeStore [] euid egid = Ok r ->
  tar.stops tr = tar.EOF ->
  exists listed,
    NoDup listed
    /\ (forall k, In k listed <-> undescribed (tar.entries tr) k)
    /\ ((listed = [] /\ exists s, r = inl s)
        \/ (listed <> []
            /\ r = inr ("missing directory entries: "
                        ++ Strings.Join listed ","))).
Proof.
  intros Hr Hstop.
  destruct (FromReaderAt_Ok _ _ _ _ _ _ _ Hr) as (st & Hloop & ->).
  rewrite Hstop. exists (elements (missingDirs st)).
  split; [apply NoDup_elements|]. split.
  - intros k. rewrite <- list_elem_of_In, elem_of_elements.
    exact (loop_missing _ _ _ _ k Hloop).
  - destruct ((size (missingDirs st) =? 0)%nat) eqn:Es; cbn [negb].
    + left. split; [apply size_elements_nil; exact Es|]. eauto.
    + right. split; [|reflexivity]. intros E.
      apply size_elements_nil in E. congruence.
Qed.

(** The theorem on the archive whose only entry is [foo/quux/hello]. *)
Lemma missing_directories_exactly_witness :
  exists listed,
    NoDup listed
    /\ (forall k, In k listed <-> undescribed [(hello_header, 512)] k)
    /\ ((listed = []
         /\ exists s, @inr server error "missing directory entries: /foo/quux"
                      = inl s)
        \/ (listed <> []
            /\ @inr server error "missing directory entries: /foo/quux"
               = inr ("missing directory entries: "
                      ++ Strings.Join listed ","))).
Proof.
  apply (missing_directories_exactly
           {| tar.entries := [(hello_header, 512)]; tar.stops := tar.EOF |}
           example_stream 0 0).
  - vm_compute. reflexivity.
  - reflexivity.
Defined.

(** X18. An archive shaped like a tree is served. When the archive is read
    to its end, no entry that is not a directory has the root's key or the
    key of a directory entry, and the parent path of every entry is the root
    or the key of some directory entry of the archive (before or after it),
    [FromReaderAt] returns the server over the stream it was given: it
    neither panics nor reports an error. *)
Theorem tree_shaped_archive_is_served
  (tr : tar.Reader) (ra : list Byte.byte) (euid egid : Z) :
  tar.stops tr = tar.EOF ->
  (forall f, In f (tar.entries tr) -> entry_IsDir f = false ->
     entry_key f <> "/"
     /\ described_by (tar.entries tr) (entry_key f) = false) ->
  (forall e, In e (tar.entries tr) ->
     filepath.Dir (entry_key e) = "/"
     \/ described_by (tar.entries tr) (filepath.Dir (entry_key e)) = true) ->
  exists s,
    FromReaderAt tr ra NewBTreeStore [] euid egid = Ok (inl s)
    /\ stream s = ra.
Proof.
  intros Hstop Hfiles Hparents. unfold FromReaderAt.
  destruct (ingest_loop (tar.entries tr)
              (ingest_start NewBTreeStore [] euid egid)) as [st|p] eqn:Hloop;
    cbn [bind].
  - rewrite Hstop.
    assert (Hempty : elements (missingDirs st) = []).
    { destruct (elements (missingDirs st)) as [|k l] eqn:E; [reflexivity|].
      exfalso.
      assert (Hk : k ∈ missingDirs st).
      { apply elem_of_elements. rewrite E. left. }
      apply (loop_missing _ _ _ _ k Hloop) in Hk
        as (Hroot & (e & He & Hdir) & Hnone).
      destruct (Hparents e He) as [E1|E1]; congruence. }
    apply size_elements_nil in Hempty. rewrite Hempty. cbn [negb].
    eexists. split; reflexivity.
  - exfalso.
    destruct (ingest_loop_Panic _ _ [] _ (ingest_start_traced euid egid) Hloop)
      as (_ & es1 & c & es2 & f & Hes & Hf & Hc).
    cbn [app] in Hc.
    assert (Hin : forall x, In x (es1 ++ [c]) -> In x (tar.entries tr)).
    { intros x Hx. rewrite Hes. apply in_app_iff.
      apply in_app_iff in Hx as [Hx|[<-|[]]]; [left; exact Hx|right; left].
      reflexivity. }
    destruct Hc as [(Hd & Hl)|Hl].
    + destruct (last_entry_In _ _ _ Hl) as (Hf1 & Hk).
      destruct (Hfiles f) as (_ & Hnone);
        [apply Hin, in_app_iff; left; exact Hf1|exact Hf|].
      assert (Ht : described_by (tar.entries tr) (entry_key f) = true).
      { apply described_by_true. exists c. split; [|auto].
        apply Hin, in_app_iff. right. left. reflexivity. }
      congruence.
    + destruct (last_entry_In _ _ _ Hl) as (Hf1 & Hk).
      destruct (Hfiles f (Hin _ Hf1) Hf) as (Hroot & Hnone).
      destruct (Hparents c) as [E1|E1];
        [apply Hin, in_app_iff; right; left; reflexivity| |]; congruence.
Qed.

(** The theorem on the archive of [hello] and its two directories, which
    come after it. *)
Lemma tree_shaped_archive_is_served_witness :
  exists s,
    FromReaderAt later_archive example_stream NewBTreeStore [] 0 0
    = Ok (inl s)
    /\ stream s = example_stream.
Proof.
  apply (tree_shaped_archive_is_served later_archive example_stream 0 0).
  - reflexivity.
  - intros f [<-|[<-|[<-|[]]]] Hf; try discriminate Hf.
    split; [vm_compute; discriminate|vm_compute; reflexivity].
  - intros e [<-|[<-|[<-|[]]]];
      first [left; vm_compute; reflexivity | right; vm_compute; reflexivity].
Defined.

(** ** The earlier revision *)

Section FlatFacts.

Lemma flat_empty : flat NewBTreeStore [] [].
Proof.
  split.
  - constructor.
  - constructor.
  - intros x [].
  - intros e [].
Qed.

Lemma flat_step (s : btreeStore) (h : Heap) (done : list (tar.Header * Z))
  (e : tar.Header * Z) :
  flat s h done ->
  flat (Add s (entry_key e) (length h))
       (h ++ [obj_node (flat_node_for e)])%list (done ++ [e]).
Proof.
  intros [Hsorted Hcanon Hnode Hhas]. split.
  - apply ReplaceOrInsert_sorted. exact Hsorted.
  - apply List.Forall_forall. intros x Hx.
    apply ReplaceOrInsert_In in Hx as [->|Hx].
    + apply headerNameEntry_canonical.
    + rewrite List.Forall_forall in Hcanon. apply Hcanon. exact Hx.
  - intros x Hx. rewrite last_entry_snoc.
    apply ReplaceOrInsert_In_sorted in Hx as [->|(Hx & Hne)]; [| |exact Hsorted].
    + cbn [key info]. rewrite String.eqb_refl. exists e. split; [reflexivity|].
      rewrite lookup_app_r by lia. rewrite Nat.sub_diag. reflexivity.
    + cbn [key] in Hne.
      destruct (String.eqb_spec (entry_key e) (key x)) as [E|_];
        [congruence|].
      destruct (Hnode x Hx) as (e0 & Hl & Ho). exists e0. split; [exact Hl|].
      rewrite lookup_app_l by (eapply lookup_lt_Some; eassumption). exact Ho.
  - intros e' He'. rewrite Get_Add.
    destruct (String.eqb_spec (entry_key e) (entry_key e')) as [_|Hne];
      [eauto|].
    apply in_app_iff in He' as [He'|[<-|[]]]; [apply Hhas; exact He'|].
    contradiction Hne. reflexivity.
Qed.

(** The earlier loop, over a file that answers every [Seek], returns. *)
Lemma ingest_flat_seekable (es : list (tar.Header * Z)) (s : btreeStore)
  (h : Heap) (done : list (tar.Header * Z)) :
  flat s h done ->
  exists s' h',
    Earlier.ingest_flat (seekable es) s h = inl (s', h')
    /\ flat s' h' (done ++ es).
Proof.
  revert s h done. induction es as [|[hdr pos] es IH]; intros s h done Hf.
  - exists s, h. rewrite app_nil_r. split; [reflexivity|exact Hf].
  - cbn [seekable map fst snd Earlier.ingest_flat]. unfold alloc.
    destruct (IH _ _ _ (flat_step s h done (hdr, pos) Hf))
      as (s' & h' & Hrun & Hf').
    exists s', h'. split; [exact Hrun|].
    rewrite <- app_assoc in Hf'. exact Hf'.
Qed.

Lemma Earlier_FromFile_flat (es : list (tar.Header * Z)) (f : list Byte.byte) :
  exists s,
    Earlier.FromFile {| Earlier.entries := seekable es;
                        Earlier.stops := tar.EOF |} f NewBTreeStore []
    = inl s
    /\ stream s = f
    /\ flat (db s) (mem s) es.
Proof.
  destruct (ingest_flat_seekable es NewBTreeStore [] [] flat_empty)
    as (s' & h' & Hrun & Hf).
  exists (Newserver s' f h'). unfold Earlier.FromFile.
  cbn [Earlier.entries Earlier.stops]. rewrite Hrun.
  split; [reflexivity|]. split; [reflexivity|exact Hf].
Qed.

Lemma flat_lookup (s : btreeStore) (h : Heap) (done : list (tar.Header * Z))
  (k : string) (fi : FileInfo) :
  flat s h done -> Get s k = Some fi ->
  exists x e, In x s /\ key x = k /\ info x = fi
              /\ btree.Get k s = Some x
              /\ last_entry done k = Some e
              /\ h !! fi = Some (obj_node (flat_node_for e)).
Proof.
  intros Hf Hg. unfold Get in Hg.
  destruct (btree.Get k s) as [x|] eqn:Hx; [|discriminate].
  injection Hg as <-. destruct (Get_In _ _ _ Hx) as (Hin & Hk).
  destruct (flat_node _ _ _ Hf x Hin) as (e & Hl & Ho). rewrite Hk in Hl.
  exists x, e. auto 10.
Qed.

(** A [Seek] that fails ends the earlier loop with its error. *)
Lemma ingest_flat_seek_fails (es : list (tar.Header * Z)) (hdr : tar.Header)
  (msg : string) (rest : list (tar.Header * (Z + string))) (s : btreeStore)
  (h : Heap) :
  Earlier.ingest_flat (seekable es ++ (hdr, inr msg) :: rest) s h
  = inr ("error getting file position in tar: " ++ msg).
Proof.
  revert s h. induction es as [|[hdr0 pos0] es IH]; intros s h.
  - reflexivity.
  - cbn [seekable map fst snd app Earlier.ingest_flat]. unfold alloc.
    apply IH.
Qed.

Lemma StronglySorted_map {A B : Type} (R : A -> A -> Prop)
  (R' : B -> B -> Prop) (f : A -> B) (l : list A) :
  (forall a b, R a b -> R' (f a) (f b)) ->
  StronglySorted R l -> StronglySorted R' (map f l).
Proof.
  intros HR Hs. induction Hs as [|a l Hs IH Hall]; cbn [map]; constructor.
  - exact IH.
  - apply List.Forall_forall. intros y Hy.
    apply List.in_map_iff in Hy as (x & <- & Hx). apply HR.
    rewrite List.Forall_forall in Hall. apply Hall. exact Hx.
Qed.

End FlatFacts.

(** X20. The [FromFile] of the earlier revision, over a file that answers
    every [Seek] and an archive read to its end, always returns a server,
    over the file it was given. The index of that server holds the keys of
    the entries and no other path (the root only if the archive has an entry
    for it), and each key leads to a plain node named by the key itself, with
    the Stat Record of the last entry of that key. An archive that fails to
    read, or a [Seek] that fails after any number of entries, gives the
    error and no server. *)
Theorem Earlier_FromFile_files_every_entry
  (es : list (tar.Header * Z)) (f : list Byte.byte) :
  (exists s,
     Earlier.FromFile {| Earlier.entries := seekable es;
                         Earlier.stops := tar.EOF |} f NewBTreeStore []
     = inl s
     /\ stream s = f
     /\ (forall k, Get (db s) k = None
                   <-> forall e, In e es -> entry_key e <> k)
     /\ (forall k e, last_entry es k = Some e ->
           exists fi,
             Get (db s) k = Some fi
             /\ mem s !! fi
                = Some (obj_node {| name := k;
                                    stat := Some (with_Ino (fillStat (fst e))
                                                           (snd e)) |})))
  /\ (forall msg,
        Earlier.FromFile {| Earlier.entries := seekable es;
                            Earlier.stops := tar.failure msg |}
                         f NewBTreeStore []
        = inr ("error reading tar: " ++ msg))
  /\ (forall hdr msg rest stop,
        Earlier.FromFile {| Earlier.entries :=
                              (seekable es ++ (hdr, inr msg) :: rest)%list;
                            Earlier.stops := stop |} f NewBTreeStore []
        = inr ("error getting file position in tar: " ++ msg)).
Proof.
  split; [|split].
  2:{ intros msg. unfold Earlier.FromFile. cbn [Earlier.entries Earlier.stops].
      destruct (ingest_flat_seekable es NewBTreeStore [] [] flat_empty)
        as (s' & h' & Hrun & _).
      rewrite Hrun. reflexivity. }
  2:{ intros hdr msg rest stop. unfold Earlier.FromFile.
      cbn [Earlier.entries]. rewrite ingest_flat_seek_fails. reflexivity. }
  destruct (Earlier_FromFile_flat es f) as (s & Hs & Hstream & Hf).
  exists s. split; [exact Hs|]. split; [exact Hstream|]. split.
  - intros k. split.
    + intros Hnone e He Hk. destruct (flat_has _ _ _ Hf e He) as [x Hx].
      congruence.
    + intros Hkeys. destruct (Get (db s) k) as [fi|] eqn:Hg; [|reflexivity].
      exfalso. destruct (flat_lookup _ _ _ _ _ Hf Hg)
        as (x & e & _ & _ & _ & _ & Hl & _).
      destruct (last_entry_In _ _ _ Hl) as (He & Hk). exact (Hkeys e He Hk).
  - intros k e Hl. destruct (last_entry_In _ _ _ Hl) as (He & Hk).
    destruct (flat_has _ _ _ Hf e He) as [fi Hg]. rewrite Hk in Hg.
    exists fi. split; [exact Hg|].
    destruct (flat_lookup _ _ _ _ _ Hf Hg) as (x & e' & _ & _ & _ & _ & Hl' & Ho).
    rewrite Hl in Hl'. injection Hl' as <-. rewrite Ho.
    unfold flat_node_for. rewrite Hk. reflexivity.
Qed.

Section FlatListing.

(** The entry the earlier [OpenDir] makes for an item of the index. *)
Lemma Earlier_dir_entries_items (s : btreeStore) (h : Heap)
  (done : list (tar.Header * Z)) (items : list stringKey) :
  flat s h done ->
  (forall x, In x items -> In x s) ->
  exists des,
    Earlier.dir_entries h (map info items) = Ok des
    /\ map fuse.DirEntry_Name des = map key items
    /\ forall d, In d des <->
         exists x e, In x items
                     /\ last_entry done (key x) = Some e
                     /\ d = {| fuse.DirEntry_Name := key x;
                               fuse.DirEntry_Mode :=
                                 uint32 (tar.FileMode (fst e)) |}.
Proof.
  intros Hf. induction items as [|x items IH]; intros Hin.
  - exists []. split; [reflexivity|]. split; [reflexivity|].
    intros d. split; [intros []|intros (x & e & [] & _)].
  - destruct IH as (des & Hdes & Hnames & Hmem);
      [intros y Hy; apply Hin; right; exact Hy|].
    destruct (flat_node _ _ _ Hf x (Hin x (or_introl eq_refl)))
      as (e & Hl & Ho).
    exists ({| fuse.DirEntry_Name := key x;
               fuse.DirEntry_Mode := uint32 (tar.FileMode (fst e)) |} :: des).
    split; [|split].
    + cbn [map Earlier.dir_entries].
      unfold Name, FileInfo_Mode, the_stat, the_node. rewrite Ho.
      cbn [bind flat_node_for name stat]. rewrite Hdes.
      cbn [bind Mode with_Ino fillStat]. rewrite uint32_uint32.
      destruct (last_entry_In _ _ _ Hl) as (_ & ->). reflexivity.
    + cbn [map fuse.DirEntry_Name]. rewrite Hnames. reflexivity.
    + intros d. split.
      * intros [<-|Hd].
        -- exists x, e. split; [left; reflexivity|]. auto.
        -- apply Hmem in Hd as (y & e' & Hy & Hl' & ->).
           exists y, e'. split; [right; exact Hy|]. auto.
      * intros (y & e' & [<-|Hy] & Hl' & ->).
        -- left. rewrite Hl in Hl'. injection Hl' as <-. reflexivity.
        -- right. apply Hmem. exists y, e'. auto.
Qed.

End FlatListing.

(** X21. In the earlier revision, [OpenDir] on a directory whose mode lets
    the caller in lists through the range scan of the index: exactly the
    keys of the archive's entries whose parent path is the directory's, the
    directory itself apart, each once and in ascending order of path,
    whatever order the archive has them in. An entry is named by its whole
    key, the path from the root, not by its last element, and carries the
    file mode of the last header of that key cut to 32 bits. *)
Theorem Earlier_OpenDir_lists_keys_in_order
  (es : list (tar.Header * Z)) (f : list Byte.byte) (s : server)
  (nm : string) (context : fuse.Context) (dir : FileInfo) (st : StatT) :
  Earlier.FromFile {| Earlier.entries := seekable es;
                      Earlier.stops := tar.EOF |} f NewBTreeStore []
  = inl s ->
  Get (db s) (fuseNameToKey nm) = Some dir ->
  the_stat (mem s) dir = Ok st ->
  os.IsDir (Mode st) = true ->
  permitted st context = true ->
  exists des,
    Earlier.OpenDir s nm context = Ok (Some des, fuse.OK)
    /\ StronglySorted
         (fun a b => Strings.lt (fuse.DirEntry_Name a) (fuse.DirEntry_Name b)
                     = true) des
    /\ forall d, In d des <->
         exists e,
           last_entry es (fuse.DirEntry_Name d) = Some e
           /\ fuse.DirEntry_Name d <> fuseNameToKey nm
           /\ filepath.Dir (fuse.DirEntry_Name d) = fuseNameToKey nm
           /\ fuse.DirEntry_Mode d = uint32 (tar.FileMode (fst e)).
Proof.
  intros Hs Hg Hst Hdir Hperm.
  destruct (Earlier_FromFile_flat es f) as (s0 & Hs0 & _ & Hf).
  rewrite Hs in Hs0. injection Hs0 as <-.
  set (D := fuseNameToKey nm) in *.
  destruct (flat_lookup _ _ _ _ _ Hf Hg) as (sk & e0 & Hsk & Hk & Hinfo & Hbg & _ & Ho).
  set (items := List.filter (scan_accepts D)
                  (btree.AscendRange D (D ++ "//") (db s))).
  pose proof (scan_accepted (db s) D (flat_canonical _ _ _ Hf)) as Hmem.
  fold items in Hmem.
  destruct (Earlier_dir_entries_items (db s) (mem s) es items Hf)
    as (des & Hdes & Hnames & Hin).
  { intros x Hx. apply Hmem in Hx as (Hx & _). exact Hx. }
  exists des. split; [|split].
  - unfold Earlier.OpenDir. fold D. rewrite Hg.
    unfold FileInfo_Mode at 1. rewrite Hst. cbn [bind]. rewrite Hdir.
    cbn [negb]. rewrite (checkPermissions_stat _ _ _ _ Hst), Hperm.
    cbn [bind negb]. unfold Entries. rewrite Hbg, Hinfo.
    unfold FileInfo_Mode. rewrite Hst. cbn [bind]. rewrite Hdir. cbn [negb].
    rewrite Ho, scan_entries_filter, Hk. fold items. cbn [bind].
    rewrite Hdes. reflexivity.
  - assert (Hsorted : StronglySorted
                        (fun a b => Strings.lt (key a) (key b) = true) items).
    { apply (StronglySorted_within key_Less).
      - intros a b Ha Hb Hab. apply Hmem in Ha as (Ha & Na & Da).
        apply Hmem in Hb as (Hb & Nb & Db). unfold key_Less in Hab.
        pose proof (flat_canonical _ _ _ Hf) as Hcan.
        rewrite List.Forall_forall in Hcan.
        rewrite Less_same_level in Hab; [exact Hab|].
        eapply canonical_children_level; eauto.
      - unfold items. apply StronglySorted_filter. unfold btree.AscendRange.
        apply StronglySorted_filter. exact (flat_sorted _ _ _ Hf). }
    clear -Hsorted Hnames. revert des Hnames.
    induction Hsorted as [|a l Hl IH Hall]; intros des Hnames.
    + destruct des; [constructor|discriminate].
    + destruct des as [|d des]; [discriminate|]. cbn [map] in Hnames.
      injection Hnames as Hd Hrest. constructor; [apply IH; exact Hrest|].
      apply List.Forall_forall. intros d' Hd'. rewrite Hd.
      apply (List.in_map fuse.DirEntry_Name) in Hd'. rewrite Hrest in Hd'.
      apply List.in_map_iff in Hd' as (x & <- & Hx).
      rewrite List.Forall_forall in Hall. apply Hall. exact Hx.
  - intros d. rewrite Hin. split.
    + intros (x & e & Hx & Hl & ->). cbn [fuse.DirEntry_Name fuse.DirEntry_Mode].
      apply Hmem in Hx as (_ & Hne & Hd). exists e. auto.
    + intros (e & Hl & Hne & Hd & Hm).
      destruct (last_entry_In _ _ _ Hl) as (He & Hke).
      destruct (flat_has _ _ _ Hf e He) as [fi Hfi]. rewrite Hke in Hfi.
      destruct (flat_lookup _ _ _ _ _ Hf Hfi) as (x & _ & Hx & Hkx & _).
      exists x, e. split; [apply Hmem; rewrite Hkx; auto|].
      rewrite Hkx. split; [exact Hl|].
      destruct d as [dn dm]. cbn in Hm |- *. rewrite Hm. reflexivity.
Qed.

(** The theorem on the directory whose children the archive has in
    descending order: the earlier revision lists [/foo/a] before [/foo/b]. *)
Lemma Earlier_OpenDir_lists_keys_in_order_witness :
  exists des,
    Earlier.OpenDir flat_server "foo" (caller 1000 1000)
    = Ok (Some des, fuse.OK)
    /\ StronglySorted
         (fun a b => Strings.lt (fuse.DirEntry_Name a) (fuse.DirEntry_Name b)
                     = true) des
    /\ forall d, In d des <->
         exists e,
           last_entry [(directory_header "foo/", 512);
                       (file_header "foo/b", 1024);
                       (file_header "foo/a", 2048)]
                      (fuse.DirEntry_Name d) = Some e
           /\ fuse.DirEntry_Name d <> fuseNameToKey "foo"
           /\ filepath.Dir (fuse.DirEntry_Name d) = fuseNameToKey "foo"
           /\ fuse.DirEntry_Mode d = uint32 (tar.FileMode (fst e)).
Proof.
  apply (Earlier_OpenDir_lists_keys_in_order
           [(directory_header "foo/", 512);
            (file_header "foo/b", 1024);
            (file_header "foo/a", 2048)]
           [] flat_server "foo" (caller 1000 1000) 0%nat
           (with_Ino (fillStat (directory_header "foo/")) 512)).
  - vm_compute. reflexivity.
  - reflexivity.
  - reflexivity.
  - reflexivity.
  - reflexivity.
Defined.

(** X22. In the earlier revision the root of an archive without an entry
    for it has attributes but no listing: [GetAttr] answers the empty name,
    at once, with a directory of mode 0755 owned by the caller, while
    [OpenDir] and [Open] on it, and [GetAttr] on any other spelling of the
    root, answer not-found. *)
Theorem Earlier_root_without_entry
  (es : list (tar.Header * Z)) (f : list Byte.byte) (s : server)
  (nm : string) (flags : Z) (context : fuse.Context) :
  Earlier.FromFile {| Earlier.entries := seekable es;
                      Earlier.stops := tar.EOF |} f NewBTreeStore []
  = inl s ->
  (forall e, In e es -> entry_key e <> "/") ->
  fuseNameToKey nm = "/" ->
  Earlier.GetAttr s "" context
  = Ok (Some {| fuse.Attr_Mtime := 0;
                fuse.Attr_Mode := Z.lor fuse.S_IFDIR 493;
                fuse.Attr_Size := 0;
                fuse.Attr_Uid := fuse.Uid context;
                fuse.Attr_Gid := fuse.Gid context |},
        fuse.OK)
  /\ Earlier.OpenDir s nm context = Ok (None, fuse.ENOENT)
  /\ Open s nm flags context = Ok (None, fuse.ENOENT)
  /\ (nm <> "" -> Earlier.GetAttr s nm context = Ok (None, fuse.ENOENT)).
Proof.
  intros Hs Hkeys Hroot.
  destruct (Earlier_FromFile_flat es f) as (s0 & Hs0 & _ & Hf).
  rewrite Hs in Hs0. injection Hs0 as <-.
  assert (Hnone : Get (db s) (fuseNameToKey nm) = None).
  { destruct (Get (db s) (fuseNameToKey nm)) as [fi|] eqn:Hg; [|reflexivity].
    exfalso. destruct (flat_lookup _ _ _ _ _ Hf Hg)
      as (x & e & _ & _ & _ & _ & Hl & _).
    destruct (last_entry_In _ _ _ Hl) as (He & Hk).
    apply (Hkeys e He). congruence. }
  split; [reflexivity|]. split; [|split].
  - unfold Earlier.OpenDir. rewrite Hnone. reflexivity.
  - unfold Open. rewrite Hnone. reflexivity.
  - intros Hne. unfold Earlier.GetAttr.
    destruct (String.eqb_spec nm ""); [contradiction|].
    unfold GetAttr. rewrite Hnone. reflexivity.
Qed.

(** The theorem on the archive of [foo] and its two files, for the root
    spelled [.]. *)
Lemma Earlier_root_without_entry_witness :
  Earlier.GetAttr flat_server "" (caller 1000 1000)
  = Ok (Some {| fuse.Attr_Mtime := 0;
                fuse.Attr_Mode := Z.lor fuse.S_IFDIR 493;
                fuse.Attr_Size := 0;
                fuse.Attr_Uid := 1000;
                fuse.Attr_Gid := 1000 |},
        fuse.OK)
  /\ Earlier.OpenDir flat_server "." (caller 1000 1000) = Ok (None, fuse.ENOENT)
  /\ Open flat_server "." 0 (caller 1000 1000) = Ok (None, fuse.ENOENT)
  /\ Earlier.GetAttr flat_server "." (caller 1000 1000)
     = Ok (None, fuse.ENOENT).
Proof.
  destruct (Earlier_root_without_entry
              [(directory_header "foo/", 512);
               (file_header "foo/b", 1024);
               (file_header "foo/a", 2048)]
              [] flat_server "." 0 (caller 1000 1000))
    as (H1 & H2 & H3 & H4).
  - vm_compute. reflexivity.
  - intros e [<-|[<-|[<-|[]]]]; vm_compute; discriminate.
  - reflexivity.
  - split; [exact H1|]. split; [exact H2|]. split; [exact H3|].
    apply H4. discriminate.
Defined.

(** ** The root of an archive without an entry for it *)

Section RootFacts.

(** A turn of the loop for another key leaves the node under a key where
    it is and as it is. *)
Lemma ingest_entry_keeps (st st' : ingest) (done : list (tar.Header * Z))
  (hdr : tar.Header) (pos : Z) (k0 : string) (fi : FileInfo) (o : object) :
  traced st done -> ingest_entry st hdr pos = Ok st' ->
  entry_key (hdr, pos) <> k0 ->
  Get (idx st) k0 = Some fi -> objs st !! fi = Some o ->
  exists o', Get (idx st') k0 = Some fi
             /\ objs st' !! fi = Some o'
             /\ node_of o' = node_of o.
Proof.
  intros Ht Hstep Hne Hg Ho.
  destruct (ingest_entry_Ok _ _ _ _ Hstep)
    as (nodeInfo & h1 & m1 & parent & h2 & m2 & He & Hp & ->).
  destruct (entry_node_shape _ _ _ _ _ _ He) as (Hh1 & Hcase1).
  destruct (parent_shape _ _ _ _ nodeInfo _ _ _ Hp) as (Hh3 & Hcase3).
  set (k := entry_key (hdr, pos)) in *.
  set (pk := filepath.Dir k) in *.
  cbn [idx objs]. rewrite !Get_Add in *.
  destruct (String.eqb_spec k k0) as [|_]; [contradiction|].
  assert (Hfn : fi <> nodeInfo).
  { intros ->. destruct Hcase1 as [(Hnone & _)|(_ & Hgk & _)].
    - congruence.
    - apply Hne. exact (traced_inj _ _ Ht _ _ _ Hgk Hg). }
  assert (Ho1 : h1 !! fi = Some o) by (rewrite Hh1 by exact Hfn; exact Ho).
  destruct (String.eqb_spec pk k0) as [Epk|Npk].
  - (* the key is the parent of the entry *)
    subst k0.
    destruct (String.eqb_spec k pk) as [|_]; [contradiction|].
    destruct Hcase3 as [(Hgp & (n & es & H1 & H3) & _)|(Hgp & _)];
      [|congruence].
    assert (parent = fi) as -> by congruence.
    rewrite Ho1 in H1. injection H1 as ->.
    exists (obj_dirNode n (es ++ [nodeInfo])%list). auto.
  - assert (Hfp : fi <> parent).
    { intros ->.
      destruct Hcase3 as [(Hgp & _)|(_ & Hnone & _)]; [|congruence].
      destruct (String.eqb_spec k pk) as [_|_].
      - injection Hgp as Hgp. congruence.
      - apply Npk. exact (traced_inj _ _ Ht _ _ _ Hgp Hg). }
    exists o. split; [exact Hg|]. split; [|reflexivity].
    rewrite Hh3 by exact Hfp. exact Ho1.
Qed.

Lemma ingest_loop_keeps (es : list (tar.Header * Z)) (st st' : ingest)
  (done : list (tar.Header * Z)) (k0 : string) (fi : FileInfo) (o : object) :
  traced st done -> ingest_loop es st = Ok st' ->
  Forall (fun e => entry_key e <> k0) es ->
  Get (idx st) k0 = Some fi -> objs st !! fi = Some o ->
  exists o', Get (idx st') k0 = Some fi
             /\ objs st' !! fi = Some o'
             /\ node_of o' = node_of o.
Proof.
  revert st done o. induction es as [|[hdr pos] es IH];
    intros st done o Ht Hloop Hall Hg Ho; cbn [ingest_loop] in Hloop.
  - injection Hloop as <-. exists o. auto.
  - destruct (ingest_entry st hdr pos) as [st1|] eqn:Hstep; cbn [bind] in Hloop;
      [|discriminate].
    apply List.Forall_cons_iff in Hall as [Hk Hall].
    destruct (ingest_entry_keeps _ _ _ _ _ _ _ _ Ht Hstep Hk Hg Ho)
      as (o1 & Hg1 & Ho1 & Hn1).
    destruct (IH _ _ o1 (ingest_entry_traced _ _ _ _ _ Ht Hstep) Hloop Hall
                Hg1 Ho1) as (o' & Hg' & Ho' & Hn').
    exists o'. split; [exact Hg'|]. split; [exact Ho'|]. congruence.
Qed.

End RootFacts.

(** X23. When no entry of the served archive has the root's key, the root
    is the node [FromReaderAt] made for it: under every spelling of the root,
    [GetAttr] answers, for every caller, a directory of mode 0755 and size
    4096 owned by the effective uid and gid of the process, whose
    modification time is the zero time, the first instant of year 1, as an
    unsigned number of seconds; and [Open] returns a handle with the empty
    name that reads the 4096 bytes of the archive from offset 2 on, the
    inode number of the root standing for a data offset. *)
Theorem root_without_entry_is_synthetic
  (tr : tar.Reader) (ra : list Byte.byte) (euid egid : Z) (s : server)
  (nm : string) (flags : Z) (context : fuse.Context) :
  FromReaderAt tr ra NewBTreeStore [] euid egid = Ok (inl s) ->
  Forall (fun e => entry_key e <> "/") (tar.entries tr) ->
  fuseNameToKey nm = "/" ->
  GetAttr s nm context
  = Ok (Some {| fuse.Attr_Mtime := uint64 time_zero;
                fuse.Attr_Mode := Z.lor 493 fuse.S_IFDIR;
                fuse.Attr_Size := 4096;
                fuse.Attr_Uid := uint32 euid;
                fuse.Attr_Gid := uint32 egid |},
        fuse.OK)
  /\ Open s nm flags context
     = Ok (Some {| file_name := "";
                   ReaderAt := io.NewSectionReader ra 2 4096 |},
           fuse.OK).
Proof.
  intros Hs Hall Hnm.
  apply FromReaderAt_loop in Hs as (st & Hloop & _ & ->).
  destruct (ingest_loop_keeps (tar.entries tr)
              (ingest_start NewBTreeStore [] euid egid) st [] "/" 0%nat
              (obj_dirNode {| name := ""; stat := Some (rootStat euid egid) |} [])
              (ingest_start_traced euid egid) Hloop Hall eq_refl eq_refl)
    as (o & Hg & Ho & Hn).
  assert (Hst : the_stat (objs st) 0%nat = Ok (rootStat euid egid)).
  { unfold the_stat. rewrite (the_node_of _ _ _ Ho), Hn. reflexivity. }
  split.
  - rewrite (GetAttr_stat (Newserver (idx st) ra (objs st)) nm context 0%nat
               (rootStat euid egid)); [|rewrite Hnm; exact Hg|exact Hst].
    rewrite root_permitted. reflexivity.
  - unfold Open. cbn [db mem stream Newserver]. rewrite Hnm, Hg.
    unfold Inode, FileInfo_Size, Name.
    rewrite Hst, (the_node_of _ _ _ Ho), Hn. reflexivity.
Qed.

(** The theorem on the served file [secret], whose archive has no entry for
    the root. *)
Lemma root_without_entry_is_synthetic_witness :
  GetAttr secret_server "" (caller 2000 2000)
  = Ok (Some {| fuse.Attr_Mtime := uint64 time_zero;
                fuse.Attr_Mode := Z.lor 493 fuse.S_IFDIR;
                fuse.Attr_Size := 4096;
                fuse.Attr_Uid := 0;
                fuse.Attr_Gid := 0 |},
        fuse.OK)
  /\ Open secret_server "" 0 (caller 2000 2000)
     = Ok (Some {| file_name := "";
                   ReaderAt := io.NewSectionReader example_stream 2 4096 |},
           fuse.OK).
Proof.
  apply (root_without_entry_is_synthetic
           {| tar.entries := [(secret_header, 512)]; tar.stops := tar.EOF |}
           example_stream 0 0 secret_server "" 0 (caller 2000 2000)).
  - vm_compute. reflexivity.
  - constructor; [|constructor]. vm_compute. discriminate.
  - reflexivity.
Defined.

(** ** The children a directory node holds, for any archive *)

Section Children.

Lemma last_dir_snoc (done : list (tar.Header * Z)) (e : tar.Header * Z)
  (k : string) :
  last_dir (done ++ [e]) k
  = if entry_IsDir e && String.eqb (entry_key e) k then Some e
    else last_dir done k.
Proof. unfold last_dir. rewrite rev_unit. reflexivity. Qed.

Lemma last_dir_Some (done : list (tar.Header * Z)) (k : string)
  (d : tar.Header * Z) :
  last_dir done k = Some d ->
  In d done /\ entry_IsDir d = true /\ entry_key d = k.
Proof.
  unfold last_dir. intros H. apply List.find_some in H as [H1 H2].
  apply in_rev in H1. apply andb_true_iff in H2 as [H2 H3].
  apply String.eqb_eq in H3. auto.
Qed.

Lemma last_dir_None (done : list (tar.Header * Z)) (k : string) :
  last_dir done k = None ->
  forall d, In d done -> entry_IsDir d = true -> entry_key d <> k.
Proof.
  unfold last_dir. intros H d Hd Hdir Hk.
  apply in_rev in Hd. pose proof (List.find_none _ _ H d Hd) as Hf.
  cbn beta in Hf. rewrite Hdir, Hk, String.eqb_refl in Hf. discriminate.
Qed.

(** The entry shown for an entry read is an entry read, with the same key
    and of the same kind. *)
Lemma shown_In (done : list (tar.Header * Z)) (e : tar.Header * Z) :
  In e done ->
  In (shown done e) done
  /\ entry_key (shown done e) = entry_key e
  /\ entry_IsDir (shown done e) = entry_IsDir e.
Proof.
  intros He. unfold shown. destruct (entry_IsDir e) eqn:Ed; [|auto].
  destruct (last_dir done (entry_key e)) as [d|] eqn:El.
  - destruct (last_dir_Some _ _ _ El) as (H1 & H2 & H3). auto.
  - auto.
Qed.

Lemma shown_file (done : list (tar.Header * Z)) (e : tar.Header * Z) :
  entry_IsDir e = false -> shown done e = e.
Proof. intros H. unfold shown. rewrite H. reflexivity. Qed.

Lemma shown_snoc_self (done : list (tar.Header * Z)) (e : tar.Header * Z) :
  shown (done ++ [e]) e = e.
Proof.
  unfold shown. destruct (entry_IsDir e) eqn:Ed; [|reflexivity].
  rewrite last_dir_snoc, Ed, String.eqb_refl. reflexivity.
Qed.

(** One turn of the loop keeps the children of every directory node those
    of the entries read beneath it. *)
Lemma ingest_entry_children (st st' : ingest) (hdr : tar.Header) (pos : Z)
  (done : list (tar.Header * Z)) :
  traced st done -> children_traced st done ->
  ingest_entry st hdr pos = Ok st' ->
  children_traced st' (done ++ [(hdr, pos)]).
Proof.
  intros [Hbound Hinj Hroot Hhas Hdom Hlast Hunnamed Hmissing Hcount] Hch Hstep.
  destruct (ingest_entry_Ok _ _ _ _ Hstep)
    as (nodeInfo & h1 & m1 & parent & h2 & m2 & He & Hp & ->).
  destruct (entry_node_shape _ _ _ _ _ _ He) as (Hh1 & Hcase1).
  destruct (parent_shape _ _ _ _ nodeInfo _ _ _ Hp) as (Hh3 & Hcase3).
  set (e := (hdr, pos)) in *.
  set (k := entry_key e) in *.
  set (pk := filepath.Dir k) in *.
  set (h3 := append_entry h2 parent nodeInfo) in *.
  rewrite Get_Add in Hcase3.
  assert (Hcanon : canonical k) by apply headerNameEntry_canonical.
  assert (Hpk_root : pk = k -> k = "/") by (apply Dir_fixes_root; exact Hcanon).
  (* the node of the entry *)
  assert (Hn : exists o_n, h1 !! nodeInfo = Some o_n
                           /\ node_of o_n = node_for e
                           /\ is_dirNode o_n = entry_IsDir e).
  { destruct Hcase1 as [(_ & Ho & _)|(Hd & _ & (n & es & _ & Ho) & _)].
    - exists (object_for e []). split; [exact Ho|]. apply object_for_node.
    - exists (obj_dirNode (node_for e) es). split; [exact Ho|].
      split; [reflexivity|]. rewrite Hd. reflexivity. }
  destruct Hn as (o_n & Hon & Hon_node & Hon_dir).
  (* the node of the entry is under no other key *)
  assert (HN : forall k0 fi, Get (idx st) k0 = Some fi -> k0 <> k ->
                 fi <> nodeInfo).
  { intros k0 fi Hg Hne ->.
    destruct Hcase1 as [(Hnone & _)|(_ & Hgk & _)].
    - destruct (Hbound _ _ Hg) as [x Hx]. congruence.
    - apply Hne. eapply Hinj; eassumption. }
  assert (Hpk_eq : pk = k -> parent = nodeInfo).
  { intros E. rewrite E, String.eqb_refl in Hcase3.
    destruct Hcase3 as [(H & _)|(H & _)]; congruence. }
  assert (Hpk_ne : pk <> k -> parent <> nodeInfo).
  { intros Hne E. subst parent.
    destruct (String.eqb_spec k pk) as [|_]; [congruence|].
    destruct Hcase3 as [(Hg & _)|(_ & Hnone & _)].
    - exact (HN pk nodeInfo Hg Hne eq_refl).
    - congruence. }
  (* nor is the parent under another key than its own *)
  assert (HP : forall k0 fi, Get (idx st) k0 = Some fi -> k0 <> pk ->
                 fi <> parent).
  { intros k0 fi Hg Hne ->.
    destruct (String.eqb_spec k pk) as [Ek|Nk].
    - symmetry in Ek. rewrite (Hpk_eq Ek) in Hg.
      apply (HN k0 nodeInfo Hg); congruence.
    - destruct Hcase3 as [(Hgp & _)|(_ & Hnone & _)].
      + apply Hne. eapply Hinj; eassumption.
      + destruct (Hbound _ _ Hg) as [x Hx].
        destruct (decide (parent = nodeInfo)) as [E|NE]; [congruence|].
        rewrite Hh1 in Hnone by exact NE. congruence. }
  assert (Hget' : forall k0,
            Get (Add (Add (idx st) k nodeInfo) pk parent) k0
            = if String.eqb pk k0 then Some parent
              else if String.eqb k k0 then Some nodeInfo
                   else Get (idx st) k0)
    by (intros k0; rewrite !Get_Add; reflexivity).
  assert (Hold : forall k0 fi, Get (idx st) k0 = Some fi -> k0 <> k ->
                   k0 <> pk -> h3 !! fi = objs st !! fi).
  { intros k0 fi Hg N1 N2.
    rewrite Hh3 by (eapply HP; eassumption).
    apply Hh1. eapply HN; eassumption. }
  (* the parent, as it is left *)
  assert (Hpar : exists np esp,
            h3 !! parent = Some (obj_dirNode np (esp ++ [nodeInfo])%list)
            /\ ((h1 !! parent = Some (obj_dirNode np esp) /\ m2 = m1
                 /\ (if String.eqb k pk then Some nodeInfo
                     else Get (idx st) pk) = Some parent)
                \/ (h1 !! parent = None /\ m2 = m1 ∪ {[pk]} /\ esp = []
                    /\ pk <> k /\ Get (idx st) pk = None))).
  { destruct Hcase3 as [(Hg & (n & es & H1 & H3) & Hm)|(Hg & H1 & H3 & Hm)].
    - exists n, es. split; [exact H3|]. left. auto.
    - exists {| name := filepath.Base pk; stat := None |}, [].
      split; [exact H3|]. right.
      destruct (String.eqb_spec k pk); [discriminate|]. auto. }
  destruct Hpar as (np & esp & Hp3 & Hpcase).
  assert (Hnode3 : pk <> k -> h3 !! nodeInfo = Some o_n).
  { intros Hne. rewrite Hh3 by (intros E; symmetry in E; revert E; apply Hpk_ne, Hne).
    exact Hon. }
  (* the node of the entry, as it is left *)
  assert (Hnode : exists o', h3 !! nodeInfo = Some o'
                             /\ node_of o' = node_for e
                             /\ is_dirNode o' = entry_IsDir e).
  { destruct (String.eqb_spec pk k) as [E|N].
    - pose proof (Hpk_eq E) as Epn. rewrite <- Epn, Hp3.
      eexists. split; [reflexivity|].
      destruct Hpcase as [(H1 & _)|(H1 & _)]; rewrite Epn in H1; [|congruence].
      rewrite Hon in H1. injection H1 as ->.
      cbn [node_of is_dirNode] in *. auto.
    - exists o_n. rewrite Hnode3 by exact N. auto. }
  (* a turn that appends to the node of its own entry has found that node
     under the key *)
  assert (Hself : parent = nodeInfo -> Get (idx st) k = Some nodeInfo).
  { intros Epn.
    destruct Hcase1 as [(Hnone & Ho & Hfresh & _)|(_ & Hgk & _)]; [|exact Hgk].
    exfalso.
    destruct (String.eqb_spec pk k) as [E|N]; [|exact (Hpk_ne N Epn)].
    destruct Hpcase as [(H1 & _)|(H1 & _)]; rewrite Epn in H1; [|congruence].
    rewrite Ho in H1. unfold object_for in H1, Hfresh.
    destruct (entry_IsDir e); [|discriminate].
    rewrite (Hpk_root E) in Hfresh.
    destruct Hroot as [x Hx]. rewrite (Hfresh eq_refl) in Hx. discriminate. }
  (* a node that is no directory node is never written *)
  assert (Hfile : forall c n, objs st !! c = Some (obj_node n) ->
                    h3 !! c = Some (obj_node n)).
  { intros c n Hc.
    assert (N1 : c <> nodeInfo).
    { intros ->.
      destruct Hcase1 as [(Hnone & _)|(_ & _ & (n0 & es0 & Ho & _) & _)];
        congruence. }
    assert (H1 : h1 !! c = Some (obj_node n)) by (rewrite Hh1; assumption).
    assert (N2 : c <> parent).
    { intros ->. destruct Hpcase as [(H2 & _)|(H2 & _)]; congruence. }
    rewrite Hh3; assumption. }
  (* the node at any other location is kept *)
  assert (Hkeep : forall c o, objs st !! c = Some o -> c <> nodeInfo ->
                    exists o', h3 !! c = Some o'
                               /\ node_of o' = node_of o
                               /\ is_dirNode o' = is_dirNode o).
  { intros c o Hc Hne. destruct (decide (c = parent)) as [->|Hnp].
    - rewrite Hp3. eexists. split; [reflexivity|].
      destruct Hpcase as [(H1 & _)|(H1 & _)];
        rewrite Hh1 in H1 by exact Hne; [|congruence].
      rewrite Hc in H1. injection H1 as ->. cbn [node_of is_dirNode]. auto.
    - exists o. rewrite Hh3 by exact Hnp. rewrite Hh1 by exact Hne. auto. }
  (* a child made earlier is still the child of its entry *)
  assert (Hlift : forall c e1,
            child_for st done c e1 ->
            child_for {| idx := Add (Add (idx st) k nodeInfo) pk parent;
                         objs := h3; missingDirs := m2 |}
                      (done ++ [e]) c e1).
  { intros c e1 (o & Hc & Hnd & Hdr & Hix). unfold child_for.
    cbn [idx objs].
    destruct (entry_IsDir e1) eqn:Ed1.
    - (* the child of a directory entry *)
      specialize (Hix eq_refl).
      destruct (decide (c = nodeInfo)) as [->|Hne].
      + (* written into by this turn *)
        destruct Hcase1 as [(Hnone & _)|(Hd & Hgk & _ & _)]; [congruence|].
        assert (Ek : entry_key e1 = k).
        { destruct Hix as [Hg|(Hno & _)]; [eapply Hinj; eassumption|].
          exfalso. exact (Hno _ Hgk). }
        destruct Hnode as (o' & Ho' & Hn' & Hd').
        exists o'. split; [exact Ho'|]. split.
        { rewrite Hn'. unfold shown. rewrite Ed1, Ek, last_dir_snoc.
          fold k. rewrite Hd, (String.eqb_refl k). reflexivity. }
        split; [congruence|]. intros _. left. rewrite Hget', Ek.
        destruct (String.eqb_spec pk k) as [E|N].
        * rewrite (Hpk_eq E). reflexivity.
        * rewrite (String.eqb_refl k). reflexivity.
      + destruct (Hkeep _ _ Hc Hne) as (o' & Ho' & Hn' & Hd').
        exists o'. split; [exact Ho'|]. split.
        { rewrite Hn', Hnd. f_equal. unfold shown.
          rewrite Ed1, last_dir_snoc.
          destruct (entry_IsDir e && String.eqb (entry_key e) (entry_key e1))
            eqn:Eb; [|reflexivity].
          exfalso. apply andb_true_iff in Eb as [Hd Ek].
          apply String.eqb_eq in Ek. fold k in Ek.
          destruct Hcase1
            as [(_ & _ & Hfresh & _)|(_ & Hgk & (n0 & es0 & Ho & _) & _)].
          - specialize (Hfresh Hd). rewrite Ek in Hfresh.
            destruct Hix as [Hg|(_ & c' & n & Hg & _)]; congruence.
          - rewrite Ek in Hgk.
            destruct Hix as [Hg|(_ & c' & n & Hg & Hc')]; [congruence|].
            rewrite Hg in Hgk. injection Hgk as ->. congruence. }
        split; [congruence|]. intros _.
        destruct Hix as [Hg|(Hno & c' & n & Hg & Hc')].
        * (* under its key so far *)
          rewrite Hget'.
          destruct (String.eqb_spec pk (entry_key e1)) as [E1|N1].
          { left. f_equal.
            destruct (decide (parent = nodeInfo)) as [Epn|Npn].
            - exfalso. pose proof (Hself Epn) as Hgk.
              destruct (String.eqb_spec pk k) as [E|N];
                [|exact (Hpk_ne N Epn)].
              rewrite <- E1, E in Hg. congruence.
            - destruct (String.eqb_spec k pk) as [E|N].
              { exfalso. apply Npn. apply Hpk_eq. congruence. }
              destruct Hpcase as [(_ & _ & Hgp)|(_ & _ & _ & _ & Hgp)];
                rewrite E1 in Hgp; congruence. }
          destruct (String.eqb_spec k (entry_key e1)) as [E2|N2];
            [|left; exact Hg].
          destruct Hcase1
            as [(_ & Ho & Hfresh & _)|(_ & Hgk & _)];
            [|rewrite E2 in Hgk; congruence].
          right. split.
          { intros k'. rewrite Hget'.
            destruct (String.eqb_spec pk k') as [<-|M1].
            - intros H. injection H as H. symmetry in H. revert H.
              apply (HP _ _ Hg). congruence.
            - destruct (String.eqb_spec k k') as [<-|M2]; [congruence|].
              intros H. apply M2. rewrite E2. eapply Hinj; eassumption. }
          exists nodeInfo, (node_for e). split; [reflexivity|].
          rewrite Hnode3 by congruence. f_equal.
          rewrite Ho in Hon. injection Hon as <-. unfold object_for in *.
          destruct (entry_IsDir e); [|reflexivity].
          exfalso. rewrite E2 in Hfresh. specialize (Hfresh eq_refl).
          congruence.
        * (* its key taken by an entry that is no directory *)
          right.
          assert (Hc1 : h1 !! c = Some o) by (rewrite Hh1; assumption).
          split.
          { intros k'. rewrite Hget'.
            destruct (String.eqb_spec pk k') as [<-|M1].
            - intros H. injection H as ->.
              destruct Hpcase as [(_ & _ & Hgp)|(H1 & _)]; [|congruence].
              destruct (String.eqb_spec k pk) as [E|N]; [congruence|].
              exact (Hno _ Hgp).
            - destruct (String.eqb_spec k k') as [<-|M2]; [congruence|].
              apply Hno. }
          rewrite Hget'.
          destruct (String.eqb_spec pk (entry_key e1)) as [E1|N1].
          { exfalso.
            destruct (decide (parent = nodeInfo)) as [Epn|Npn].
            - pose proof (Hself Epn) as Hgk.
              destruct (String.eqb_spec pk k) as [E|N];
                [|exact (Hpk_ne N Epn)].
              rewrite <- E1, E, Hgk in Hg. injection Hg as <-.
              destruct Hcase1
                as [(Hnone & _)|(_ & _ & (n0 & es0 & Ho & _) & _)];
                congruence.
            - destruct (String.eqb_spec k pk) as [E|N].
              { apply Npn. apply Hpk_eq. congruence. }
              destruct Hpcase as [(H1 & _ & Hgp)|(_ & _ & _ & _ & Hgp)];
                rewrite E1 in Hgp; [|congruence].
              rewrite Hg in Hgp. injection Hgp as ->.
              rewrite Hh1 in H1 by exact Npn. congruence. }
          destruct (String.eqb_spec k (entry_key e1)) as [E2|N2].
          { destruct Hcase1
              as [(_ & Ho & Hfresh & _)|(_ & Hgk & (n0 & es0 & Ho & _) & _)].
            - exists nodeInfo, (node_for e). split; [reflexivity|].
              rewrite Hnode3 by congruence. f_equal.
              rewrite Ho in Hon. injection Hon as <-. unfold object_for in *.
              destruct (entry_IsDir e); [|reflexivity].
              exfalso. rewrite E2 in Hfresh. specialize (Hfresh eq_refl).
              congruence.
            - exfalso. rewrite E2, Hg in Hgk. injection Hgk as ->. congruence. }
          exists c', n. split; [exact Hg|]. apply Hfile. exact Hc'.
    - (* the child of any other entry *)
      destruct o as [n|n es0]; [|discriminate Hdr].
      exists (obj_node n). split; [apply Hfile; exact Hc|].
      rewrite !shown_file in * by exact Ed1.
      split; [exact Hnd|]. split; [reflexivity|]. discriminate. }
  intros k0 fi es. cbn [idx objs].
  rewrite Hget', entries_under_snoc. fold k pk.
  destruct (String.eqb_spec pk k0) as [<-|N1].
  - intros Hg Hh. injection Hg as <-. unfold held in Hh.
    rewrite Hp3 in Hh. injection Hh as <-.
    apply Forall2_app.
    + (* the children held before *)
      destruct Hpcase as [(H1 & _ & Hgp)|(_ & _ & -> & _ & Hgp)].
      * eapply Forall2_impl; [|exact Hlift].
        destruct (String.eqb_spec k pk) as [Ek|Nk].
        { injection Hgp as Epn. symmetry in Epn.
          pose proof (Hself Epn) as Hgk. rewrite <- Ek.
          apply (Hch _ _ _ Hgk).
          destruct Hcase1
            as [(Hnone & _)|(_ & _ & (n0 & es0 & Ho & Ho1) & _)].
          - destruct (Hbound _ _ Hgk) as [x Hx]. congruence.
          - rewrite Epn, Ho1 in H1. injection H1 as _ <-.
            unfold held. rewrite Ho. reflexivity. }
        rewrite Hh1 in H1 by (apply Hpk_ne; congruence).
        apply (Hch _ _ _ Hgp). unfold held. rewrite H1. reflexivity.
      * rewrite entries_under_none; [constructor|].
        intros e0 He0. apply (Hdom _ Hgp _ He0).
    + (* the child made by this turn *)
      constructor; [|constructor].
      destruct Hnode as (o' & Ho' & Hn' & Hd').
      exists o'. cbn [idx objs]. split; [exact Ho'|]. split.
      { rewrite Hn', shown_snoc_self. reflexivity. }
      split; [exact Hd'|]. intros _. left. rewrite Hget'. fold k.
      destruct (String.eqb_spec pk k) as [E|N].
      * rewrite (Hpk_eq E). reflexivity.
      * rewrite (String.eqb_refl k). reflexivity.
  - rewrite app_nil_r.
    destruct (String.eqb_spec k k0) as [<-|N2].
    + intros Hg Hh. injection Hg as <-. unfold held in Hh.
      rewrite Hnode3 in Hh by exact N1.
      destruct Hcase1
        as [(_ & Ho & Hfresh & _)|(_ & Hgk & (n & es0 & Ho & Ho1) & _)].
      * rewrite Ho in Hon. injection Hon as <-. unfold object_for in Hh, Hfresh.
        destruct (entry_IsDir e); [|discriminate]. injection Hh as <-.
        rewrite entries_under_none; [constructor|].
        intros e0 He0. apply (Hdom _ (Hfresh eq_refl) _ He0).
      * rewrite Ho1 in Hon. injection Hon as <-. injection Hh as <-.
        eapply Forall2_impl; [|exact Hlift].
        apply (Hch _ _ _ Hgk). unfold held. rewrite Ho. reflexivity.
    + intros Hg Hh. unfold held in Hh.
      rewrite (Hold _ _ Hg) in Hh by congruence.
      eapply Forall2_impl; [|exact Hlift].
      exact (Hch _ _ _ Hg Hh).
Qed.

Lemma ingest_loop_children (es : list (tar.Header * Z)) (st st' : ingest)
  (done : list (tar.Header * Z)) :
  traced st done -> children_traced st done ->
  ingest_loop es st = Ok st' -> children_traced st' (done ++ es).
Proof.
  revert st done. induction es as [|[hdr pos] es IH]; intros st done Ht Hch;
    cbn [ingest_loop].
  - intros H. injection H as <-. rewrite app_nil_r. exact Hch.
  - destruct (ingest_entry st hdr pos) as [st1|] eqn:E; cbn [bind];
      [|discriminate].
    intros Hloop.
    replace (done ++ (hdr, pos) :: es)%list
      with ((done ++ [(hdr, pos)]) ++ es)%list
      by (rewrite <- app_assoc; reflexivity).
    eapply IH; [| |exact Hloop].
    + eapply ingest_entry_traced; eassumption.
    + eapply ingest_entry_children; eassumption.
Qed.

Lemma ingest_start_children (euid egid : Z) :
  children_traced (ingest_start NewBTreeStore [] euid egid) [].
Proof.
  unfold ingest_start, alloc. cbn [length app].
  intros k fi es. cbn [idx objs]. rewrite Get_Add.
  destruct (String.eqb_spec "/" k) as [<-|]; [|discriminate].
  intros H Hh. injection H as <-. cbn in Hh. injection Hh as <-.
  constructor.
Qed.

(** The directory nodes of a served index hold the children of the entries
    of the archive. *)
Lemma FromReaderAt_children (tr : tar.Reader) (ra : list Byte.byte)
  (euid egid : Z) (s : server) :
  FromReaderAt tr ra NewBTreeStore [] euid egid = Ok (inl s) ->
  children_traced {| idx := db s; objs := mem s; missingDirs := ∅ |}
                  (tar.entries tr).
Proof.
  intros H. apply FromReaderAt_loop in H as (st & Hloop & Hm & ->).
  pose proof (ingest_loop_children _ _ _ [] (ingest_start_traced euid egid)
                (ingest_start_children euid egid) Hloop) as Hch.
  destruct st as [i o m]. cbn in Hm. subst m. exact Hch.
Qed.

(** The entries [OpenDir] makes of children: each is that of the header its
    entry shows. *)
Lemma dir_entries_children (st : ingest) (done : list (tar.Header * Z))
  (es : list FileInfo) (l : list (tar.Header * Z)) :
  Forall2 (child_for st done) es l ->
  dir_entries (objs st) es
  = Ok (map (fun e => header_dirent (shown done e)) l).
Proof.
  induction 1 as [|c e es l (o & Ho & Hn & _) _ IH]; [reflexivity|].
  cbn [dir_entries]. unfold Name, FileInfo_Mode, the_stat.
  rewrite (the_node_of _ _ _ Ho), Hn. cbn [bind node_for name stat].
  rewrite IH. cbn [bind map Mode with_Ino fillStat]. unfold header_dirent.
  rewrite uint32_uint32. reflexivity.
Qed.

(** The listing of a directory a served archive lets the caller into. *)
Lemma served_children (tr : tar.Reader) (ra : list Byte.byte) (euid egid : Z)
  (s : server) (k : string) (dir : FileInfo) (nd : node)
  (es : list FileInfo) :
  FromReaderAt tr ra NewBTreeStore [] euid egid = Ok (inl s) ->
  Get (db s) k = Some dir ->
  mem s !! dir = Some (obj_dirNode nd es) ->
  dir_entries (mem s) es
  = Ok (map (fun e => header_dirent (shown (tar.entries tr) e))
            (entries_under (tar.entries tr) k)).
Proof.
  intros Hs Hget Hobj.
  pose proof (FromReaderAt_children _ _ _ _ _ Hs) as Hch.
  apply (dir_entries_children
           {| idx := db s; objs := mem s; missingDirs := ∅ |}).
  apply (Hch k dir es Hget). unfold held. cbn [objs]. rewrite Hobj.
  reflexivity.
Qed.

End Children.

(** ** The status of a lookup *)

Section StatusFacts.

(** The paths a served index holds are the root and the keys of the
    entries. *)
Lemma served_paths (tr : tar.Reader) (ra : list Byte.byte) (euid egid : Z)
  (s : server) (k : string) :
  FromReaderAt tr ra NewBTreeStore [] euid egid = Ok (inl s) ->
  Get (db s) k = None
  <-> k <> "/" /\ forall e, In e (tar.entries tr) -> entry_key e <> k.
Proof.
  intros Hs. destruct (FromReaderAt_traced _ _ _ _ _ Hs) as (Ht & _). split.
  - intros Hnone. split.
    + intros ->. destruct (traced_root _ _ Ht) as [x Hx]. cbn [idx] in Hx.
      congruence.
    + intros e He. apply (traced_dom _ _ Ht k Hnone e He).
  - intros (Hroot & Hkeys).
    destruct (Get (db s) k) as [fi|] eqn:Hg; [|reflexivity]. exfalso.
    destruct (traced_bound _ _ Ht _ _ Hg) as [o Ho].
    destruct (last_entry (tar.entries tr) k) as [e|] eqn:El.
    + destruct (last_entry_In _ _ _ El) as (He & Hk). exact (Hkeys e He Hk).
    + destruct (traced_unnamed _ _ Ht _ _ _ Hg Ho El) as (_ & [E|Hin]);
        [contradiction|].
      cbn [missingDirs] in Hin. apply elem_of_empty in Hin. exact Hin.
Qed.

(** Every node a served index holds has its Stat Record. *)
Lemma served_stat (tr : tar.Reader) (ra : list Byte.byte) (euid egid : Z)
  (s : server) (k : string) (fi : FileInfo) :
  FromReaderAt tr ra NewBTreeStore [] euid egid = Ok (inl s) ->
  Get (db s) k = Some fi ->
  exists st, the_stat (mem s) fi = Ok st.
Proof.
  intros Hs Hg.
  destruct (FromReaderAt_well_formed _ _ _ _ _ Hs)
    as (st' & (_ & _ & Hitems & _) & Hm & Edb & Emem & _).
  unfold Get in Hg.
  destruct (btree.Get k (db s)) as [x|] eqn:Hx; [|discriminate].
  injection Hg as <-. apply Get_In in Hx as (Hx & _). rewrite Edb in Hx.
  destruct (Hitems x Hx) as (o & Ho & [Hd|Hin]).
  - rewrite Emem. eapply described_the_stat; eassumption.
  - rewrite Hm in Hin. apply elem_of_empty in Hin. contradiction.
Qed.

(** [OpenDir] up to the listing itself: what is not a directory is refused
    before the caller is looked at. *)
Lemma OpenDir_stat (s : server) (nm : string) (context : fuse.Context)
  (fi : FileInfo) (st : StatT) :
  Get (db s) (fuseNameToKey nm) = Some fi ->
  the_stat (mem s) fi = Ok st ->
  OpenDir s nm context
  = if negb (os.IsDir (Mode st)) then Ok (None, fuse.EIO)
    else if negb (permitted st context) then Ok (None, fuse.EPERM)
         else
           let! dirEntries := Entries (db s) (mem s) (fuseNameToKey nm) in
           let! es := dir_entries (mem s) dirEntries in
           Ok (Some es, fuse.OK).
Proof.
  intros Hg Hst. unfold OpenDir. rewrite Hg.
  unfold FileInfo_Mode at 1. rewrite Hst. cbn [bind].
  destruct (negb (os.IsDir (Mode st))); [reflexivity|].
  rewrite (checkPermissions_stat _ _ _ _ Hst). reflexivity.
Qed.

(** What [OpenDir] answers for a path a served index holds: the listing is
    of the entries of the archive beneath the path, each as the header it
    shows has it. *)
Lemma served_OpenDir (tr : tar.Reader) (ra : list Byte.byte) (euid egid : Z)
  (s : server) (nm : string) (context : fuse.Context) (dir : FileInfo)
  (st : StatT) :
  FromReaderAt tr ra NewBTreeStore [] euid egid = Ok (inl s) ->
  Get (db s) (fuseNameToKey nm) = Some dir ->
  the_stat (mem s) dir = Ok st ->
  OpenDir s nm context
  = if negb (os.IsDir (Mode st)) then Ok (None, fuse.EIO)
    else if negb (permitted st context) then Ok (None, fuse.EPERM)
         else Ok (Some (map (fun e => header_dirent (shown (tar.entries tr) e))
                            (entries_under (tar.entries tr)
                                           (fuseNameToKey nm))),
                  fuse.OK).
Proof.
  intros Hs Hget Hst.
  destruct (os.IsDir (Mode st)) eqn:Hdir;
    [|rewrite (OpenDir_stat _ _ _ _ _ Hget Hst), Hdir; reflexivity].
  destruct (permitted st context) eqn:Hperm;
    [|rewrite (OpenDir_stat _ _ _ _ _ Hget Hst), Hdir, Hperm; reflexivity].
  cbn [negb].
  destruct (FromReaderAt_traced _ _ _ _ _ Hs) as (Ht & _).
  destruct (traced_directory _ _ _ _ _ Ht Hget Hst Hdir)
    as (nd & es & Hobj & Hstat).
  cbn [objs] in Hobj.
  rewrite (OpenDir_dirNode s nm context dir nd st es Hget Hobj Hstat Hdir Hperm).
  rewrite (served_children _ _ _ _ _ _ _ _ _ Hs Hget Hobj). reflexivity.
Qed.

End StatusFacts.

(** X19. What the three lookups of a served archive answer, for every name
    and caller. A name whose key is neither the root nor the key of an entry
    is not found by any of them. Any other name is found: [Open] opens it
    with success, whatever the caller; [GetAttr] answers permission-denied or
    success as the mode and owner of the node decide; and [OpenDir] answers
    an input/output error for a node that is not a directory, before any
    permission is looked at, permission-denied for a directory the caller is
    not let into, and otherwise the listing: the entries of the archive
    beneath the path, each as the header it shows has it. *)
Theorem served_lookup_statuses
  (tr : tar.Reader) (ra : list Byte.byte) (euid egid : Z) (s : server)
  (nm : string) (flags : Z) (context : fuse.Context) :
  FromReaderAt tr ra NewBTreeStore [] euid egid = Ok (inl s) ->
  ((fuseNameToKey nm <> "/"
    /\ forall e, In e (tar.entries tr) -> entry_key e <> fuseNameToKey nm) ->
   Open s nm flags context = Ok (None, fuse.ENOENT)
   /\ GetAttr s nm context = Ok (None, fuse.ENOENT)
   /\ OpenDir s nm context = Ok (None, fuse.ENOENT))
  /\ (~ (fuseNameToKey nm <> "/"
         /\ forall e, In e (tar.entries tr) ->
                      entry_key e <> fuseNameToKey nm) ->
      exists fi st,
        Get (db s) (fuseNameToKey nm) = Some fi
        /\ the_stat (mem s) fi = Ok st
        /\ (exists f, Open s nm flags context = Ok (Some f, fuse.OK))
        /\ (exists a, GetAttr s nm context
                      = if permitted st context then Ok (Some a, fuse.OK)
                        else Ok (None, fuse.EPERM))
        /\ OpenDir s nm context
           = if negb (os.IsDir (Mode st)) then Ok (None, fuse.EIO)
             else if negb (permitted st context) then Ok (None, fuse.EPERM)
                  else Ok (Some (map (fun e => header_dirent
                                                 (shown (tar.entries tr) e))
                                     (entries_under (tar.entries tr)
                                                    (fuseNameToKey nm))),
                           fuse.OK)).
Proof.
  intros Hs. split.
  - intros Habsent.
    apply (served_paths _ _ _ _ _ _ Hs) in Habsent.
    unfold Open, GetAttr, OpenDir. rewrite Habsent. auto.
  - intros Hpresent.
    destruct (Get (db s) (fuseNameToKey nm)) as [fi|] eqn:Hg.
    + destruct (served_stat _ _ _ _ _ _ _ Hs Hg) as (st & Hst).
      exists fi, st.
      split; [reflexivity|]. split; [exact Hst|]. split; [|split].
      * destruct (Open_present s nm flags context fi st Hg Hst) as (n & _ & Ho).
        eexists. exact Ho.
      * pose proof (GetAttr_stat _ _ context _ _ Hg Hst) as Ha.
        destruct (permitted st context); [eexists; exact Ha|].
        exists {| fuse.Attr_Mtime := 0; fuse.Attr_Mode := 0;
                  fuse.Attr_Size := 0; fuse.Attr_Uid := 0;
                  fuse.Attr_Gid := 0 |}.
        exact Ha.
      * exact (served_OpenDir _ _ _ _ _ _ context _ _ Hs Hg Hst).
    + exfalso. apply Hpresent. apply (served_paths _ _ _ _ _ _ Hs). exact Hg.
Qed.

(** The theorem on the served file [secret]: a name the archive does not
    have, and the file itself for a caller its mode keeps out. *)
Lemma served_lookup_statuses_witness :
  (Open secret_server "absent" 0 (caller 2000 2000) = Ok (None, fuse.ENOENT)
   /\ GetAttr secret_server "absent" (caller 2000 2000)
      = Ok (None, fuse.ENOENT)
   /\ OpenDir secret_server "absent" (caller 2000 2000)
      = Ok (None, fuse.ENOENT))
  /\ (exists f, Open secret_server "secret" 0 (caller 2000 2000)
                = Ok (Some f, fuse.OK))
  /\ GetAttr secret_server "secret" (caller 2000 2000) = Ok (None, fuse.EPERM)
  /\ OpenDir secret_server "secret" (caller 2000 2000) = Ok (None, fuse.EIO).
Proof.
  split.
  - apply (served_lookup_statuses
             {| tar.entries := [(secret_header, 512)]; tar.stops := tar.EOF |}
             example_stream 0 0 secret_server "absent" 0 (caller 2000 2000)
             eq_refl).
    split; [vm_compute; discriminate|].
    intros e [<-|[]]. vm_compute. discriminate.
  - destruct (served_lookup_statuses
                {| tar.entries := [(secret_header, 512)]; tar.stops := tar.EOF |}
                example_stream 0 0 secret_server "secret" 0 (caller 2000 2000)
                eq_refl)
      as (_ & Hfound).
    destruct Hfound as (fi & st & Hg & Hst & Ho & (a & Ha) & Hd).
    { intros (_ & H). exact (H (secret_header, 512) (or_introl eq_refl) eq_refl). }
    injection Hg as <-. injection Hst as <-.
    split; [exact Ho|]. split; [exact Ha|exact Hd].
Defined.

(** ** Listings of any served archive *)

(** X15. For any archive served, duplicates and all, [OpenDir] on a
    directory whose mode lets the caller in lists the entries of the archive
    whose parent path is the directory's, one for each such entry, in the
    order the archive has them. An entry that is no directory is listed with
    the last element of its own header's name and its own header's file mode
    cut to 32 bits; a directory entry is listed with those of the last
    directory entry of the archive that has its key. So an entry the archive
    repeats is listed once for each time, and a root entry of the archive is
    listed in the root itself. *)
Theorem OpenDir_lists_every_occurrence
  (tr : tar.Reader) (ra : list Byte.byte) (euid egid : Z) (s : server)
  (nm : string) (context : fuse.Context) (dir : FileInfo) (st : StatT) :
  FromReaderAt tr ra NewBTreeStore [] euid egid = Ok (inl s) ->
  Get (db s) (fuseNameToKey nm) = Some dir ->
  the_stat (mem s) dir = Ok st ->
  os.IsDir (Mode st) = true ->
  permitted st context = true ->
  OpenDir s nm context
  = Ok (Some (map (fun e => header_dirent (shown (tar.entries tr) e))
                  (entries_under (tar.entries tr) (fuseNameToKey nm))),
        fuse.OK).
Proof.
  intros Hs Hget Hst Hdir Hperm.
  rewrite (served_OpenDir _ _ _ _ _ _ context _ _ Hs Hget Hst), Hdir, Hperm.
  reflexivity.
Qed.

(** The theorem on the archive that has a root entry and the file [a]
    twice: the root lists itself, and [a] twice. *)
Lemma OpenDir_lists_every_occurrence_witness :
  OpenDir repeating_server "" (caller 1000 1000)
  = Ok (Some [ {| fuse.DirEntry_Name := ".";
                  fuse.DirEntry_Mode := uint32 (Z.lor 493 os.ModeDir) |};
               {| fuse.DirEntry_Name := "a"; fuse.DirEntry_Mode := 420 |};
               {| fuse.DirEntry_Name := "a"; fuse.DirEntry_Mode := 420 |} ],
        fuse.OK).
Proof.
  apply (OpenDir_lists_every_occurrence repeating_archive [] 0 0
           repeating_server "" (caller 1000 1000) 0%nat
           (with_Ino (fillStat (directory_header "./")) 512)).
  - vm_compute. reflexivity.
  - reflexivity.
  - reflexivity.
  - reflexivity.
  - reflexivity.
Defined.

(** ** Parents that the archive describes *)

Section Parents.

(** A served archive has a directory entry for the parent path of each of
    its entries, the root apart. *)
Lemma served_parent_described (tr : tar.Reader) (ra : list Byte.byte)
  (euid egid : Z) (s : server) (c : tar.Header * Z) :
  FromReaderAt tr ra NewBTreeStore [] euid egid = Ok (inl s) ->
  In c (tar.entries tr) ->
  filepath.Dir (entry_key c) <> "/" ->
  described_by (tar.entries tr) (filepath.Dir (entry_key c)) = true.
Proof.
  intros Hs Hc Hne.
  destruct (FromReaderAt_traced _ _ _ _ _ Hs) as (Ht & _).
  destruct (described_by (tar.entries tr) (filepath.Dir (entry_key c)))
    eqn:E; [reflexivity|].
  exfalso.
  assert (Hin : filepath.Dir (entry_key c) ∈ (∅ : gset string)).
  { apply (traced_missing _ _ Ht). split; [exact Hne|]. split; [|exact E].
    exists c. auto. }
  apply elem_of_empty in Hin. exact Hin.
Qed.

(** The directory above an entry of a served archive lists the entry, by
    the name of the header the entry shows. *)
Lemma served_lists (tr : tar.Reader) (ra : list Byte.byte) (euid egid : Z)
  (s : server) (nm : string) (context : fuse.Context) (c : tar.Header * Z)
  (child : string) :
  FromReaderAt tr ra NewBTreeStore [] euid egid = Ok (inl s) ->
  In c (tar.entries tr) ->
  filepath.Dir (entry_key c) = fuseNameToKey nm ->
  filepath.Base (tar.Name (fst (shown (tar.entries tr) c))) = child ->
  lists s nm context child.
Proof.
  intros Hs Hc Hk Hb.
  destruct (FromReaderAt_traced _ _ _ _ _ Hs) as (Ht & _).
  destruct (traced_has _ _ Ht c Hc) as (_ & [dir Hdir]).
  cbn [idx] in Hdir. rewrite Hk in Hdir.
  destruct (served_stat _ _ _ _ _ _ _ Hs Hdir) as (st & Hst).
  exists dir, st. split; [exact Hdir|]. split; [exact Hst|].
  pose proof (served_OpenDir _ _ _ _ _ _ context _ _ Hs Hdir Hst) as Ho.
  destruct (negb (os.IsDir (Mode st))); [exact Ho|].
  destruct (negb (permitted st context)); [exact Ho|].
  eexists. split; [exact Ho|].
  rewrite map_map. apply List.in_map_iff. exists c. split.
  - exact Hb.
  - apply List.filter_In. split; [exact Hc|].
    rewrite Hk. apply String.eqb_refl.
Qed.

(** What [lists] says of a directory the caller is let into. *)
Lemma lists_admitted (s : server) (nm : string) (context : fuse.Context)
  (child : string) (dir : FileInfo) (st : StatT) :
  lists s nm context child ->
  Get (db s) (fuseNameToKey nm) = Some dir ->
  the_stat (mem s) dir = Ok st ->
  os.IsDir (Mode st) = true ->
  permitted st context = true ->
  exists des, OpenDir s nm context = Ok (Some des, fuse.OK)
              /\ In child (map fuse.DirEntry_Name des).
Proof.
  intros (d & st' & Hg & Hst & H) Hg' Hst' Hdir Hperm.
  rewrite Hg' in Hg. injection Hg as <-.
  rewrite Hst' in Hst. injection Hst as <-.
  rewrite Hdir, Hperm in H. exact H.
Qed.

End Parents.

(** C3, amended. Take an archive that has an entry named [foo/quux/hello]
    which is no directory. The loop makes a placeholder for the immediate
    parent of an entry only, and [FromReaderAt] serves the archive only if
    each parent is described by a directory entry of its own, before or
    after. So: when the archive is this entry followed by directory entries
    named [foo/quux/] and [foo/], in either order, and ends as an archive
    should, it is served. And whenever the archive is served, it has a
    directory entry whose key is [/foo/quux] and one whose key is [/foo];
    and when the directory entries with these keys are named so that the
    last element of the name is [quux] and [foo], then for every caller the
    root lists [foo], [foo] lists [quux] and [foo/quux] lists [hello]: each
    of the three paths is in the index, and [OpenDir] on it answers an
    input/output error when the node there has not the mode of a directory
    (an entry that is no directory has taken the path since),
    permission-denied when [checkPermissions] refuses the caller, and
    otherwise a listing in which the name occurs. *)
Theorem parents_described_later_are_linked
  (tr : tar.Reader) (ra : list Byte.byte) (euid egid : Z)
  (hello : tar.Header) (pos : Z) :
  In (hello, pos) (tar.entries tr) ->
  tar.Name hello = "foo/quux/hello" ->
  os.IsDir (tar.FileMode hello) = false ->
  ((exists (quux foo : tar.Header) (p2 p3 : Z),
      tar.Name quux = "foo/quux/" /\ os.IsDir (tar.FileMode quux) = true
      /\ tar.Name foo = "foo/" /\ os.IsDir (tar.FileMode foo) = true
      /\ tar.stops tr = tar.EOF
      /\ (tar.entries tr = [(hello, pos); (quux, p2); (foo, p3)]
          \/ tar.entries tr = [(hello, pos); (foo, p3); (quux, p2)])) ->
   exists s, FromReaderAt tr ra NewBTreeStore [] euid egid = Ok (inl s))
  /\ (forall s,
        FromReaderAt tr ra NewBTreeStore [] euid egid = Ok (inl s) ->
        described_by (tar.entries tr) "/foo/quux" = true
        /\ described_by (tar.entries tr) "/foo" = true
        /\ ((forall d, In d (tar.entries tr) -> entry_IsDir d = true ->
               (entry_key d = "/foo/quux" ->
                filepath.Base (tar.Name (fst d)) = "quux")
               /\ (entry_key d = "/foo" ->
                   filepath.Base (tar.Name (fst d)) = "foo")) ->
            forall context,
              lists s "" context "foo"
              /\ lists s "foo" context "quux"
              /\ lists s "foo/quux" context "hello")).
Proof.
  intros Hin Hn1 Hd1. split.
  - intros (quux & foo & p2 & p3 & Hn2 & Hd2 & Hn3 & Hd3 & Hstop & Hes).
    unfold FromReaderAt, ingest_start, alloc. rewrite Hstop.
    destruct Hes as [-> | ->]; cbn [ingest_loop app length].
    + ingest_step Hn1 Hd1. ingest_step Hn2 Hd2. ingest_step Hn3 Hd3.
      run_closed. cbn [Nat.eqb negb]. eexists. reflexivity.
    + ingest_step Hn1 Hd1. ingest_step Hn3 Hd3. ingest_step Hn2 Hd2.
      run_closed. cbn [Nat.eqb negb]. eexists. reflexivity.
  - intros s Hs.
    assert (Hk : entry_key (hello, pos) = "/foo/quux/hello").
    { unfold entry_key. cbn [fst]. rewrite Hn1. vm_compute. reflexivity. }
    assert (Hq : described_by (tar.entries tr) "/foo/quux" = true).
    { pose proof (served_parent_described _ _ _ _ _ _ Hs Hin) as H.
      rewrite Hk in H. apply H. vm_compute. discriminate. }
    destruct (proj1 (described_by_true _ _) Hq) as (dq & Hdq & Hdirq & Hkq).
    assert (Hf : described_by (tar.entries tr) "/foo" = true).
    { pose proof (served_parent_described _ _ _ _ _ _ Hs Hdq) as H.
      rewrite Hkq in H. apply H. vm_compute. discriminate. }
    destruct (proj1 (described_by_true _ _) Hf) as (df & Hdf & Hdirf & Hkf).
    split; [exact Hq|]. split; [exact Hf|]. intros Hspell context.
    split; [|split].
    + apply (served_lists _ _ _ _ _ _ _ df _ Hs Hdf).
      * rewrite Hkf. vm_compute. reflexivity.
      * destruct (shown_In _ _ Hdf) as (H1 & H2 & H3).
        apply (Hspell _ H1); congruence.
    + apply (served_lists _ _ _ _ _ _ _ dq _ Hs Hdq).
      * rewrite Hkq. vm_compute. reflexivity.
      * destruct (shown_In _ _ Hdq) as (H1 & H2 & H3).
        apply (Hspell _ H1); congruence.
    + apply (served_lists _ _ _ _ _ _ _ (hello, pos) _ Hs Hin).
      * rewrite Hk. vm_compute. reflexivity.
      * rewrite shown_file by exact Hd1. cbn [fst]. rewrite Hn1.
        vm_compute. reflexivity.
Qed.

(** The theorem on the archive of [hello] followed by [foo/quux/] and
    [foo/], for a caller who owns nothing in it. *)
Lemma parents_described_later_are_linked_witness :
  (exists s, FromReaderAt later_archive example_stream NewBTreeStore [] 0 0
             = Ok (inl s))
  /\ (exists des, OpenDir later_server "" (caller 2000 2000)
                  = Ok (Some des, fuse.OK)
                  /\ In "foo" (map fuse.DirEntry_Name des))
  /\ (exists des, OpenDir later_server "foo" (caller 2000 2000)
                  = Ok (Some des, fuse.OK)
                  /\ In "quux" (map fuse.DirEntry_Name des))
  /\ (exists des, OpenDir later_server "foo/quux" (caller 2000 2000)
                  = Ok (Some des, fuse.OK)
                  /\ In "hello" (map fuse.DirEntry_Name des)).
Proof.
  destruct (parents_described_later_are_linked later_archive example_stream
              0 0 hello_header 512 (or_introl eq_refl) eq_refl eq_refl)
    as (Hserved & Hlinked).
  split.
  - apply Hserved.
    exists (directory_header "foo/quux/"), (directory_header "foo/"),
      2048, 2560.
    repeat (split; [reflexivity|]). left. reflexivity.
  - destruct (Hlinked later_server) as (_ & _ & Hlists);
      [vm_compute; reflexivity|].
    destruct (Hlists) with (context := caller 2000 2000)
      as (Hroot & Hfoo & Hquux).
    { intros d [<-|[<-|[<-|[]]]] Hd; split; intros Hk;
        first [reflexivity | discriminate Hd | discriminate Hk]. }
    split; [|split].
    + apply (lists_admitted _ _ _ _ 0%nat (rootStat 0 0) Hroot);
        vm_compute; reflexivity.
    + apply (lists_admitted _ _ _ _ 3%nat
               (with_Ino (fillStat (directory_header "foo/")) 2560) Hfoo);
        vm_compute; reflexivity.
    + apply (lists_admitted _ _ _ _ 2%nat
               (with_Ino (fillStat (directory_header "foo/quux/")) 2048)
               Hquux);
        vm_compute; reflexivity.
Defined.
